(** * passlib3 build backend: archive builder, version deriver, timezone resolver

  A shallow embedding of [do.py] (class [Wheel] and the command line wrapper
  [digest_args]), [_get_version.py] ([get_version_from_git]) and
  [_get_tzinfo.py] (class [SystemTZ]), and the properties the specification
  states about them.

  Conventions of the embedding:
  - Python [int] is [Z]; [str] is [string]; [bytes] is [list byte];
      a [tuple] of ints is a [list Z] compared lexicographically;
  - a raised exception is the [Raise] case of [result]; statements are
    sequenced with [x <- e ;; k];
  - what the interpreter, the operating system and third-party packages
    provide (the configured time zone, SHA-256, [str.casefold], the C
    library's [localtime] and [mktime], [packaging.version], [git]) is a
    field of a class ([Runtime], [LibC], [Packaging], [Git], [Interp]) the
    definitions take as an argument. *)

From Stdlib Require Import ZArith NArith List String Ascii Bool Lia Permutation.
From Stdlib Require Import OrderedTypeEx DecimalString.
Import ListNotations.

Set Warnings "-register-all".

Local Open Scope string_scope.
Local Open Scope Z_scope.
Local Open Scope list_scope.

Infix "+++" := String.append (at level 60, right associativity).

(* ================================================================== *)
(** * Python values and control *)
(* ================================================================== *)

Module Py.

Definition bytes := list Byte.byte.

(** Exceptions, by class.  [ValueErrorAt msg fields] is the [ValueError] whose
    message is [msg] followed by the datetime with these fields. *)
Inductive exn :=
| AssertionError
| ValueError (msg : string)
| ValueErrorAt (msg : string) (fields : list Z)
| TypeError (msg : string)
| NotImplementedError
| IndexError
| OverflowError (msg : string)
| OSError (msg : string).

Inductive result (A : Type) :=
| Ok (a : A)
| Raise (e : exn).
Arguments Ok {A} a.
Arguments Raise {A} e.

Definition bind {A B} (r : result A) (k : A -> result B) : result B :=
  match r with
  | Ok a => k a
  | Raise e => Raise e
  end.

Definition assert (b : bool) : result unit :=
  if b then Ok tt else Raise AssertionError.

Definition is_ok {A} (r : result A) : bool :=
  match r with Ok _ => true | Raise _ => false end.

(** Same outcome: the same value, or an exception on both sides. *)
Definition same_outcome {A} (r1 r2 : result A) : Prop :=
  match r1, r2 with
  | Ok a, Ok b => a = b
  | Raise _, Raise _ => True
  | _, _ => False
  end.

(** [a < b] on tuples of ints. *)
Fixpoint tuple_ltb (a b : list Z) : bool :=
  match a, b with
  | [], [] => false
  | [], _ :: _ => true
  | _ :: _, [] => false
  | x :: a', y :: b' => if x =? y then tuple_ltb a' b' else x <? y
  end.

(** [a <= b] on tuples of ints. *)
Definition tuple_le (a b : list Z) : Prop := tuple_ltb b a = false.

(** [s.split(sep)] for a one-character separator. *)
Fixpoint split (sep : ascii) (s : string) : list string :=
  match s with
  | EmptyString => [EmptyString]
  | String c s' =>
      if Ascii.eqb c sep then EmptyString :: split sep s'
      else match split sep s' with
           | [] => [String c EmptyString]
           | w :: ws => String c w :: ws
           end
  end.

(** [sep.join(l)] *)
Fixpoint join (sep : string) (l : list string) : string :=
  match l with
  | [] => EmptyString
  | [x] => x
  | x :: rest => x +++ sep +++ join sep rest
  end.

Definition startswith (s p : string) : bool := String.prefix p s.

Fixpoint string_rev (s : string) : string :=
  match s with
  | EmptyString => EmptyString
  | String c s' => string_rev s' +++ String c EmptyString
  end.

Definition endswith (s p : string) : bool :=
  String.prefix (string_rev p) (string_rev s).

(** [s.removesuffix(p)] *)
Definition removesuffix (s p : string) : string :=
  if endswith s p
  then String.substring 0 (String.length s - String.length p) s
  else s.

(** [x in s] for strings: [x] occurs in [s]. *)
Fixpoint contains (x s : string) : bool :=
  String.prefix x s ||
  match s with
  | EmptyString => false
  | String _ s' => contains x s'
  end.

(** [str(n)] for an int. *)
Definition str_of_int (n : Z) : string := NilZero.string_of_int (Z.to_int n).

(** Octal literals, digit by digit: [oct [7;7;5]] is [0o775]. *)
Definition oct (digits : list Z) : Z :=
  fold_left (fun acc d => 8 * acc + d) digits 0.

End Py.
Export Py.

Notation "x <- e ;; k" := (bind e (fun x => k))
(at level 61, e at next level, right associativity).
Notation "' p <- e ;; k" := (bind e (fun x => let 'p := x in k))
(at level 61, p pattern, e at next level, right associativity).

(* ================================================================== *)
(** * [stat] and [pathlib] *)
(* ================================================================== *)

Module stat.
Definition S_IFMT (mode : Z) : Z := Z.land mode (oct [1;7;0;0;0;0]).
Definition S_IFDIR : Z := oct [0;4;0;0;0;0].
Definition S_IFREG : Z := oct [1;0;0;0;0;0].
Definition S_IFLNK : Z := oct [1;2;0;0;0;0].
Definition S_ISDIR (mode : Z) : bool := S_IFMT mode =? S_IFDIR.
End stat.

(** [PurePosixPath]: the root (empty, one slash or two) and the names below
  it.  Empty and [.] components are dropped when a string is parsed, [..]
  is kept. *)
Record PurePosixPath := mkPath { root : string; names : list string }.

Module Path.

Definition parse_root (s : string) : string :=
  match s with
  | String "/" (String "/" (String "/" _)) => "/"
  | String "/" (String "/" _) => "//"
  | String "/" _ => "/"
  | _ => ""
  end.

Definition is_name (c : string) : bool :=
  negb (String.eqb c "" || String.eqb c ".").

Definition of_str (s : string) : PurePosixPath :=
  mkPath (parse_root s) (filter is_name (split "/" s)).

Definition is_absolute (p : PurePosixPath) : bool :=
  negb (String.eqb (root p) "").

(** [p.parts] *)
Definition parts (p : PurePosixPath) : list string :=
  if is_absolute p then root p :: names p else names p.

(** [p / other] *)
Definition joinpath (p : PurePosixPath) (other : string) : PurePosixPath :=
  let q := of_str other in
  if is_absolute q then q else mkPath (root p) (names p ++ names q).

Definition join_paths (p q : PurePosixPath) : PurePosixPath :=
  if is_absolute q then q else mkPath (root p) (names p ++ names q).

(** [p.as_posix()], which is [str(p)] *)
Definition as_posix (p : PurePosixPath) : string :=
  match names p with
  | [] => if is_absolute p then root p else "."
  | _ => root p +++ join "/" (names p)
  end.

(** [p.relative_to(p.root)] *)
Definition strip_root (p : PurePosixPath) : PurePosixPath :=
  mkPath "" (names p).

(** [names] is [prefix ++ rest]: the [rest] *)
Fixpoint strip_prefix (prefix l : list string) : option (list string) :=
  match prefix, l with
  | [], _ => Some l
  | x :: prefix', y :: l' =>
      if String.eqb x y then strip_prefix prefix' l' else None
  | _ :: _, [] => None
  end.

(** [p.relative_to(other)] *)
Definition relative_to (p other : PurePosixPath) : result PurePosixPath :=
  if String.eqb (root p) (root other) then
    match strip_prefix (names other) (names p) with
    | Some rest => Ok (mkPath "" rest)
    | None => Raise (ValueError "is not in the subpath of")
    end
  else Raise (ValueError "is not in the subpath of").

Definition eqb (p q : PurePosixPath) : bool :=
  String.eqb (root p) (root q) &&
  (if list_eq_dec string_dec (names p) (names q) then true else false).

End Path.

(* ================================================================== *)
(** * Calendar arithmetic and [datetime] *)
(* ================================================================== *)

Module Calendar.

Definition is_leap (y : Z) : bool :=
  (y mod 4 =? 0) && (negb (y mod 100 =? 0) || (y mod 400 =? 0)).

Definition days_in_month (y m : Z) : Z :=
  if m =? 2 then (if is_leap y then 29 else 28)
  else if (m =? 4) || (m =? 6) || (m =? 9) || (m =? 11) then 30
  else 31.

(** Days from 1970-01-01 to the given proleptic Gregorian date. *)
Definition days_from_civil (y m d : Z) : Z :=
  let y' := if m <=? 2 then y - 1 else y in
  let era := y' / 400 in
  let yoe := y' - era * 400 in
  let mp := (m + 9) mod 12 in
  let doy := (153 * mp + 2) / 5 + d - 1 in
  let doe := yoe * 365 + yoe / 4 - yoe / 100 + doy in
  era * 146097 + doe - 719468.

(** The date that many days after 1970-01-01. *)
Definition civil_from_days (n : Z) : Z * Z * Z :=
  let z := n + 719468 in
  let era := z / 146097 in
  let doe := z - era * 146097 in
  let yoe := (doe - doe / 1460 + doe / 36524 - doe / 146096) / 365 in
  let doy := doe - (365 * yoe + yoe / 4 - yoe / 100) in
  let mp := (5 * doy + 2) / 153 in
  let d := doy - (153 * mp + 2) / 5 + 1 in
  let m := if mp <? 10 then mp + 3 else mp - 9 in
  let y := yoe + era * 400 in
  ((if m <=? 2 then y + 1 else y), m, d).

(** [calendar.timegm]: seconds since the epoch of a UTC broken-down time
    (the first six fields of the tuple). *)
Definition timegm (t : list Z) : Z :=
  match t with
  | y :: m :: d :: h :: mi :: s :: _ =>
      days_from_civil y m d * 86400 + h * 3600 + mi * 60 + s
  | _ => 0
  end.

(** [time.gmtime(secs)[:6]] *)
Definition gmtime (secs : Z) : list Z :=
  let days := secs / 86400 in
  let r := secs mod 86400 in
  let '(y, m, d) := civil_from_days days in
  [y; m; d; r / 3600; (r mod 3600) / 60; r mod 60].

End Calendar.

(** A [datetime.datetime] value: its calendar fields and [fold].  Which zone
    the fields are read in is known from where the value comes from; two
    values carrying the same [tzinfo] object compare by their fields
    ([fold] ignored), as [datetime.__lt__] does. *)
Record DateTime := mkDateTime {
  year : Z; month : Z; day : Z;
  hour : Z; minute : Z; second : Z; microsecond : Z;
  fold : Z
}.

Module DT.

Definition fields (d : DateTime) : list Z :=
  [year d; month d; day d; hour d; minute d; second d; microsecond d].

(** [a < b] for two datetimes of the same zone *)
Definition ltb (a b : DateTime) : bool := tuple_ltb (fields a) (fields b).

(** [d.timetuple()[:6]] *)
Definition timetuple6 (d : DateTime) : list Z :=
  [year d; month d; day d; hour d; minute d; second d].

Definition valid (y m d h mi s us : Z) : bool :=
  (1 <=? y) && (y <=? 9999) && (1 <=? m) && (m <=? 12) &&
  (1 <=? d) && (d <=? Calendar.days_in_month y m) &&
  (0 <=? h) && (h <? 24) && (0 <=? mi) && (mi <? 60) &&
  (0 <=? s) && (s <? 60) && (0 <=? us) && (us <? 1000000).

(** [DateTime( *t )] for a tuple of ints: year, month, day and up to four
    more fields. *)
Definition of_tuple (t : list Z) : result DateTime :=
  match t with
  | y :: m :: d :: rest =>
      if (4 <? Z.of_nat (List.length rest))
      then Raise (TypeError "tzinfo argument must be None or of a tzinfo subclass")
      else
        let h := nth 0 rest 0 in
        let mi := nth 1 rest 0 in
        let s := nth 2 rest 0 in
        let us := nth 3 rest 0 in
        if valid y m d h mi s us
        then Ok (mkDateTime y m d h mi s us 0)
        else Raise (ValueError "field out of range")
  | _ => Raise (TypeError "function missing required argument")
  end.

(** Seconds and microseconds of the fields read as UTC. *)
Definition to_micros (d : DateTime) : Z :=
  Calendar.timegm (timetuple6 d) * 1000000 + microsecond d.

(** The UTC fields of an instant given in microseconds since the epoch. *)
Definition of_micros (us : Z) : DateTime :=
  match Calendar.gmtime (us / 1000000) with
  | [y; m; d; h; mi; s] => mkDateTime y m d h mi s (us mod 1000000) 0
  | _ => mkDateTime 1970 1 1 0 0 0 0 0
  end.

End DT.

(* ================================================================== *)
(** * The archive builder: class [Wheel] of [do.py] *)
(* ================================================================== *)

(** What the builder takes from outside the repository. *)
Class Runtime := {
  (** [str.casefold] *)
  casefold : string -> string;
  (** [hashlib.sha256(data).digest()] *)
  sha256_digest : bytes -> bytes;
  (** the instant, in microseconds since the epoch, a naive [datetime] denotes
      when its fields are read as system local time (what [astimezone] does
      first on a naive value) *)
  local_instant : DateTime -> Z
}.

(** A [tzinfo] object as [astimezone] uses it: the calendar fields, in that
    zone, of an instant. *)
Record tzinfo := mkTz { tz_fields : Z -> DateTime }.

(** [zipfile.ZipInfo], the attributes the builder sets or reads. *)
Record ZipInfo := mkZipInfo {
  filename : string;
  date_time : list Z;
  create_system : Z;
  external_attr : Z;
  CRC : option Z;
  compress_type : Z;
  _compresslevel : option Z;
  file_size : Z
}.

Module Zip.

Definition ZIP_STORED : Z := 0.
Definition ZIP_DEFLATED : Z := 8.

(** [ZipInfo(filename, date_time)] *)
Definition new (name : string) (dt : list Z) : result ZipInfo :=
  if nth 0 dt 0 <? 1980
  then Raise (ValueError "ZIP does not support timestamps before 1980")
  else Ok (mkZipInfo name dt 3 0 None ZIP_STORED None 0).

Definition set_date_time (z : ZipInfo) (dt : list Z) : ZipInfo :=
  mkZipInfo (filename z) dt (create_system z) (external_attr z) (CRC z)
            (compress_type z) (_compresslevel z) (file_size z).

Definition set_file_size (z : ZipInfo) (n : Z) : ZipInfo :=
  mkZipInfo (filename z) (date_time z) (create_system z) (external_attr z)
            (CRC z) (compress_type z) (_compresslevel z) n.

(** [zinfo.is_dir()] *)
Definition is_dir (z : ZipInfo) : bool := endswith (filename z) "/".

End Zip.

(** A hash object: the bytes fed to it so far; its [name] is [sha256]. *)
Definition Hash := bytes.

(** One archive member as written: its header and its data. *)
Definition member := (ZipInfo * bytes)%type.

(** The state of a [Wheel] instance.  [fp] is [false] once the archive is
    closed; [filelist] holds the members in the order written.  [__dist_info]
    and [__record] are dicts, association lists in insertion order, and
    [None] after [close].  [__buf] is the copy buffer, known by its length,
    and [None] after [close]. *)
Record WheelState := mkWheel {
  fp : bool;
  filelist : list member;
  compression : Z;
  compresslevel : Z;
  _strict_timestamps : bool;
  __dist_info_prefix : option PurePosixPath;
  __dist_info : option (list (PurePosixPath * option (bytes * Hash)));
  __record : option (list (PurePosixPath * (Hash * Z)));
  __buf : option N;
  __modified : list Z;
  __tz : tzinfo;
  __min_dt : DateTime;
  __max_dt : DateTime
}.

(** The [path] argument of [make_zipinfo]: a [str] or a path object. *)
Inductive path_arg :=
| PStr (s : string)
| PPath (p : PurePosixPath).

(** The [dt] argument of [make_zipinfo].  A number, finite, is given by the
    microsecond count [fromtimestamp] rounds it to; an aware [DateTime] by
    its instant; a naive one and a tuple by their fields. *)
Inductive dt_arg :=
| DtNone
| DtNumber (micros : Z)
| DtTuple (t : list Z)
| DtNaive (d : DateTime)
| DtAware (micros : Z).

Module Wheel.

(** [naive.astimezone(tz)] *)
Definition astimezone_naive `{Runtime} (tz : tzinfo) (d : DateTime) : DateTime :=
  tz_fields tz (local_instant d).

Definition floor_fields : DateTime := mkDateTime 1980 1 1 0 0 0 0 0.
Definition ceiling_fields : DateTime := mkDateTime 2107 12 31 23 59 59 999999 0.

(** [Wheel.__init__], with the zone [get_tzinfo()] returned. *)
Definition __init__ `{Runtime} (tz : tzinfo) : WheelState :=
  mkWheel true [] Zip.ZIP_DEFLATED 8 false None (Some []) (Some [])
          (Some (64 * 1024)%N) [1980; 1; 1; 0; 0; 0] tz
          (astimezone_naive tz floor_fields)
          (astimezone_naive tz ceiling_fields).

Definition path_is_dir_str (path : path_arg) : bool :=
  match path with
  | PStr s => endswith s "/"
  | PPath _ => false
  end.

Definition to_path (path : path_arg) : PurePosixPath :=
  match path with
  | PStr s => Path.of_str s
  | PPath p => p
  end.

(** Lines 178-182 of [make_zipinfo]: the Unix mode bits. *)
Definition mode_bits (isdir traversable executable writable : bool) : Z :=
  let mode := if isdir then oct [2;7;7;5] else oct [7;7;5] in
  let mode := if negb (if isdir then traversable else executable)
              then Z.land mode (Z.lnot (oct [1;1;1])) else mode in
  if negb writable then Z.land mode (Z.lnot (oct [2;2;2])) else mode.

(** Lines 184-188: the DOS attribute byte. *)
Definition dos_bits (isdir writable : bool) (path : PurePosixPath) : Z :=
  let dos_attr := if isdir then 16 else 0 in
  let dos_attr := if negb writable then Z.lor dos_attr 1 else dos_attr in
  if existsb (fun part => startswith part ".") (Path.parts path)
  then Z.lor dos_attr 2 else dos_attr.

(** Lines 153-158 of [make_zipinfo]: the entry kind. *)
Definition resolve_typ (path : path_arg) (typ : option Z) : result Z :=
  let typ := stat.S_IFMT (match typ with Some t => t | None => 0 end) in
  if negb (stat.S_ISDIR typ) && path_is_dir_str path
  then _ <- assert (typ =? 0) ;; Ok stat.S_IFDIR
  else if typ =? 0 then Ok stat.S_IFREG else Ok typ.

(** [DateTime.fromtimestamp(dt, tz=UTC)] for a number, as CPython does it
    on Linux with a 64-bit [time_t]: the seconds have to fit [time_t], the
    year has to fit the [int] that [gmtime] stores it in, and it has to be a
    year a [datetime] can hold.  The result is the instant. *)
Definition fromtimestamp_utc (us : Z) : result Z :=
  let secs := us / 1000000 in
  if (secs <? - 2 ^ 63) || (2 ^ 63 <=? secs)
  then Raise (OverflowError "timestamp out of range for platform time_t")
  else
    let y := year (DT.of_micros us) in
    if (y - 1900 <? - 2 ^ 31) || (2 ^ 31 <=? y - 1900)
    then Raise (OSError "[Errno 75] Value too large for defined data type")
    else if (y <? 1) || (9999 <? y)
    then Raise (ValueError ("year " +++ str_of_int y +++ " is out of range"))
    else Ok us.

(** What [astimezone] returns is a [datetime]: its year lies between
    [MINYEAR] and [MAXYEAR]. *)
Definition in_years (d : DateTime) : result DateTime :=
  if (1 <=? year d) && (year d <=? 9999) then Ok d
  else Raise (OverflowError "date value out of range").

(** Lines 163-168: the candidate timestamp as a datetime of [self.__tz]. *)
Definition localize `{Runtime} (self : WheelState) (dt : dt_arg) : result DateTime :=
  match dt with
  | DtNumber us => us <- fromtimestamp_utc us ;;
                   in_years (tz_fields (__tz self) us)
  | DtAware us => in_years (tz_fields (__tz self) us)
  | DtNaive d => in_years (astimezone_naive (__tz self) d)
  | DtNone => d <- DT.of_tuple [1980; 1; 1] ;;
              in_years (astimezone_naive (__tz self) d)
  | DtTuple t => d <- DT.of_tuple t ;;
                 in_years (astimezone_naive (__tz self) d)
  end.

(** Lines 169-176: the range check. *)
Definition clamp (self : WheelState) (dt : DateTime) : result DateTime :=
  if DT.ltb dt (__min_dt self) then
    if _strict_timestamps self
    then Raise (ValueErrorAt "timestamp must not be before "
                  (DT.fields (__min_dt self)))
    else Ok (__min_dt self)
  else if DT.ltb (__max_dt self) dt then
    if _strict_timestamps self
    then Raise (ValueErrorAt "timestamp must not be after "
                  (DT.fields (__max_dt self)))
    else Ok (__max_dt self)
  else Ok dt.

Definition make_zipinfo `{Runtime} (self : WheelState) (path : path_arg)
    (typ : option Z) (dt : dt_arg) (traversable executable writable : bool)
  : result ZipInfo :=
  typ <- resolve_typ path typ ;;
  let path := to_path path in
  _ <- assert (negb (Path.is_absolute path)) ;;
  dt <- localize self dt ;;
  dt <- clamp self dt ;;
  let isdir := stat.S_ISDIR typ in
  let mode := mode_bits isdir traversable executable writable in
  let dos_attr := dos_bits isdir writable path in
  let name := Path.as_posix path in
  zinfo <- Zip.new (if isdir then name +++ "/" else name) (DT.timetuple6 dt) ;;
  let external := Z.lor (Z.shiftl (Z.lor typ mode) 16) dos_attr in
  if typ =? stat.S_IFDIR then
    Ok (mkZipInfo (filename zinfo) (date_time zinfo) 3 external (Some 0)
          (compress_type zinfo) (_compresslevel zinfo) (file_size zinfo))
  else if typ =? stat.S_IFREG then
    Ok (mkZipInfo (filename zinfo) (date_time zinfo) 3 external (CRC zinfo)
          (compression self) (Some (compresslevel self)) (file_size zinfo))
  else Raise (TypeError "'NotImplementedType' object is not callable").

(** What a [Path] of the source tree refers to: a symbolic link, a regular
    file with what [lstat], [os.access] and reading it give, a directory with
    its own modification time and its entries in the order [iterdir] yields
    them, or anything else (a socket, a device). *)
Inductive node :=
| Symlink
| File (st_mode : Z) (st_mtime : Z) (x_ok w_ok : bool) (content : bytes)
| Dir (st_mtime : Z) (entries : list (string * node))
| Special.

(** The [Path] of a regular file as the builder uses it later: its name and
    the bytes read from it. *)
Record SrcFile := mkSrc { src_name : string; src_content : bytes }.

Definition file_entry := (SrcFile * ZipInfo)%type.

(** An element of [out_dirs]: the directory's [ZipInfo], or its archive path
    when it belongs to the metadata directory, and its files. *)
Definition out_dir := ((ZipInfo + PurePosixPath) * list file_entry)%type.

(** A recursive call of [_collect_tree_info] on a subdirectory, waiting for
    its [rel] and [out_dirs]. *)
Definition walker := PurePosixPath -> list out_dir -> result (list Z * list out_dir).

(** [list.sort(key=...)]: the stable sort by [key] under [str] comparison. *)
Fixpoint insert_by {A} (key : A -> string) (x : A) (l : list A) : list A :=
  match l with
  | [] => [x]
  | y :: l' => if String.ltb (key y) (key x) then y :: insert_by key x l'
               else x :: l
  end.

Definition sort_by {A} (key : A -> string) (l : list A) : list A :=
  fold_right (insert_by key) [] l.

(** [tree_zinfo.date_time = dt] seen through [out_dirs]: the [ZipInfo]
    appended at index [idx] is the same object. *)
Fixpoint store_date_time (idx : nat) (dt : list Z) (out_dirs : list out_dir)
  : list out_dir :=
  match idx, out_dirs with
  | _, [] => []
  | O, (inl z, files) :: rest => (inl (Zip.set_date_time z dt), files) :: rest
  | O, d :: rest => d :: rest
  | S i, d :: rest => d :: store_date_time i dt rest
  end.

(** [bool(rel.parts) and rel.parts[0].endswith('.dist-info')] *)
Definition is_dist_info_path (rel : PurePosixPath) : bool :=
  match Path.parts rel with
  | [] => false
  | p0 :: _ => endswith p0 ".dist-info"
  end.

(** The loop over [tree.iterdir()]. A directory kept in [dirs] is held with
    the call [recurse] makes on it. *)
Fixpoint scan_entries `{Runtime} (self : WheelState) (recurse : node -> walker)
    (rel : PurePosixPath) (is_dist_info : bool)
    (entries : list (string * node))
    (dirs : list (string * walker)) (files : list file_entry)
    (tree_zinfo : ZipInfo)
  : result (list (string * walker) * list file_entry * ZipInfo) :=
  match entries with
  | [] => Ok (dirs, files, tree_zinfo)
  | (name, child) :: rest =>
      match child with
      | Symlink => scan_entries self recurse rel is_dist_info rest dirs files tree_zinfo
      | Dir _ _ =>
          if negb (String.eqb name "__pycache__")
          then scan_entries self recurse rel is_dist_info rest
                 (dirs ++ [(name, recurse child)]) files tree_zinfo
          else scan_entries self recurse rel is_dist_info rest dirs files tree_zinfo
      | File st_mode st_mtime x_ok w_ok content =>
          let arc_path := Path.joinpath rel name in
          if is_dist_info then
            zinfo <- make_zipinfo self (PPath arc_path) (Some stat.S_IFREG)
                       DtNone true true true ;;
            scan_entries self recurse rel is_dist_info rest dirs
              (files ++ [(mkSrc name content, zinfo)]) tree_zinfo
          else
            zinfo <- make_zipinfo self (PPath arc_path) (Some st_mode)
                       (DtNumber st_mtime) true x_ok w_ok ;;
            let tree_zinfo :=
              if tuple_ltb (date_time tree_zinfo) (date_time zinfo)
              then Zip.set_date_time tree_zinfo (date_time zinfo)
              else tree_zinfo in
            scan_entries self recurse rel is_dist_info rest dirs
              (files ++ [(mkSrc name content, zinfo)]) tree_zinfo
      | Special => scan_entries self recurse rel is_dist_info rest dirs files tree_zinfo
      end
  end.

(** The loop over the sorted [dirs]; [idx] is where [tree_zinfo] sits in
    [out_dirs]. *)
Fixpoint visit_dirs (rel : PurePosixPath) (is_dist_info : bool) (idx : nat)
    (dirs : list (string * walker)) (tree_zinfo : ZipInfo)
    (out_dirs : list out_dir) : result (ZipInfo * list out_dir) :=
  match dirs with
  | [] => Ok (tree_zinfo, out_dirs)
  | (name, call) :: rest =>
      '(dt, out_dirs) <- call (Path.joinpath rel name) out_dirs ;;
      if negb is_dist_info && tuple_ltb (date_time tree_zinfo) dt
      then visit_dirs rel is_dist_info idx rest (Zip.set_date_time tree_zinfo dt)
             (store_date_time idx dt out_dirs)
      else visit_dirs rel is_dist_info idx rest tree_zinfo out_dirs
  end.

Fixpoint _collect_tree_info `{Runtime} (self : WheelState) (rel : PurePosixPath)
    (tree : node) (out_dirs : list out_dir) {struct tree}
  : result (list Z * list out_dir) :=
  match tree with
  | Dir _ entries =>
      tree_zinfo <- make_zipinfo self (PPath rel) (Some stat.S_IFDIR) DtNone
                      true true true ;;
      let is_dist_info := is_dist_info_path rel in
      '(dirs, files, tree_zinfo) <-
        scan_entries self
          (fun child rel' out => _collect_tree_info self rel' child out)
          rel is_dist_info entries [] [] tree_zinfo ;;
      let files := sort_by (fun pz => casefold (src_name (fst pz))) files in
      let idx := List.length out_dirs in
      let out_dirs :=
        out_dirs ++ [(if negb is_dist_info then inl tree_zinfo else inr rel, files)] in
      let dirs := sort_by (fun d => casefold (fst d)) dirs in
      '(tree_zinfo, out_dirs) <-
        visit_dirs rel is_dist_info idx dirs tree_zinfo out_dirs ;;
      Ok (date_time tree_zinfo, out_dirs)
  | _ => Raise (OSError "NotADirectoryError")
  end.

(** Item assignment [d[k] = v] on a dict kept in insertion order. *)
Fixpoint dict_set {V} (k : PurePosixPath) (v : V) (d : list (PurePosixPath * V))
  : list (PurePosixPath * V) :=
  match d with
  | [] => [(k, v)]
  | (k', v') :: d' =>
      if Path.eqb k k' then (k', v) :: d' else (k', v') :: dict_set k v d'
  end.

Definition set_filelist (self : WheelState) (l : list member) : WheelState :=
  mkWheel (fp self) l (compression self) (compresslevel self)
    (_strict_timestamps self) (__dist_info_prefix self) (__dist_info self)
    (__record self) (__buf self) (__modified self) (__tz self) (__min_dt self)
    (__max_dt self).

Definition set_record (self : WheelState)
    (r : option (list (PurePosixPath * (Hash * Z)))) : WheelState :=
  mkWheel (fp self) (filelist self) (compression self) (compresslevel self)
    (_strict_timestamps self) (__dist_info_prefix self) (__dist_info self)
    r (__buf self) (__modified self) (__tz self) (__min_dt self) (__max_dt self).

Definition set_dist_info (self : WheelState)
    (prefix : option PurePosixPath)
    (d : option (list (PurePosixPath * option (bytes * Hash)))) : WheelState :=
  mkWheel (fp self) (filelist self) (compression self) (compresslevel self)
    (_strict_timestamps self) prefix d
    (__record self) (__buf self) (__modified self) (__tz self) (__min_dt self)
    (__max_dt self).

Definition set_modified (self : WheelState) (dt : list Z) : WheelState :=
  mkWheel (fp self) (filelist self) (compression self) (compresslevel self)
    (_strict_timestamps self) (__dist_info_prefix self) (__dist_info self)
    (__record self) (__buf self) dt (__tz self) (__min_dt self) (__max_dt self).

(** [self.__buf = None; super().close()] *)
Definition set_closed (self : WheelState) : WheelState :=
  mkWheel false (filelist self) (compression self) (compresslevel self)
    (_strict_timestamps self) (__dist_info_prefix self) (__dist_info self)
    (__record self) None (__modified self) (__tz self) (__min_dt self)
    (__max_dt self).

(** A dict attribute that [close] has set to [None] takes no item. *)
Definition the_dict {A} (d : option A) : result A :=
  match d with
  | Some l => Ok l
  | None => Raise (TypeError "'NoneType' object does not support item assignment")
  end.

(** [ZipFile.mkdir(zinfo)] *)
Definition mkdir (self : WheelState) (zinfo : ZipInfo) : result WheelState :=
  if negb (Zip.is_dir zinfo)
  then Raise (ValueError "The given ZipInfo does not describe a directory")
  else if negb (fp self)
  then Raise (ValueError "Attempt to write to ZIP archive that was already closed")
  else Ok (set_filelist self (filelist self ++ [(zinfo, [])])).

(** [with self.open(zinfo, 'w') as dst: dst.write(data)]: the member is
    appended and [zinfo.file_size] is the number of bytes written. *)
Definition write_member (self : WheelState) (zinfo : ZipInfo) (data : bytes)
  : result (WheelState * ZipInfo) :=
  if negb (fp self)
  then Raise (ValueError "Attempt to use ZIP archive that was already closed")
  else
    let zinfo := Zip.set_file_size zinfo (Z.of_nat (List.length data)) in
    Ok (set_filelist self (filelist self ++ [(zinfo, data)]), zinfo).

(** The loop of [_add_dir] over [files].  The source file is copied through
    the 64 KiB buffer; the member and the hash object receive its bytes. *)
Fixpoint add_files (self : WheelState) (files : list file_entry)
  : result WheelState :=
  match files with
  | [] => Ok self
  | (path, zinfo) :: rest =>
      let hash : Hash := src_content path in
      '(self, zinfo) <- write_member self zinfo (src_content path) ;;
      record <- the_dict (__record self) ;;
      let self := set_record self
        (Some (dict_set (Path.of_str (filename zinfo)) (hash, file_size zinfo) record)) in
      add_files self rest
  end.

(** [memoryview(obj)] *)
Definition memoryview {A} (obj : option A) : result A :=
  match obj with
  | Some b => Ok b
  | None => Raise (TypeError "memoryview: a bytes-like object is required, not 'NoneType'")
  end.

Definition _add_dir (self : WheelState) (dir : ZipInfo) (files : list file_entry)
  : result WheelState :=
  _ <- memoryview (__buf self) ;;
  self <- (if negb (contains (filename dir) "./") then mkdir self dir else Ok self) ;;
  add_files self files.

(** The loop of [_add_dist_info] over [files]. *)
Fixpoint stage_files (rel : PurePosixPath) (files : list file_entry)
    (d : list (PurePosixPath * option (bytes * Hash)))
  : list (PurePosixPath * option (bytes * Hash)) :=
  match files with
  | [] => d
  | (path, _) :: rest =>
      let content := src_content path in
      stage_files rel rest
        (dict_set (Path.joinpath rel (src_name path)) (Some (content, content)) d)
  end.

Definition _add_dist_info (self : WheelState) (dir : PurePosixPath)
    (files : list file_entry) : result WheelState :=
  prefix <- match __dist_info_prefix self with
            | Some p => Ok p
            | None => match Path.parts dir with
                      | p0 :: _ => Ok (Path.of_str p0)
                      | [] => Raise IndexError
                      end
            end ;;
  rel <- Path.relative_to dir prefix ;;
  d <- the_dict (__dist_info self) ;;
  let d := dict_set rel None d in
  Ok (set_dist_info self (Some prefix) (Some (stage_files rel files d))).

(** The loop of [add_tree] over [dirs]. *)
Fixpoint add_dirs (self : WheelState) (dirs : list out_dir) : result WheelState :=
  match dirs with
  | [] => Ok self
  | (inl dir, files) :: rest => self <- _add_dir self dir files ;; add_dirs self rest
  | (inr dir, files) :: rest => self <- _add_dist_info self dir files ;; add_dirs self rest
  end.

Definition add_tree `{Runtime} (self : WheelState) (root : path_arg) (tree : node)
  : result WheelState :=
  let root := Path.strip_root (to_path root) in
  '(dt, dirs) <- _collect_tree_info self root tree [] ;;
  let self := if tuple_ltb (__modified self) dt then set_modified self dt else self in
  add_dirs self dirs.

(** [Wheel.__RecordDialect] *)
Module RecordDialect.
Definition delimiter : ascii := ",".
Definition doublequote : bool := false.
Definition escapechar : ascii := "\".
Definition lineterminator : string := String "010" EmptyString.
Definition quotechar : ascii := "034".
Definition skipinitialspace : bool := true.
Definition strict : bool := true.
End RecordDialect.

(** A value handed to [csv.writer.writerow]. *)
Inductive cell :=
| CPath (p : PurePosixPath)
| CStr (s : string)
| CInt (n : Z)
| CNone.

Definition cell_str (c : cell) : string :=
  match c with
  | CPath p => Path.as_posix p
  | CStr s => s
  | CInt n => str_of_int n
  | CNone => ""
  end.

(** The characters of one field as [csv.writer] emits them under
    [QUOTE_MINIMAL] without [doublequote], and whether the field has to be
    quoted: the quote and the escape character are escaped, a delimiter or a
    character of the line terminator forces quoting. *)
Fixpoint csv_chars (s : string) : string * bool :=
  match s with
  | EmptyString => (EmptyString, false)
  | String c s' =>
      let '(t, quoted) := csv_chars s' in
      if Ascii.eqb c RecordDialect.quotechar || Ascii.eqb c RecordDialect.escapechar
      then (String RecordDialect.escapechar (String c t), quoted)
      else if Ascii.eqb c RecordDialect.delimiter
              || contains (String c EmptyString) RecordDialect.lineterminator
      then (String c t, true)
      else (String c t, quoted)
  end.

Definition csv_field (s : string) : string :=
  let '(t, quoted) := csv_chars s in
  if quoted
  then String RecordDialect.quotechar t +++ String RecordDialect.quotechar EmptyString
  else t.

(** [writer.writerow(row)] for a row of two fields or more: the text
    appended to the buffer. *)
Definition writerow (row : list cell) : string :=
  join (String RecordDialect.delimiter EmptyString)
       (map (fun c => csv_field (cell_str c)) row)
  +++ RecordDialect.lineterminator.

Definition b64_alphabet : string :=
  "ABCDEFGHIJKLMNOPQRSTUVWXYZabcdefghijklmnopqrstuvwxyz0123456789-_".

Definition b64_char (n : N) : string :=
  match String.get (N.to_nat n) b64_alphabet with
  | Some c => String c EmptyString
  | None => EmptyString
  end.

(** [base64.urlsafe_b64encode] *)
Fixpoint base64url_encode (data : bytes) : string :=
  match data with
  | [] => ""
  | [a] =>
      let n := (Byte.to_N a * 65536)%N in
      b64_char (n / 262144) +++ b64_char ((n / 4096) mod 64) +++ "=="
  | [a; b] =>
      let n := (Byte.to_N a * 65536 + Byte.to_N b * 256)%N in
      b64_char (n / 262144) +++ b64_char ((n / 4096) mod 64)
      +++ b64_char ((n / 64) mod 64) +++ "="
  | a :: b :: c :: rest =>
      let n := (Byte.to_N a * 65536 + Byte.to_N b * 256 + Byte.to_N c)%N in
      b64_char (n / 262144) +++ b64_char ((n / 4096) mod 64)
      +++ b64_char ((n / 64) mod 64) +++ b64_char (n mod 64)
      +++ base64url_encode rest
  end.

(** [s.rstrip('=')] *)
Fixpoint rstrip_eq (s : string) : string :=
  match s with
  | EmptyString => EmptyString
  | String c s' =>
      match rstrip_eq s' with
      | EmptyString => if Ascii.eqb c "=" then EmptyString else String c EmptyString
      | t => String c t
      end
  end.

(** The row [close] writes for one item of [__record]. *)
Definition record_row `{Runtime} (item : PurePosixPath * (Hash * Z)) : list cell :=
  let '(rel, (hash, size)) := item in
  let digest := rstrip_eq (base64url_encode (sha256_digest hash)) in
  [CPath rel; CStr ("sha256" +++ "=" +++ digest); CInt size].

(** The loop of [close] over [__dist_info.items()]. *)
Fixpoint flush_dist_info `{Runtime} (self : WheelState) (prefix : PurePosixPath)
    (items : list (PurePosixPath * option (bytes * Hash))) : result WheelState :=
  match items with
  | [] => Ok self
  | (rel, file) :: rest =>
      let path := Path.join_paths prefix rel in
      let typ := match file with Some _ => stat.S_IFREG | None => stat.S_IFDIR end in
      zinfo <- make_zipinfo self (PPath path) (Some typ) (DtTuple (__modified self))
                 true false true ;;
      match file with
      | Some (content, hash) =>
          '(self, zinfo) <- write_member self zinfo content ;;
          record <- the_dict (__record self) ;;
          let self := set_record self
            (Some (dict_set path (hash, file_size zinfo) record)) in
          flush_dist_info self prefix rest
      | None =>
          self <- mkdir self zinfo ;;
          flush_dist_info self prefix rest
      end
  end.

(** The text of [RECORD]: a row per item of [__record], then the row of
    [RECORD] itself. *)
Definition record_text `{Runtime} (record : list (PurePosixPath * (Hash * Z)))
    (path : PurePosixPath) : string :=
  String.concat "" (map (fun item => writerow (record_row item)) record)
  +++ writerow [CPath path; CNone; CNone].

Definition close `{Runtime} (self : WheelState) : result WheelState :=
  if negb (fp self) then Ok self
  else
    prefix <- match __dist_info_prefix self with
              | Some p => Ok p
              | None => Raise AssertionError
              end ;;
    items <- the_dict (__dist_info self) ;;
    self <- flush_dist_info self prefix items ;;
    let self := set_dist_info self (Some prefix) None in
    record <- the_dict (__record self) ;;
    let self := set_record self None in
    let path := Path.joinpath prefix "RECORD" in
    let text := record_text record path in
    zinfo <- make_zipinfo self (PPath path) None (DtTuple (__modified self))
               true false true ;;
    '(self, _) <- write_member self zinfo (list_byte_of_string text) ;;
    Ok (set_closed self).

End Wheel.

(* ================================================================== *)
(** * The timezone resolver: class [SystemTZ] of [_get_tzinfo.py] *)
(* ================================================================== *)

(** [time.struct_time], the attributes [SystemTZ] reads. *)
Record struct_time := mkTm {
  tm_year : Z; tm_mon : Z; tm_mday : Z;
  tm_hour : Z; tm_min : Z; tm_sec : Z;
  tm_wday : Z; tm_yday : Z; tm_isdst : Z;
  tm_gmtoff : Z
}.

(** The C library's conversions for the configured zone.  [mktime] is given
    the six calendar fields and [tm_isdst]; it ignores [tm_wday] and
    [tm_yday]. *)
Class LibC := {
  localtime : Z -> struct_time;
  mktime : list Z -> Z -> Z
}.

Module SystemTZ.

(** [t[:6]] and [t[:8]] *)
Definition tm6 (t : struct_time) : list Z :=
  [tm_year t; tm_mon t; tm_mday t; tm_hour t; tm_min t; tm_sec t].

Definition tm8 (t : struct_time) : list Z :=
  tm6 t ++ [tm_wday t; tm_yday t].

(** [time.mktime(tuple)] on a tuple of nine ints *)
Definition time_mktime `{LibC} (t : list Z) : Z :=
  mktime (firstn 6 t) (nth 8 t 0).

(** [not x] as an int *)
Definition not_int (x : Z) : Z := if x =? 0 then 1 else 0.

(** [self._DateTime( *args, microsecond=..., tzinfo=self, fold=...)] *)
Definition make (args : list Z) (us fold_ : Z) : DateTime :=
  mkDateTime (nth 0 args 0) (nth 1 args 0) (nth 2 args 0)
             (nth 3 args 0) (nth 4 args 0) (nth 5 args 0) us fold_.

(** [SystemTZ.fromutc]; [has_fold] is [hasattr(self._DateTime, 'fold')]. *)
Definition fromutc `{LibC} (has_fold : bool) (dt : DateTime) : DateTime :=
  let secs := Calendar.timegm
                [year dt; month dt; day dt; hour dt; minute dt; second dt] in
  let t := localtime secs in
  let args := tm6 t in
  if negb has_fold then make args (microsecond dt) 0
  else if tm_isdst t <? 0 then make args (microsecond dt) 0
  else
    let secs0 := time_mktime (tm8 t ++ [not_int (tm_isdst t)]) in
    if secs0 >=? secs then make args (microsecond dt) 0
    else
      let t0 := localtime secs0 in
      make args (microsecond dt) (if tm_gmtoff t <? tm_gmtoff t0 then 1 else 0).

(** [SystemTZ._mktime]: the broken-down time and the seconds; the fraction
    [dt.microsecond / 1_000_000] is kept apart, as a count of microseconds.
    [has_fold] is [hasattr(dt, 'fold')]. *)
Definition _mktime `{LibC} (has_fold : bool) (dt : DateTime)
  : struct_time * (Z * Z) :=
  let secs := time_mktime
                [year dt; month dt; day dt; hour dt; minute dt; second dt; 0; 1; -1] in
  let t := localtime secs in
  if negb has_fold then (t, (secs, microsecond dt))
  else if tm_isdst t <? 0 then (t, (secs, microsecond dt))
  else
    let secs0 := time_mktime (tm8 t ++ [not_int (tm_isdst t)]) in
    if secs0 =? secs then (t, (secs, microsecond dt))
    else
      let t0 := localtime secs0 in
      if tm_gmtoff t =? tm_gmtoff t0 then (t, (secs, microsecond dt))
      else if xorb (tm_gmtoff t0 <? tm_gmtoff t) (negb (fold dt =? 0))
      then (t, (secs, microsecond dt))
      else (t0, (secs0, microsecond dt)).

(** [SystemTZ.utcoffset(dt)] for a datetime, in seconds *)
Definition utcoffset `{LibC} (has_fold : bool) (dt : DateTime) : Z :=
  tm_gmtoff (fst (_mktime has_fold dt)).

(** The instant, in seconds and microseconds, of a local datetime:
    [dt - dt.utcoffset()] read as UTC, which is what [astimezone(UTC)]
    computes. *)
Definition to_utc `{LibC} (has_fold : bool) (dt : DateTime) : Z * Z :=
  (Calendar.timegm (DT.timetuple6 dt) - utcoffset has_fold dt, microsecond dt).

(** The instant of a UTC datetime. *)
Definition instant (dt : DateTime) : Z * Z :=
  (Calendar.timegm (DT.timetuple6 dt), microsecond dt).

End SystemTZ.

(** What [SystemTZ] relies on in the C library at one instant: a local time
    that, if it is repeated, is told apart by [tm_isdst], as daylight saving
    time does. *)
Module Zone.
Import SystemTZ.

Record regular_at (libc : LibC) (s : Z) : Prop := {
  (** [tm_gmtoff] is how far the local fields are ahead of UTC. *)
  gmtoff_fields :
    Calendar.timegm (tm6 (localtime s)) = s + tm_gmtoff (localtime s);
  (** [localtime] knows whether daylight saving time is in effect. *)
  isdst_flag :
    tm_isdst (localtime s) = 0 \/ tm_isdst (localtime s) = 1;
  (** Given the flag the instant has, [mktime] returns the instant. *)
  mktime_flag :
    mktime (tm6 (localtime s)) (tm_isdst (localtime s)) = s;
  (** Given the other flag, [mktime] does not move on to a larger offset. *)
  mktime_other :
    s < mktime (tm6 (localtime s)) (not_int (tm_isdst (localtime s))) ->
    tm_gmtoff (localtime (mktime (tm6 (localtime s))
                                 (not_int (tm_isdst (localtime s)))))
    <= tm_gmtoff (localtime s)
}.

(** The instant [mktime] chooses, left to itself, for the local time of
    [s]. *)
Definition chosen `{LibC} (s : Z) : Z := mktime (tm6 (localtime s)) (-1).

End Zone.

(* ================================================================== *)
(** * The version deriver: [get_version_from_git] of [_get_version.py] *)
(* ================================================================== *)

(** [packaging.version.Version], the attributes read. *)
Record Version := mkVersion {
  epoch : Z;
  release : list Z;
  pre : option (string * Z);
  post : option Z;
  dev : option Z;
  local : option string
}.

(** What [packaging.version] provides. *)
Class Packaging := {
  (** [re.fullmatch(VERSION_PATTERN, s, re.VERBOSE)] finds a match *)
  is_version : string -> bool;
  (** [packaging.version.parse] *)
  parse_version : string -> Version
}.

(** The three [git] commands, as [subprocess.check_output(..., text=True)]
    returns their output or raises.  [describe] receives the value of
    [--candidates] and the [--match] patterns. *)
Class Git := {
  symbolic_ref : result string;
  show_ref : result string;
  describe : Z -> list string -> result string
}.

Module PyStr.

Definition is_space (c : ascii) : bool :=
  match c with
  | " "%char | "009"%char | "010"%char | "011"%char | "012"%char | "013"%char => true
  | _ => false
  end.

Fixpoint lstrip (s : string) : string :=
  match s with
  | String c s' => if is_space c then lstrip s' else s
  | EmptyString => EmptyString
  end.

(** [s.strip()] *)
Definition strip (s : string) : string :=
  string_rev (lstrip (string_rev (lstrip s))).

(** [s.split(sep, maxsplit=n)] for a one-character separator *)
Fixpoint split_max (sep : ascii) (n : nat) (s : string) {struct s} : list string :=
  match s with
  | EmptyString => [EmptyString]
  | String c s' =>
      match n with
      | O => [s]
      | S n' =>
          if Ascii.eqb c sep then EmptyString :: split_max sep n' s'
          else match split_max sep n s' with
               | [] => [String c EmptyString]
               | w :: ws => String c w :: ws
               end
      end
  end.

(** [s.rsplit(sep, maxsplit=n)] *)
Definition rsplit_max (sep : ascii) (n : nat) (s : string) : list string :=
  rev (map string_rev (split_max sep n (string_rev s))).

(** [s.splitlines()], for lines ended by a line feed *)
Definition splitlines (s : string) : list string :=
  match s with
  | EmptyString => []
  | _ => split "010" (removesuffix s (String "010" EmptyString))
  end.

(** [s.split()]: the words between runs of whitespace *)
Fixpoint words (s : string) : list string :=
  match s with
  | EmptyString => []
  | String c s' =>
      if is_space c then words s'
      else match s' with
           | EmptyString => [String c EmptyString]
           | String c' _ =>
               if is_space c' then String c EmptyString :: words s'
               else match words s' with
                    | [] => [String c EmptyString]
                    | w :: ws => String c w :: ws
                    end
           end
  end.

(** [c in s] for a character *)
Fixpoint has_char (c : ascii) (s : string) : bool :=
  match s with
  | EmptyString => false
  | String x s' => Ascii.eqb x c || has_char c s'
  end.

Definition is_digit (c : ascii) : bool :=
  (48 <=? Z.of_nat (nat_of_ascii c)) && (Z.of_nat (nat_of_ascii c) <=? 57).

Fixpoint digits_value (s : string) (acc : Z) : option Z :=
  match s with
  | EmptyString => Some acc
  | String c s' =>
      if is_digit c
      then digits_value s' (10 * acc + (Z.of_nat (nat_of_ascii c) - 48))
      else None
  end.

(** The digits of an integer literal: one digit or more, single underscores
    allowed between two digits.  [after_digit] tells that the character
    before is a digit. *)
Fixpoint literal_value (s : string) (acc : Z) (after_digit : bool) : option Z :=
  match s with
  | EmptyString => if after_digit then Some acc else None
  | String c s' =>
      if is_digit c
      then literal_value s' (10 * acc + (Z.of_nat (nat_of_ascii c) - 48)) true
      else if Ascii.eqb c "_" && after_digit
      then literal_value s' acc false
      else None
  end.

(** [int(s)] for a decimal literal with an optional sign, blanks around
    it allowed. *)
Definition int (s : string) : result Z :=
  let bad := Raise (ValueError "invalid literal for int() with base 10") in
  match strip s with
  | String "-" r =>
      match literal_value r 0 false with Some n => Ok (- n) | None => bad end
  | String "+" r =>
      match literal_value r 0 false with Some n => Ok n | None => bad end
  | d =>
      match literal_value d 0 false with Some n => Ok n | None => bad end
  end.

End PyStr.

Module Ver.

(** [Version('0.0')] *)
Definition zero : Version := mkVersion 0 [0; 0] None None None None.

(** [v.base_version] *)
Definition base_version (v : Version) : string :=
  (if epoch v =? 0 then "" else str_of_int (epoch v) +++ "!")
  +++ join "." (map str_of_int (release v)).

(** [str(v)], the normalized form *)
Definition str (v : Version) : string :=
  base_version v
  +++ match pre v with Some (l, n) => l +++ str_of_int n | None => "" end
  +++ match post v with Some n => ".post" +++ str_of_int n | None => "" end
  +++ match dev v with Some n => ".dev" +++ str_of_int n | None => "" end
  +++ match local v with Some l => "+" +++ l | None => "" end.

End Ver.

Definition trunk (head : string) : bool :=
  String.eqb head "main" || String.eqb head "master" || String.eqb head "develop".

(** The refs kept for [describe]: the third component of each ref name of
    [show-ref], when its last path segment is a version. *)
Definition retained_refs `{Packaging} (show_ref_out : string) : result (list string) :=
  let fix names (lines : list string) : result (list string) :=
    match lines with
    | [] => Ok []
    | line :: rest =>
        match PyStr.words line with
        | _ :: ref :: _ =>
            match PyStr.split_max "/" 2 ref with
            | _ :: _ :: name :: _ => (l <- names rest ;; Ok (name :: l))
            | _ => Raise IndexError
            end
        | _ => Raise IndexError
        end
    end in
  refs <- names (PyStr.splitlines show_ref_out) ;;
  Ok (filter (fun ref => is_version (last (PyStr.rsplit_max "/" 1 ref) "")) refs).

(** What [get_version_from_git] does with the answers of [git]. *)
Definition version_of_describe `{Packaging} (head describe_out : string)
  : result string :=
  let dirty := endswith describe_out "-dirty" in
  let pieces := split "/" (removesuffix describe_out "-dirty") in
  let local_ := removelast pieces in
  let describe_ := last pieces "" in
  let local_ := match local_ with
                | l0 :: rest =>
                    if String.eqb l0 "heads" || String.eqb l0 "tags" then rest else local_
                | [] => local_
                end in
  let local_ := if negb (trunk head) then head :: local_ else local_ in
  let parts := PyStr.rsplit_max "-" 2 describe_ in
  '(v, post_, local_) <-
    match parts with
    | [version_str; post_; commit] =>
        let '(v, local_) :=
          if is_version version_str then
            let v := parse_version version_str in
            (v, match local v with
                | Some l => local_ ++ [l]
                | None => local_
                end)
          else (Ver.zero, local_ ++ [version_str]) in
        post_ <- PyStr.int post_ ;;
        let local_ := if negb (post_ =? 0) || dirty then local_ ++ [commit] else local_ in
        Ok (v, post_, local_)
    | commit :: local_ =>
        Ok (Ver.zero, 0, ("g" +++ commit) :: local_)
    | [] => Raise NotImplementedError
    end ;;
  let local_ := if dirty then local_ ++ ["dirty"] else local_ in
  let parts :=
    [ Ver.base_version v;
      match pre v with Some (l, n) => l +++ str_of_int n | None => "" end;
      if negb (post_ =? 0) || dirty || (match post v with Some _ => true | None => false end)
      then ".post" +++ str_of_int ((match post v with Some n => n | None => 0 end) + post_)
      else "";
      match dev v with Some n => ".dev" +++ str_of_int n | None => "" end ] in
  Ok (join "" parts
      +++ match local_ with [] => "" | _ => "+" +++ join "." local_ end).

Definition get_version_from_git `{Packaging} `{Git} : result string :=
  head_out <- symbolic_ref ;;
  let head := PyStr.strip head_out in
  show_ref_out <- show_ref ;;
  refs <- retained_refs show_ref_out ;;
  describe_out <- describe (Z.of_nat (List.length refs)) refs ;;
  version_of_describe head (PyStr.strip describe_out).

(* ================================================================== *)
(** * The command line: [digest_args] of [do.py] *)
(* ================================================================== *)

(** What the command line takes from the interpreter and from the module's
    constants. *)
Class Interp := {
  (** [c.isidentifier()] for a string of one character *)
  isidentifier : ascii -> bool;
  (** [repr(s)] of a string *)
  repr : string -> string;
  (** [sys.argv[0]] and [sys.argv[1:]] *)
  argv0 : string;
  argv_rest : list string;
  PROJECT_NAME : string;
  PROJECT_VERSION : string
}.

Module Cli.

(** How a call of the wrapper ends: [SystemExit(code)] after the lines
    printed to standard output and to standard error, the call
    [f(remaining[0], *remaining[1:], verbosity=verbosity)], or an
    exception. *)
Inductive outcome :=
| Exit (code : Z) (out err : list string)
| Call (cmd : string) (args : list string) (verbosity : Z)
| Fail (e : exn).

(** Lines 407-412 on [args[0]]: what takes its place in [args]. *)
Definition expand `{Interp} (a : string) : result (list string) :=
  match a with
  | String "-" (String c1 (String c2 r)) =>
      if negb (Ascii.eqb c1 "-")
      then Ok [String "-" (String c1 EmptyString); String "-" (String c2 r)]
      else if PyStr.has_char "=" r
      then _ <- assert (isidentifier c2) ;; Ok (PyStr.split_max "=" 1 a)
      else Ok [a]
  | _ => Ok [a]
  end.

(** The text [help]. *)
Definition help_text `{Interp} (progname : option string) : string :=
  match progname with
  | Some p => if String.eqb p "" then argv0 else p
  | None => argv0
  end +++ " [-h|--help] [-V|--version] <command> [args...]".

(** Lines 438-443: after the loop. *)
Definition finish (help : string) (remaining : list string) (verbosity : Z)
  : outcome :=
  match remaining with
  | [] => Exit 2 [] ["ERROR: missing command"; help]
  | cmd :: args => Call cmd args verbosity
  end.

(** One round of the loop, lines 407-436, on [args = a :: rest];
    [continue] is the rest of the loop. *)
Definition round `{Interp} (help : string) (a : string)
    (rest remaining : list string) (verbosity : Z)
    (continue : list string -> list string -> Z -> option outcome)
  : option outcome :=
  match expand a with
  | Raise e => Some (Fail e)
  | Ok head =>
      match head ++ rest with
      | [] => Some (Fail AssertionError)
      | arg :: args =>
          if String.eqb arg "--help" || String.eqb arg "-h"
          then Some (Exit 0 [help] [])
          else if String.eqb arg "--version" || String.eqb arg "-V"
          then Some (Exit 0 [PROJECT_NAME +++ " " +++ PROJECT_VERSION] [])
          else if String.eqb arg "--verbose" || String.eqb arg "-v"
          then continue args remaining (verbosity + 1)
          else if String.eqb arg "--quiet" || String.eqb arg "-q"
          then continue args remaining (verbosity - 1)
          else if String.eqb arg "--"
          then Some (finish help (remaining ++ args) verbosity)
          else if startswith arg "-"
          then Some (Exit 2 [] ["ERROR: unrecognized option " +++ repr arg])
          else continue args (remaining ++ [arg]) verbosity
      end
  end.

(** The [while args:] loop, for at most [fuel] rounds. *)
Fixpoint parse `{Interp} (fuel : nat) (help : string)
    (args remaining : list string) (verbosity : Z) : option outcome :=
  match args with
  | [] => Some (finish help remaining verbosity)
  | a :: rest =>
      match fuel with
      | O => None
      | S fuel => round help a rest remaining verbosity (parse fuel help)
      end
  end.

(** A bound on the rounds of the loop: every round takes a word off [args]
    or puts a shorter one in the place of the first. *)
Definition rounds (args : list string) : nat :=
  fold_right (fun a n => S (String.length a + n))%nat 0%nat args.

(** The loop from a given state. *)
Definition run `{Interp} (help : string) (args remaining : list string)
    (verbosity : Z) : option outcome :=
  parse (rounds args) help args remaining verbosity.

(** The wrapper [_f] that [digest_args] returns. *)
Definition digest_args `{Interp} (args : option (list string))
    (progname : option string) : option outcome :=
  let args := match args with None => argv_rest | Some l => l end in
  run (help_text progname) args [] 0.

(** Vocabulary of the statements. *)

(** A word that is not an option. *)
Definition plain (a : string) : bool := negb (startswith a "-").

(** What a verbosity option adds. *)
Definition step (a : string) : Z :=
  if String.eqb a "--verbose" || String.eqb a "-v" then 1
  else if String.eqb a "--quiet" || String.eqb a "-q" then -1
  else 0.

(** A plain word or a verbosity option. *)
Definition passes (a : string) : bool := plain a || negb (step a =? 0).

Definition level (args : list string) : Z :=
  fold_right (fun a n => step a + n) 0 args.

(** The options of a cluster, one by one: [-abc] is [-a -b -c]. *)
Fixpoint letters (s : string) : list string :=
  match s with
  | EmptyString => []
  | String c s' => String "-" (String c EmptyString) :: letters s'
  end.

(** One option, not a cluster of one-letter options: [-x] or [--word]. *)
Definition single (a : string) : bool :=
  match a with
  | String "-" (String c r) => String.eqb r "" || Ascii.eqb c "-"
  | _ => false
  end.

(** An option the loop knows. *)
Definition known (a : string) : bool :=
  existsb (String.eqb a)
    ["--help"; "-h"; "--version"; "-V"; "--verbose"; "-v"; "--quiet"; "-q"; "--"].

End Cli.

(* ================================================================== *)
(** * Vocabulary of the statements about [make_zipinfo] *)
(* ================================================================== *)

Import Wheel.

Module Stamp.

(** The candidate timestamp of a call of [make_zipinfo]: the [datetime], in
    the builder's zone, of the instant the [dt] argument denotes.  A number
    denotes that many microseconds after the epoch and has to fall, in UTC,
    in the years a [datetime] has; an aware [datetime] denotes its instant;
    a naive one, the tuple one is built from and the default 1980-01-01
    denote the instant at which system local time shows their fields. *)
Inductive candidate `{Runtime} (self : WheelState) : dt_arg -> DateTime -> Prop :=
| of_number us :
    1 <= year (DT.of_micros us) <= 9999 ->
    candidate self (DtNumber us) (tz_fields (__tz self) us)
| of_aware us :
    candidate self (DtAware us) (tz_fields (__tz self) us)
| of_naive d :
    candidate self (DtNaive d) (tz_fields (__tz self) (local_instant d))
| of_tuple t d :
    DT.of_tuple t = Ok d ->
    candidate self (DtTuple t) (tz_fields (__tz self) (local_instant d))
| of_none :
    candidate self DtNone
      (tz_fields (__tz self) (local_instant (mkDateTime 1980 1 1 0 0 0 0 0))).

End Stamp.

(* ================================================================== *)
(** * Vocabulary of the statements about [_collect_tree_info] *)
(* ================================================================== *)

Module Tree.

(** [for x in l: r.append(f(x))], stopping at the first exception *)
Fixpoint mapM {A B} (f : A -> result B) (l : list A) : result (list B) :=
  match l with
  | [] => Ok []
  | x :: rest => y <- f x ;; ys <- mapM f rest ;; Ok (y :: ys)
  end.

Definition is_file (e : string * node) : bool :=
  match snd e with File _ _ _ _ _ => true | _ => false end.

(** The subdirectories the traversal keeps. *)
Definition is_subdir (e : string * node) : bool :=
  match snd e with
  | Dir _ _ => negb (String.eqb (fst e) "__pycache__")
  | _ => false
  end.

(** The entry a regular file gets, as lines 224-235 build it. *)
Definition entry_zinfo `{Runtime} (self : WheelState) (rel : PurePosixPath)
    (is_dist_info : bool) (e : string * node) : result file_entry :=
  match snd e with
  | File st_mode st_mtime x_ok w_ok content =>
      let arc_path := Path.joinpath rel (fst e) in
      zinfo <- (if is_dist_info
                then make_zipinfo self (PPath arc_path) (Some stat.S_IFREG)
                       DtNone true true true
                else make_zipinfo self (PPath arc_path) (Some st_mode)
                       (DtNumber st_mtime) true x_ok w_ok) ;;
      Ok (mkSrc (fst e) content, zinfo)
  | _ => Raise (OSError "not a regular file")
  end.

(** The later of two timestamps, as [if b > a: a = b] leaves [a]. *)
Definition later (a b : list Z) : list Z := if tuple_ltb a b then b else a.

Definition latest (base : list Z) (l : list (list Z)) : list Z :=
  fold_left later l base.

Definition file_key `{Runtime} (pz : file_entry) : string :=
  casefold (src_name (fst pz)).

Definition name_key `{Runtime} {A} (d : string * A) : string :=
  casefold (fst d).

(** What a call appends to [out_dirs] for the directory itself. *)
Definition own_entry (is_dist_info : bool) (rel : PurePosixPath)
    (tree_zinfo : ZipInfo) (dt : list Z) (files : list file_entry) : out_dir :=
  (if negb is_dist_info then inl (Zip.set_date_time tree_zinfo dt) else inr rel,
   files).

(** [r] with its list of entries put after [out_dirs]. *)
Definition after (out_dirs : list out_dir) (r : result (list Z * list out_dir))
  : result (list Z * list out_dir) :=
  '(dt, seg) <- r ;; Ok (dt, out_dirs ++ seg).

(** A call that only appends to [out_dirs]. *)
Definition appends `{Runtime} (self : WheelState) (t : node) : Prop :=
  forall rel out,
    _collect_tree_info self rel t out = after out (_collect_tree_info self rel t []).

(** The timestamps of the files archived under ordinary directories. *)
Fixpoint file_dates (l : list out_dir) : list (list Z) :=
  match l with
  | [] => []
  | (inl _, files) :: rest => map (fun pz => date_time (snd pz)) files ++ file_dates rest
  | (inr _, _) :: rest => file_dates rest
  end.

Definition is_meta (d : out_dir) : bool :=
  match fst d with inr _ => true | inl _ => false end.

(** [archived self floor rel t dates seg]: [seg] is the list of the
    directory [t] archived at the path [rel].  An ordinary directory comes
    first, under its own path, with its files in sorted order, each with the
    [ZipInfo] that lines 224-235 build for it; the lists of its
    subdirectories follow in sorted order, each for the path of that
    subdirectory.  [dates] are the timestamps of the files listed, those of
    the directory itself and those below it, and the directory carries the
    latest of them, or [floor] when there is none.  Of a directory of the
    metadata only its paths are listed, and no dates. *)
Inductive archived `{Runtime} (self : WheelState) (floor : list Z)
  : PurePosixPath -> node -> list (list Z) -> list out_dir -> Prop :=
| archived_dir rel m es z fs dates below :
    is_dist_info_path rel = false ->
    filename z = Path.as_posix rel +++ "/" ->
    mapM (entry_zinfo self rel false) (filter is_file es) = Ok fs ->
    archived_below self floor rel (sort_by name_key (filter is_subdir es))
      dates below ->
    date_time z =
      latest floor (map (fun pz => date_time (snd pz)) fs ++ dates) ->
    archived self floor rel (Dir m es)
      (map (fun pz => date_time (snd pz)) fs ++ dates)
      ((inl z, sort_by file_key fs) :: below)
| archived_meta rel t seg :
    is_dist_info_path rel = true ->
    forallb is_meta seg = true ->
    archived self floor rel t [] seg
with archived_below `{Runtime} (self : WheelState) (floor : list Z)
  : PurePosixPath -> list (string * node) -> list (list Z) -> list out_dir
    -> Prop :=
| below_nil rel : archived_below self floor rel [] [] []
| below_cons rel name t rest dates seg dates' seg' :
    archived self floor (Path.joinpath rel name) t dates seg ->
    archived_below self floor rel rest dates' seg' ->
    archived_below self floor rel ((name, t) :: rest)
      (dates ++ dates') (seg ++ seg').

(** What is known of the result of the call on one subdirectory. *)
Definition sub_ok `{Runtime} (self : WheelState) (floor : list Z)
    (rel : PurePosixPath) (e : string * node) (sub : list Z * list out_dir)
  : Prop :=
  exists dates,
    archived self floor (Path.joinpath rel (fst e)) (snd e) dates (snd sub)
    /\ fst sub = latest floor dates
    /\ Forall (tuple_le floor) dates.

(** The directory listed is a member of the archive, with the [ZipInfo]
    listed and no data; [_add_dir] leaves out the root, whose name is part
    of [./], and the directories of the metadata are written by [close]. *)
Definition written (self : WheelState) (d : out_dir) : Prop :=
  match fst d with
  | inl z => contains (filename z) "./" = true \/ In (z, []) (filelist self)
  | inr _ => True
  end.

(** The archive names of the directories listed and the timestamps they
    carry; a directory of the metadata carries none. *)
Definition dir_stamps (l : list out_dir) : list (string * list Z) :=
  map (fun d => match fst d with
                | inl z => (filename z, date_time z)
                | inr p => (Path.as_posix p, [])
                end) l.

(** The tree without its [__pycache__] directories. *)
Fixpoint prune (t : node) : node :=
  match t with
  | Dir m entries =>
      Dir m ((fix go (l : list (string * node)) : list (string * node) :=
                match l with
                | [] => []
                | (name, child) :: rest =>
                    match child with
                    | Dir _ _ =>
                        if String.eqb name "__pycache__" then go rest
                        else (name, prune child) :: go rest
                    | _ => (name, child) :: go rest
                    end
                end) entries)
  | _ => t
  end.

(** The tree with the modification time of every directory changed by [f]. *)
Fixpoint touch (f : Z -> Z) (t : node) : node :=
  match t with
  | Dir m entries => Dir (f m) (map (fun e => (fst e, touch f (snd e))) entries)
  | _ => t
  end.

(** [prune] on the entries of a directory. *)
Fixpoint prune_list (l : list (string * node)) : list (string * node) :=
  match l with
  | [] => []
  | (name, child) :: rest =>
      match child with
      | Dir _ _ =>
          if String.eqb name "__pycache__" then prune_list rest
          else (name, prune child) :: prune_list rest
      | _ => (name, child) :: prune_list rest
      end
  end.

(** The same tree seen another time: a directory may list its entries in
    another order and show another modification time. *)
Inductive reorder : node -> node -> Prop :=
| reorder_refl t : reorder t t
| reorder_trans t1 t2 t3 : reorder t1 t2 -> reorder t2 t3 -> reorder t1 t3
| reorder_listing m m' l l' : Permutation l l' -> reorder (Dir m l) (Dir m' l')
| reorder_child m before name t t' behind :
    reorder t t' ->
    reorder (Dir m (before ++ (name, t) :: behind))
            (Dir m (before ++ (name, t') :: behind)).

(** In every directory, no two files and no two subdirectories have names
    that case-fold to the same string. *)
Fixpoint fold_distinct `{Runtime} (t : node) : Prop :=
  match t with
  | Dir _ entries =>
      NoDup (map name_key (filter is_file entries))
      /\ NoDup (map name_key (filter is_subdir entries))
      /\ (fix all (l : list (string * node)) : Prop :=
            match l with
            | [] => True
            | (_, child) :: rest => fold_distinct child /\ all rest
            end) entries
  | _ => True
  end.

End Tree.

(* ================================================================== *)
(** * Vocabulary of the statements about the manifest *)
(* ================================================================== *)

Module Manifest.

(** [item] of [__record] is the record of the archive member [m]: it holds
    the bytes hashed, which are the member's data, and the member's size,
    under the member's archive path. *)
Definition recorded (m : member) (item : PurePosixPath * (Hash * Z)) : Prop :=
  snd item = (snd m, file_size (fst m))
  /\ file_size (fst m) = Z.of_nat (List.length (snd m))
  /\ (fst item = Path.of_str (filename (fst m))
      \/ filename (fst m) = Path.as_posix (fst item)).

(** Every item of [__record] is the record of a member written. *)
Definition record_ok (self : WheelState) : Prop :=
  match __record self with
  | Some record =>
      Forall (fun item => exists m, In m (filelist self) /\ recorded m item) record
  | None => True
  end.

(** A staged metadata file comes with the hash object that was fed its
    content. *)
Definition staged (item : PurePosixPath * option (bytes * Hash)) : Prop :=
  match snd item with
  | Some (content, hash) => hash = content
  | None => True
  end.

Definition staged_ok (self : WheelState) : Prop :=
  match __dist_info self with
  | Some d => Forall staged d
  | None => True
  end.

Definition newline : string := String "010" EmptyString.

(** The text of the manifest as the specification words it. *)

(** Backslash escaping: a double quote and a backslash are preceded by a
    backslash. *)
Fixpoint escaped (s : string) : string :=
  match s with
  | EmptyString => EmptyString
  | String c s' =>
      if Ascii.eqb c "034" || Ascii.eqb c "\"
      then String "\" (String c (escaped s'))
      else String c (escaped s')
  end.

(** A field of a comma-delimited row: one that holds a comma or a line feed
    is put between double quotes. *)
Definition field (s : string) : string :=
  if PyStr.has_char "," s || PyStr.has_char "010" s
  then String "034" (escaped s +++ String "034" EmptyString)
  else escaped s.

(** The row of an archived file: its path, the algorithm and the digest
    text, its size in bytes. *)
Definition file_row (path digest : string) (size : Z) : string :=
  field path +++ ",sha256=" +++ digest +++ "," +++ str_of_int size +++ newline.

(** A character that a field shows as it is, and a string of such
    characters. *)
Definition plain_char (c : ascii) : bool :=
  negb (Ascii.eqb c "," || Ascii.eqb c "010" || Ascii.eqb c "034" || Ascii.eqb c "\").

Fixpoint all_plain (s : string) : bool :=
  match s with
  | EmptyString => true
  | String c s' => plain_char c && all_plain s'
  end.

(** The row of the manifest itself: digest and size are empty. *)
Definition own_row (path : string) : string := field path +++ ",," +++ newline.

(** The value of a character of the URL-safe base64 alphabet (RFC 4648,
    section 5): [A-Z], [a-z], [0-9], [-] and [_]. *)
Definition b64_value (c : ascii) : option N :=
  let n := N_of_ascii c in
  if (65 <=? n)%N && (n <=? 90)%N then Some (n - 65)%N
  else if (97 <=? n)%N && (n <=? 122)%N then Some (n - 71)%N
  else if (48 <=? n)%N && (n <=? 57)%N then Some (n + 4)%N
  else if (n =? 45)%N then Some 62%N
  else if (n =? 95)%N then Some 63%N
  else None.

(** The bytes [n] holds in its lowest [8 * k] bits, the highest first. *)
Fixpoint bytes_of (k : nat) (n : N) : option bytes :=
  match k with
  | O => Some []
  | S k' =>
      match Byte.of_N ((n / 256 ^ N.of_nat k') mod 256)%N, bytes_of k' n with
      | Some b, Some bs => Some (b :: bs)
      | _, _ => None
      end
  end.

(** Decoding of base64url text without padding: four characters give three
    bytes; at the end three characters give two bytes and two characters
    one, the bits left over being zero. *)
Fixpoint b64url_decode (s : string) : option bytes :=
  match s with
  | EmptyString => Some []
  | String c1 (String c2 EmptyString) =>
      match b64_value c1, b64_value c2 with
      | Some v1, Some v2 =>
          let n := (v1 * 64 + v2)%N in
          if (n mod 16 =? 0)%N then bytes_of 1 (n / 16) else None
      | _, _ => None
      end
  | String c1 (String c2 (String c3 EmptyString)) =>
      match b64_value c1, b64_value c2, b64_value c3 with
      | Some v1, Some v2, Some v3 =>
          let n := (v1 * 4096 + v2 * 64 + v3)%N in
          if (n mod 4 =? 0)%N then bytes_of 2 (n / 4) else None
      | _, _, _ => None
      end
  | String c1 (String c2 (String c3 (String c4 rest))) =>
      match b64_value c1, b64_value c2, b64_value c3, b64_value c4 with
      | Some v1, Some v2, Some v3, Some v4 =>
          match bytes_of 3 (v1 * 262144 + v2 * 4096 + v3 * 64 + v4)%N,
                b64url_decode rest with
          | Some bs, Some more => Some (bs ++ more)
          | _, _ => None
          end
      | _, _, _, _ => None
      end
  | _ => None
  end.

End Manifest.

(* ================================================================== *)
(** * Environments on which the statements are exercised *)
(* ================================================================== *)

Module Env.

Definition ascii_lower (c : ascii) : ascii :=
  let n := nat_of_ascii c in
  if ((65 <=? n) && (n <=? 90))%nat then ascii_of_nat (n + 32) else c.

(** [str.casefold] on ASCII text *)
Fixpoint ascii_casefold (s : string) : string :=
  match s with
  | EmptyString => EmptyString
  | String c s' => String (ascii_lower c) (ascii_casefold s')
  end.

(** The zone UTC. *)
Definition utc : tzinfo := mkTz DT.of_micros.

(** A machine set to UTC.  The digest of this instance is a stand-in; no
    statement depends on which function it is. *)
Definition utc_runtime : Runtime :=
  {| casefold := ascii_casefold;
     sha256_digest := fun data => firstn 32 data;
     local_instant := DT.to_micros |}.

(** A fresh builder on that machine. *)
Definition wheel0 : WheelState := @Wheel.__init__ utc_runtime utc.

(** A directory holding [x], modified on 2000-01-01, [sub/y], modified on
    2002-01-01, and [other/z], modified on 2001-01-01.  The directories
    themselves were modified in 2020 and later. *)
Definition tree_a : node :=
  Dir 1700000000000000
    [("x", File (oct [1;0;0;6;4;4]) 946684800000000 false true []);
     ("sub", Dir 1600000000000000
               [("y", File (oct [1;0;0;6;4;4]) 1009843200000000 false true [])]);
     ("other", Dir 1650000000000000
                 [("z", File (oct [1;0;0;6;4;4]) 978307200000000 false true [])])].

(** A regular file, readable and writable, with the given modification time
    and content. *)
Definition plain (mtime : Z) (content : string) : node :=
  File (oct [1;0;0;6;4;4]) mtime false true (list_byte_of_string content).

(** A package directory as one enumeration lists it, and as another one
    does after the directory was touched. *)
Definition listing1 : node :=
  Dir 1700000000000000
    [("b.py", plain 946684800000000 "b");
     ("A.py", plain 978307200000000 "A");
     ("pkg", Dir 1600000000000000 [("y.py", plain 946684800000000 "y")])].

Definition listing2 : node :=
  Dir 1800000000000000
    [("pkg", Dir 1600000000000000 [("y.py", plain 946684800000000 "y")]);
     ("A.py", plain 978307200000000 "A");
     ("b.py", plain 946684800000000 "b")].

(** A directory of a case-sensitive file system holding the files [A] and
    [a], in the two orders its enumeration may take. *)
Definition upper_first : node :=
  Dir 0 [("A", plain 946684800000000 "upper"); ("a", plain 946684800000000 "lower")].

Definition lower_first : node :=
  Dir 0 [("a", plain 946684800000000 "lower"); ("A", plain 946684800000000 "upper")].

(** A stand-in for [packaging.version] that knows release versions, [1.2.3]
    with an optional leading [v], and their local part after a [+]: enough of
    the grammar for the examples of the specification. *)
Definition release_of (s : string) : option (list Z) :=
  let body := match s with String "v" r => r | _ => s end in
  let fix all (l : list string) : option (list Z) :=
    match l with
    | [] => Some []
    | EmptyString :: _ => None
    | x :: rest =>
        match PyStr.digits_value x 0, all rest with
        | Some n, Some ns => Some (n :: ns)
        | _, _ => None
        end
    end in
  all (split "." body).

Definition local_of (s : string) : option string :=
  match PyStr.split_max "+" 1 s with
  | [_; l] => Some l
  | _ => None
  end.

Definition release_only : Packaging :=
  {| is_version := fun s =>
       match release_of (hd EmptyString (PyStr.split_max "+" 1 s)), local_of s with
       | Some _, Some l => negb (String.eqb l EmptyString)
       | Some _, None => true
       | None, _ => false
       end;
     parse_version := fun s =>
       mkVersion 0 (match release_of (hd EmptyString (PyStr.split_max "+" 1 s)) with
                    | Some r => r
                    | None => []
                    end)
                 None None None (local_of s) |}.

(** [git describe] in a checkout where it answers [answer] when the ref
    [name] of [show-ref] is among the patterns it is given, and names the
    branch checked out, as [on_branch], when it is given no such pattern and
    so may name any ref. *)
Definition describes (name answer on_branch : string)
    (candidates : Z) (patterns : list string) : result string :=
  if existsb (String.eqb name) patterns && (0 <? candidates)
  then Ok (answer +++ Manifest.newline)
  else Ok (on_branch +++ Manifest.newline).

(** A checkout exactly at tag [v1.2.3], clean, on [main]. *)
Definition at_tag : Git :=
  {| symbolic_ref := Ok ("main" +++ Manifest.newline);
     show_ref := Ok ("2222222 refs/heads/main" +++ Manifest.newline
                     +++ "2222222 refs/tags/v1.2.3" +++ Manifest.newline);
     describe := describes "v1.2.3" "tags/v1.2.3-0-g2222222"
                   "heads/main-0-g2222222" |}.

(** A checkout exactly at tag [1.2.3+abc], clean, on [main]. *)
Definition at_local_tag : Git :=
  {| symbolic_ref := Ok ("main" +++ Manifest.newline);
     show_ref := Ok ("4444444 refs/heads/main" +++ Manifest.newline
                     +++ "4444444 refs/tags/1.2.3+abc" +++ Manifest.newline);
     describe := describes "1.2.3+abc" "tags/1.2.3+abc-0-g4444444"
                   "heads/main-0-g4444444" |}.

(** Three commits past tag [v1.2.3], on [feature-x], with uncommitted
    changes. *)
Definition drifted : Git :=
  {| symbolic_ref := Ok ("feature-x" +++ Manifest.newline);
     show_ref := Ok ("3333333 refs/heads/feature-x" +++ Manifest.newline
                     +++ "2222222 refs/tags/v1.2.3" +++ Manifest.newline);
     describe := describes "v1.2.3" "tags/v1.2.3-3-g3333333-dirty"
                   "heads/feature-x-0-g3333333-dirty" |}.

(** A checkout on [main] whose only ref named like a version, the tag
    [v0.9], is on a commit that is no ancestor of the one checked out:
    [describe] finds nothing to name among the patterns and, under
    [--always], prints the abbreviated commit id. *)
Definition off_history : Git :=
  {| symbolic_ref := Ok ("main" +++ Manifest.newline);
     show_ref := Ok ("abcdef0 refs/heads/main" +++ Manifest.newline
                     +++ "9999999 refs/tags/v0.9" +++ Manifest.newline);
     describe := describes "v0.9" "abcdef0" "heads/main-0-gabcdef0" |}.

(** The tree of a metadata directory. *)
Definition metadata : node :=
  Dir 1700000000000000
    [("WHEEL", plain 978307200000000 "Wheel-Version: 1.0");
     ("METADATA", plain 978307200000000 "Name: pkg")].

(** A build on that machine: the builder after the package was added, and
    after the metadata directory was added too, still open. *)
Definition packaged : WheelState :=
  match @add_tree utc_runtime wheel0 (PStr ".") listing1 with
  | Ok w => w
  | Raise _ => wheel0
  end.

Definition archive : WheelState :=
  match @add_tree utc_runtime packaged (PStr "pkg-1.0.dist-info") metadata with
  | Ok w => w
  | Raise _ => packaged
  end.

(** The name and the text of the member written last. *)
Definition last_member (w : WheelState) : string * string :=
  match rev (filelist w) with
  | (zinfo, data) :: _ => (filename zinfo, string_of_list_byte data)
  | [] => (EmptyString, EmptyString)
  end.

(** An interpreter for words in ASCII without quotes or backslashes: a
    letter or an underscore is an identifier, [repr] puts the word between
    single quotes. *)
Definition interp : Interp :=
  {| isidentifier := fun c =>
       let n := nat_of_ascii c in
       ((65 <=? n) && (n <=? 90) || (97 <=? n) && (n <=? 122) || (n =? 95))%nat;
     repr := fun s => "'" +++ s +++ "'";
     argv0 := "do.py";
     argv_rest := [];
     PROJECT_NAME := "passlib3";
     PROJECT_VERSION := "1.2.3" |}.

(** The names of the members of the archive a call leaves, in the order
    written. *)
Definition member_names (r : result WheelState) : list string :=
  match r with
  | Ok w => map (fun m : member => filename (fst m)) (filelist w)
  | Raise _ => []
  end.

(** The broken-down time of an instant in a zone that is [off] seconds ahead
    of UTC there; the weekday and the day of the year, which [SystemTZ] only
    hands back to [mktime], are not computed. *)
Definition tm_at (secs off isdst : Z) : struct_time :=
  match Calendar.gmtime (secs + off) with
  | [y; m; d; h; mi; s] => mkTm y m d h mi s 0 1 isdst off
  | _ => mkTm 1970 1 1 0 0 0 0 1 isdst off
  end.

(** 2021-10-31T01:00:00Z, when summer time ended in Europe/Warsaw. *)
Definition summer_end : Z := 1635642000.

(** A zone around the end of summer time: UTC+2 with [tm_isdst] set before
    [summer_end], UTC+1 after.  [mktime] reads the fields in the state it is
    asked for and, left to choose, as summer time where that is one. *)
Definition warsaw : LibC := {|
  localtime s := if s <? summer_end then tm_at s 7200 1 else tm_at s 3600 0;
  mktime f isdst :=
    let g := Calendar.timegm f in
    if isdst =? 0 then g - 3600
    else if 0 <? isdst then g - 7200
    else if g - 7200 <? summer_end then g - 7200 else g - 3600
|}.

(** 2014-10-25T22:00:00Z, when Europe/Moscow went from UTC+4 to UTC+3. *)
Definition offset_change : Z := 1414274400.

(** A zone that sets its clocks back without daylight saving time: UTC+4
    before [offset_change], UTC+3 after, [tm_isdst] 0 throughout.  There being
    no time with the flag set, [mktime] returns the earlier reading of the
    fields whatever flag it is given. *)
Definition moscow : LibC := {|
  localtime s := if s <? offset_change then tm_at s 14400 0 else tm_at s 10800 0;
  mktime f isdst :=
    let g := Calendar.timegm f in
    if g - 14400 <? offset_change then g - 14400 else g - 10800
|}.

(** The two instants shown as 02:30 on 31 October 2021 in [warsaw], and the
    second instant shown as 01:30 on 26 October 2014 in [moscow]. *)
Definition utc_0030 : DateTime := mkDateTime 2021 10 31 0 30 0 250000 0.
Definition utc_0130 : DateTime := mkDateTime 2021 10 31 1 30 0 250000 0.
Definition utc_2230 : DateTime := mkDateTime 2014 10 25 22 30 0 0 0.

End Env.

(* ================================================================== *)
(** * Properties *)
(* ================================================================== *)

Import Tree Manifest.

(** ** Sequencing *)

Lemma bind_Ok {A B} (r : result A) (k : A -> result B) (b : B) :
  bind r k = Ok b -> exists a, r = Ok a /\ k a = Ok b.
Proof.
  destruct r as [a|e]; simpl; intros E; [eauto | discriminate].
Qed.

Lemma assert_Ok (b : bool) (u : unit) : assert b = Ok u -> b = true.
Proof.
  destruct b; simpl; [reflexivity | discriminate].
Qed.

Ltac inv_bind H :=
  let a := fresh "a" in
  let E := fresh "E" in
  apply bind_Ok in H; destruct H as (a & E & H).

(** ** [make_zipinfo] *)

Lemma resolve_typ_isdir path typ k :
  resolve_typ path typ = Ok k ->
  stat.S_ISDIR k =
    stat.S_ISDIR (stat.S_IFMT (match typ with Some t => t | None => 0 end))
    || path_is_dir_str path.
Proof.
  unfold resolve_typ.
  set (t := stat.S_IFMT _).
  destruct (stat.S_ISDIR t) eqn:D; simpl.
  - destruct (t =? 0) eqn:Z0; intros [= <-]; auto.
    apply Z.eqb_eq in Z0. rewrite Z0 in D. discriminate.
  - destruct (path_is_dir_str path) eqn:P; simpl.
    + intros E. inv_bind E. injection E as <-. reflexivity.
    + destruct (t =? 0); intros [= <-]; auto.
Qed.

(** What a successful call of [make_zipinfo] returns. *)
Lemma make_zipinfo_Ok `{Runtime} self path typ dt tr ex wr z :
  make_zipinfo self path typ dt tr ex wr = Ok z ->
  exists k d0 d,
    resolve_typ path typ = Ok k /\
    (k = stat.S_IFDIR \/ k = stat.S_IFREG) /\
    Path.is_absolute (to_path path) = false /\
    localize self dt = Ok d0 /\
    clamp self d0 = Ok d /\
    (nth 0 (DT.timetuple6 d) 0 <? 1980) = false /\
    filename z = (if stat.S_ISDIR k then Path.as_posix (to_path path) +++ "/"
                  else Path.as_posix (to_path path)) /\
    date_time z = DT.timetuple6 d /\
    create_system z = 3 /\
    external_attr z =
      Z.lor (Z.shiftl (Z.lor k (mode_bits (stat.S_ISDIR k) tr ex wr)) 16)
            (dos_bits (stat.S_ISDIR k) wr (to_path path)) /\
    file_size z = 0.
Proof.
  unfold make_zipinfo. intros E.
  inv_bind E. rename a into k. rename E0 into Ek.
  inv_bind E. apply assert_Ok in E0. apply negb_true_iff in E0.
  inv_bind E. rename a0 into d0. rename E1 into Ed0.
  inv_bind E. rename a0 into d. rename E1 into Ed.
  inv_bind E. rename a0 into zi. rename E1 into Ezi.
  unfold Zip.new in Ezi.
  destruct (nth 0 (DT.timetuple6 d) 0 <? 1980) eqn:Y; [discriminate|].
  injection Ezi as <-.
  exists k, d0, d.
  destruct (k =? stat.S_IFDIR) eqn:KD.
  - apply Z.eqb_eq in KD. injection E as <-. simpl. repeat split; auto.
  - destruct (k =? stat.S_IFREG) eqn:KR; [|discriminate].
    apply Z.eqb_eq in KR. injection E as <-. simpl. repeat split; auto.
Qed.

Lemma existsb_dot_last (dirs : list string) (name : string) :
  existsb (fun part => startswith part ".") (dirs ++ [name]) =
  existsb (fun part => startswith part ".") dirs || startswith name ".".
Proof.
  rewrite existsb_app. simpl. now rewrite orb_false_r.
Qed.

Lemma existsb_negb_forallb {A} (f : A -> bool) (l : list A) :
  forallb (fun x => negb (f x)) l = true -> existsb f l = false.
Proof.
  induction l as [|x l IH]; simpl; [reflexivity|].
  intros E. apply andb_true_iff in E as [E1 E2].
  apply negb_true_iff in E1. now rewrite E1, IH.
Qed.

(** C8.  The permission and attribute encoding of [make_zipinfo].  For an
    entry it accepts, the external attributes are [(type | mode) << 16 | dos]
    where the mode is 0775 for an executable file and 0664 for another one,
    2775 for a directory and 2664 for one that is not traversable, with the
    write bits cleared when the entry is not writable; the DOS byte has 0x10
    for a directory, 0x1 when not writable and 0x2 exactly when a component
    of the archive path begins with a dot.  So [.secret] under any
    directories is hidden, and [visible.txt] under directories that do not
    begin with a dot is not. *)
Theorem make_zipinfo_permissions `{Runtime} self path typ dt
    traversable executable writable z :
  make_zipinfo self path typ dt traversable executable writable = Ok z ->
  let isdir :=
    stat.S_ISDIR (stat.S_IFMT (match typ with Some t => t | None => 0 end))
    || path_is_dir_str path in
  let hidden :=
    existsb (fun part => startswith part ".") (Path.parts (to_path path)) in
  let kind := if isdir then stat.S_IFDIR else stat.S_IFREG in
  let mode :=
    if isdir then
      match traversable, writable with
      | true, true => oct [2;7;7;5]
      | false, true => oct [2;6;6;4]
      | true, false => oct [2;5;5;5]
      | false, false => oct [2;4;4;4]
      end
    else
      match executable, writable with
      | true, true => oct [7;7;5]
      | false, true => oct [6;6;4]
      | true, false => oct [5;5;5]
      | false, false => oct [4;4;4]
      end in
  let dos :=
    (if isdir then 16 else 0) + (if writable then 0 else 1)
    + (if hidden then 2 else 0) in
  external_attr z = Z.lor (Z.shiftl (Z.lor kind mode) 16) dos
  /\ Z.shiftr (external_attr z) 16 = Z.lor kind mode
  /\ Z.land (external_attr z) 255 = dos
  /\ Z.testbit (external_attr z) 4 = isdir
  /\ Z.testbit (external_attr z) 0 = negb writable
  /\ Z.testbit (external_attr z) 1 = hidden
  /\ (forall dirs, to_path path = mkPath "" (dirs ++ [".secret"]) ->
      Z.testbit (external_attr z) 1 = true)
  /\ (forall dirs,
      forallb (fun d => negb (startswith d ".")) dirs = true ->
      to_path path = mkPath "" (dirs ++ ["visible.txt"]) ->
      Z.testbit (external_attr z) 1 = false).
Proof.
  intros E isdir hidden kind mode dos.
  apply make_zipinfo_Ok in E.
  destruct E as (k & d0 & d & Ek & Hk & _ & _ & _ & _ & _ & _ & _ & Hext & _).
  pose proof (resolve_typ_isdir _ _ _ Ek) as Hd. fold isdir in Hd.
  unfold dos_bits in Hext. fold hidden in Hext.
  assert (Hall :
    external_attr z = Z.lor (Z.shiftl (Z.lor kind mode) 16) dos
    /\ Z.shiftr (external_attr z) 16 = Z.lor kind mode
    /\ Z.land (external_attr z) 255 = dos
    /\ Z.testbit (external_attr z) 4 = isdir
    /\ Z.testbit (external_attr z) 0 = negb writable
    /\ Z.testbit (external_attr z) 1 = hidden).
  { rewrite Hext. subst kind mode dos.
    destruct Hk as [-> | ->]; rewrite <- Hd;
      destruct traversable, executable, writable, hidden;
      vm_compute; repeat split; reflexivity. }
  destruct Hall as (H1 & H2 & H3 & H4 & H5 & H6).
  repeat split; try assumption.
  - intros dirs P. rewrite H6. subst hidden. rewrite P.
    unfold Path.parts. simpl. rewrite existsb_dot_last. simpl.
    apply orb_true_r.
  - intros dirs F P. rewrite H6. subst hidden. rewrite P.
    unfold Path.parts. simpl. rewrite existsb_dot_last. simpl.
    rewrite orb_false_r. now apply existsb_negb_forallb.
Qed.

(** The statement at the file [pkg/.secret], read-only and not executable. *)
Lemma make_zipinfo_permissions_witness :
  exists z,
    @make_zipinfo Env.utc_runtime Env.wheel0 (PStr "pkg/.secret") None DtNone
      true false false = Ok z
    /\ external_attr z = Z.lor (Z.shiftl (Z.lor stat.S_IFREG (oct [4;4;4])) 16) 3
    /\ Z.testbit (external_attr z) 1 = true.
Proof.
  destruct (@make_zipinfo Env.utc_runtime Env.wheel0 (PStr "pkg/.secret") None
              DtNone true false false) as [z|e] eqn:E.
  - exists z. split; [reflexivity|].
    pose proof (@make_zipinfo_permissions Env.utc_runtime Env.wheel0
                  (PStr "pkg/.secret") None DtNone true false false z E) as P.
    cbv zeta in P. destruct P as (P1 & _ & _ & _ & _ & P6 & _).
    split; [exact P1 | exact P6].
  - exfalso. apply (f_equal is_ok) in E. vm_compute in E. discriminate E.
Defined.

Lemma tuple_ltb_head_ge (x y : Z) (a b : list Z) :
  tuple_ltb (x :: a) (y :: b) = false -> y <= x.
Proof.
  simpl. destruct (x =? y) eqn:E.
  - apply Z.eqb_eq in E. lia.
  - intros L. apply Z.ltb_ge in L. exact L.
Qed.

(** [make_zipinfo] once the entry kind, the path and the timestamp are
    accepted: what is left is the range check and the [ZipInfo]. *)
Lemma make_zipinfo_after_localize `{Runtime} self path typ dt tr ex wr k d0 :
  resolve_typ path typ = Ok k ->
  Path.is_absolute (to_path path) = false ->
  localize self dt = Ok d0 ->
  make_zipinfo self path typ dt tr ex wr =
  (d <- clamp self d0 ;;
   zinfo <- Zip.new (if stat.S_ISDIR k then Path.as_posix (to_path path) +++ "/"
                     else Path.as_posix (to_path path)) (DT.timetuple6 d) ;;
   let external :=
     Z.lor (Z.shiftl (Z.lor k (mode_bits (stat.S_ISDIR k) tr ex wr)) 16)
           (dos_bits (stat.S_ISDIR k) wr (to_path path)) in
   if k =? stat.S_IFDIR then
     Ok (mkZipInfo (filename zinfo) (date_time zinfo) 3 external (Some 0)
           (compress_type zinfo) (_compresslevel zinfo) (file_size zinfo))
   else if k =? stat.S_IFREG then
     Ok (mkZipInfo (filename zinfo) (date_time zinfo) 3 external (CRC zinfo)
           (compression self) (Some (compresslevel self)) (file_size zinfo))
   else Raise (TypeError "'NotImplementedType' object is not callable")).
Proof.
  intros Ek Ea Ed. unfold make_zipinfo. rewrite Ek. simpl.
  rewrite Ea. simpl. rewrite Ed. reflexivity.
Qed.

(** A datetime within the bounds, or a bound, gives a [ZipInfo] carrying its
    first six fields. *)
Lemma make_zipinfo_with `{Runtime} self path typ dt tr ex wr k d0 d :
  resolve_typ path typ = Ok k ->
  (k = stat.S_IFDIR \/ k = stat.S_IFREG) ->
  Path.is_absolute (to_path path) = false ->
  localize self dt = Ok d0 ->
  clamp self d0 = Ok d ->
  1980 <= year d ->
  exists z, make_zipinfo self path typ dt tr ex wr = Ok z
            /\ date_time z = DT.timetuple6 d.
Proof.
  intros Ek Hk Ea Ed Ec Hy.
  rewrite (make_zipinfo_after_localize _ _ _ _ _ _ _ _ _ Ek Ea Ed).
  rewrite Ec. simpl. unfold Zip.new. simpl.
  destruct (year d <? 1980) eqn:Y; [apply Z.ltb_lt in Y; lia|].
  simpl. destruct Hk as [-> | ->]; simpl; eexists; split; reflexivity.
Qed.

(** The year of an instant, from the day count. *)
Lemma year_of_micros us :
  year (DT.of_micros us) =
  fst (fst (Calendar.civil_from_days (us / 1000000 / 86400))).
Proof.
  unfold DT.of_micros, Calendar.gmtime.
  destruct (Calendar.civil_from_days _) as [[y m] d]. reflexivity.
Qed.

Lemma civil_year_range n :
  let y := fst (fst (Calendar.civil_from_days n)) in
  400 * ((n + 719468) / 146097) <= y <= 400 * ((n + 719468) / 146097) + 400.
Proof.
  unfold Calendar.civil_from_days. cbv zeta.
  set (era := (n + 719468) / 146097).
  set (doe := n + 719468 - era * 146097).
  set (yoe := (doe - doe / 1460 + doe / 36524 - doe / 146096) / 365).
  assert (Hdoe : 0 <= doe < 146097)
    by (subst doe era; Z.div_mod_to_equations; lia).
  assert (Hyoe : 0 <= yoe <= 399)
    by (subst yoe; Z.div_mod_to_equations; lia).
  cbn [fst]. destruct (_ <=? 2); lia.
Qed.

(** A number in the years 1 to 9999 is one [fromtimestamp] takes. *)
Lemma fromtimestamp_utc_Ok us :
  1 <= year (DT.of_micros us) <= 9999 -> fromtimestamp_utc us = Ok us.
Proof.
  intros Y. unfold fromtimestamp_utc. cbv zeta.
  pose proof (civil_year_range (us / 1000000 / 86400)) as R. cbv zeta in R.
  rewrite <- year_of_micros in R.
  assert (B : - 2 ^ 63 <= us / 1000000 < 2 ^ 63).
  { change (2 ^ 63) with 9223372036854775808.
    revert R. generalize (us / 1000000). intros secs R.
    Z.div_mod_to_equations. lia. }
  assert (T1 : (us / 1000000 <? - 2 ^ 63) = false) by (apply Z.ltb_ge; lia).
  assert (T2 : (2 ^ 63 <=? us / 1000000) = false) by (apply Z.leb_gt; lia).
  assert (T3 : (year (DT.of_micros us) - 1900 <? - 2 ^ 31) = false)
    by (apply Z.ltb_ge; lia).
  assert (T4 : (2 ^ 31 <=? year (DT.of_micros us) - 1900) = false)
    by (apply Z.leb_gt; lia).
  assert (T5 : (year (DT.of_micros us) <? 1) = false) by (apply Z.ltb_ge; lia).
  assert (T6 : (9999 <? year (DT.of_micros us)) = false) by (apply Z.ltb_ge; lia).
  rewrite T1, T2, T3, T4, T5, T6. reflexivity.
Qed.

(** A number outside these years is one it refuses. *)
Lemma fromtimestamp_utc_Raise us :
  year (DT.of_micros us) < 1 \/ 9999 < year (DT.of_micros us) ->
  exists e, fromtimestamp_utc us = Raise e.
Proof.
  intros Y. unfold fromtimestamp_utc. cbv zeta.
  destruct (_ || _); [eauto|]. destruct (_ || _); [eauto|].
  destruct (year (DT.of_micros us) <? 1) eqn:B5; [cbn [orb]; eauto|].
  destruct (9999 <? year (DT.of_micros us)) eqn:B6; [cbn [orb]; eauto|].
  apply Z.ltb_ge in B5, B6. lia.
Qed.

Lemma in_years_Ok d : 1 <= year d <= 9999 -> in_years d = Ok d.
Proof.
  intros Y. unfold in_years.
  destruct (1 <=? year d) eqn:A; [|apply Z.leb_gt in A; lia].
  destruct (year d <=? 9999) eqn:B; [|apply Z.leb_gt in B; lia].
  reflexivity.
Qed.

Lemma in_years_inv d d' : in_years d = Ok d' -> d' = d /\ 1 <= year d <= 9999.
Proof.
  unfold in_years.
  destruct (1 <=? year d) eqn:A; [|discriminate].
  destruct (year d <=? 9999) eqn:B; [|discriminate].
  apply Z.leb_le in A, B. intros [= <-]. split; [reflexivity | lia].
Qed.

(** Lines 163-168 compute the candidate timestamp, if it is one a
    [datetime] can hold. *)
Lemma localize_candidate `{Runtime} self dt d0 :
  Stamp.candidate self dt d0 -> localize self dt = in_years d0.
Proof.
  intros C. destruct C as [us Hus | us | d | t d Ht | ]; cbn [localize].
  - now rewrite (fromtimestamp_utc_Ok us Hus).
  - reflexivity.
  - reflexivity.
  - now rewrite Ht.
  - reflexivity.
Qed.




(** ** The traversal *)

(** Induction on a tree, with the property known below every entry. *)
Lemma node_forall_ind (P : node -> Prop) :
  P Symlink ->
  (forall st_mode st_mtime x_ok w_ok content,
      P (File st_mode st_mtime x_ok w_ok content)) ->
  (forall m entries, Forall (fun e => P (snd e)) entries -> P (Dir m entries)) ->
  P Special ->
  forall t, P t.
Proof.
  intros HS HF HD HSp. fix IH 1. intros [ | a b c d e | m es | ].
  - exact HS.
  - apply HF.
  - apply HD. induction es as [|[n c] r IHr]; constructor.
    + simpl. apply IH.
    + exact IHr.
  - exact HSp.
Qed.

Lemma set_date_time_same (z : ZipInfo) : Zip.set_date_time z (date_time z) = z.
Proof. destruct z; reflexivity. Qed.

Lemma set_date_time_twice (z : ZipInfo) (a b : list Z) :
  Zip.set_date_time (Zip.set_date_time z a) b = Zip.set_date_time z b.
Proof. reflexivity. Qed.

Lemma date_time_set (z : ZipInfo) (a : list Z) :
  date_time (Zip.set_date_time z a) = a.
Proof. reflexivity. Qed.

Lemma bind_assoc {A B C} (r : result A) (f : A -> result B) (g : B -> result C) :
  bind (bind r f) g = bind r (fun a => bind (f a) g).
Proof. destruct r; reflexivity. Qed.

Lemma bind_ext {A B} (r : result A) (f g : A -> result B) :
  (forall a, f a = g a) -> bind r f = bind r g.
Proof. intros E. destruct r; simpl; [apply E | reflexivity]. Qed.

(** The loop over [iterdir()]: the files get their entries in the order
    listed, the directories kept are the subdirectories other than
    [__pycache__], and [tree_zinfo] ends with the latest file timestamp. *)
Lemma scan_entries_spec `{Runtime} self recurse rel idi es :
  forall dirs files tz,
  scan_entries self recurse rel idi es dirs files tz =
  (fs <- mapM (entry_zinfo self rel idi) (filter is_file es) ;;
   Ok (dirs ++ map (fun e => (fst e, recurse (snd e))) (filter is_subdir es),
       files ++ fs,
       Zip.set_date_time tz
         (if idi then date_time tz
          else latest (date_time tz) (map (fun pz => date_time (snd pz)) fs)))).
Proof.
  induction es as [|[name child] es IH]; intros dirs files tz.
  - simpl. rewrite !app_nil_r. destruct idi; simpl; now rewrite set_date_time_same.
  - destruct child as [ | st_mode st_mtime x_ok w_ok content | m sub | ].
    + simpl. apply IH.
    + cbn [scan_entries filter is_file snd mapM].
      unfold entry_zinfo at 1. cbn [snd fst].
      destruct idi.
      * rewrite !bind_assoc. apply bind_ext. intros z. simpl.
        rewrite IH. rewrite !bind_assoc. apply bind_ext. intros fs. simpl.
        now rewrite <- app_assoc.
      * rewrite !bind_assoc. apply bind_ext. intros z. simpl.
        rewrite IH. rewrite !bind_assoc. apply bind_ext. intros fs. simpl.
        rewrite <- app_assoc. simpl. unfold latest, later. simpl.
        destruct (tuple_ltb (date_time tz) (date_time z)); reflexivity.
    + cbn [scan_entries filter is_file is_subdir snd fst].
      destruct (negb (String.eqb name "__pycache__")).
      * rewrite IH. apply bind_ext. intros fs. simpl. now rewrite <- app_assoc.
      * apply IH.
    + simpl. apply IH.
Qed.

Lemma store_date_time_at (outs : list out_dir) z files rest dt :
  store_date_time (List.length outs) dt (outs ++ (inl z, files) :: rest) =
  outs ++ (inl (Zip.set_date_time z dt), files) :: rest.
Proof.
  induction outs as [|o outs IH]; simpl; [reflexivity|]. now rewrite IH.
Qed.

Lemma insert_by_map {A B} (key : B -> string) (g : A -> B) (x : A) (l : list A) :
  insert_by key (g x) (map g l) = map g (insert_by (fun a => key (g a)) x l).
Proof.
  induction l as [|y l IH]; simpl; [reflexivity|].
  destruct (String.ltb (key (g y)) (key (g x))); simpl; [now rewrite IH | reflexivity].
Qed.

(** Sorting by a key that a map keeps commutes with the map. *)
Lemma sort_by_map {A B} (key : B -> string) (g : A -> B) (l : list A) :
  sort_by key (map g l) = map g (sort_by (fun a => key (g a)) l).
Proof.
  induction l as [|x l IH]; [reflexivity|].
  unfold sort_by in *. cbn [map fold_right]. rewrite IH. apply insert_by_map.
Qed.

Lemma collect_unfold `{Runtime} self rel m entries out_dirs :
  _collect_tree_info self rel (Dir m entries) out_dirs =
  (tree_zinfo <- make_zipinfo self (PPath rel) (Some stat.S_IFDIR) DtNone
                   true true true ;;
   let is_dist_info := is_dist_info_path rel in
   '(dirs, files, tree_zinfo) <-
     scan_entries self
       (fun child rel' out => _collect_tree_info self rel' child out)
       rel is_dist_info entries [] [] tree_zinfo ;;
   let files := sort_by (fun pz => casefold (src_name (fst pz))) files in
   let idx := List.length out_dirs in
   let out_dirs :=
     out_dirs ++ [(if negb is_dist_info then inl tree_zinfo else inr rel, files)] in
   let dirs := sort_by (fun d => casefold (fst d)) dirs in
   '(tree_zinfo, out_dirs) <-
     visit_dirs rel is_dist_info idx dirs tree_zinfo out_dirs ;;
   Ok (date_time tree_zinfo, out_dirs)).
Proof. reflexivity. Qed.

Lemma latest_cons (a b : list Z) (l : list (list Z)) :
  latest a (b :: l) = latest (later a b) l.
Proof. reflexivity. Qed.

Lemma later_lt (a b : list Z) : tuple_ltb a b = true -> later a b = b.
Proof. unfold later. now intros ->. Qed.

Lemma later_ge (a b : list Z) : tuple_ltb a b = false -> later a b = a.
Proof. unfold later. now intros ->. Qed.

(** The loop over the sorted subdirectories, when each call only appends:
    the calls run in order, each from an empty list, [tree_zinfo] and the
    entry it shares with [out_dirs] end with the latest timestamp
    returned. *)
Lemma visit_dirs_spec `{Runtime} self rel idi (outs : list out_dir) files children :
  Forall (fun e => appends self (snd e)) children ->
  forall tz segs,
  visit_dirs rel idi (List.length outs)
    (map (fun e => (fst e, fun rel' out => _collect_tree_info self rel' (snd e) out))
         children)
    tz (outs ++ own_entry idi rel tz (date_time tz) files :: segs) =
  (subs <- mapM (fun e => _collect_tree_info self (Path.joinpath rel (fst e)) (snd e) [])
             children ;;
   let dt := if idi then date_time tz else latest (date_time tz) (map fst subs) in
   Ok (Zip.set_date_time tz dt,
       outs ++ own_entry idi rel tz dt files :: segs ++ List.concat (map snd subs))).
Proof.
  induction 1 as [|[name child] children Hc Hcs IH]; intros tz segs.
  - simpl. rewrite app_nil_r. destruct idi; simpl; now rewrite set_date_time_same.
  - cbn [map visit_dirs fst snd mapM].
    rewrite (Hc (Path.joinpath rel name)). unfold after.
    rewrite !bind_assoc. apply bind_ext. intros [dt seg]. cbn [bind].
    assert (Eapp : forall z : out_dir,
               (outs ++ z :: segs) ++ seg = outs ++ z :: (segs ++ seg)).
    { intros z. now rewrite <- app_assoc. }
    destruct idi; cbn [negb andb].
    + rewrite Eapp. rewrite IH. rewrite !bind_assoc. apply bind_ext. intros subs.
      cbn [bind map List.concat fst snd]. now rewrite app_assoc.
    + destruct (tuple_ltb (date_time tz) dt) eqn:L.
      * unfold own_entry at 1. cbn [negb]. rewrite Eapp. rewrite store_date_time_at.
        rewrite set_date_time_twice.
        change (inl (Zip.set_date_time tz dt), files)
          with (own_entry false rel (Zip.set_date_time tz dt)
                  (date_time (Zip.set_date_time tz dt)) files).
        rewrite IH. rewrite !bind_assoc. apply bind_ext. intros subs.
        cbn [bind map List.concat fst snd]. rewrite latest_cons, (later_lt _ _ L).
        rewrite date_time_set.
        unfold own_entry. cbn [negb]. rewrite !set_date_time_twice.
        now rewrite app_assoc.
      * rewrite Eapp. rewrite IH. rewrite !bind_assoc. apply bind_ext. intros subs.
        cbn [bind map List.concat fst snd]. rewrite latest_cons, (later_ge _ _ L).
        now rewrite app_assoc.
Qed.

Lemma Forall_filter {A} (P : A -> Prop) (f : A -> bool) (l : list A) :
  Forall P l -> Forall P (filter f l).
Proof.
  induction 1 as [|x l Hx Hl IH]; simpl; [constructor|].
  destruct (f x); [constructor; assumption | assumption].
Qed.

Lemma insert_by_In {A} (key : A -> string) (x y : A) (l : list A) :
  In y (insert_by key x l) <-> y = x \/ In y l.
Proof.
  induction l as [|z l IH]; simpl; [intuition|].
  destruct (String.ltb (key z) (key x)); simpl; rewrite ?IH; intuition.
Qed.

Lemma sort_by_In {A} (key : A -> string) (y : A) (l : list A) :
  In y (sort_by key l) <-> In y l.
Proof.
  induction l as [|x l IH]; simpl; [reflexivity|].
  unfold sort_by in *. rewrite insert_by_In, IH. intuition.
Qed.

Lemma Forall_sort_by {A} (P : A -> Prop) (key : A -> string) (l : list A) :
  Forall P l -> Forall P (sort_by key l).
Proof.
  rewrite !Forall_forall. intros F y Hy. apply F. now apply sort_by_In in Hy.
Qed.

(** What a call on a directory computes, when the calls below it only
    append: the directory's own [ZipInfo], the entries of its files in the
    order listed, then the calls on its subdirectories in sorted order.  The
    entry appended for the directory carries the timestamp returned. *)
Lemma collect_Dir `{Runtime} self rel m es outs :
  Forall (fun e => appends self (snd e)) es ->
  _collect_tree_info self rel (Dir m es) outs =
  (tz0 <- make_zipinfo self (PPath rel) (Some stat.S_IFDIR) DtNone true true true ;;
   fs <- mapM (entry_zinfo self rel (is_dist_info_path rel)) (filter is_file es) ;;
   subs <- mapM (fun e => _collect_tree_info self (Path.joinpath rel (fst e)) (snd e) [])
             (sort_by name_key (filter is_subdir es)) ;;
   let dt :=
     if is_dist_info_path rel then date_time tz0
     else latest (latest (date_time tz0) (map (fun pz => date_time (snd pz)) fs))
                 (map fst subs) in
   Ok (dt, outs ++ own_entry (is_dist_info_path rel) rel tz0 dt (sort_by file_key fs)
                :: List.concat (map snd subs))).
Proof.
  intros F. rewrite collect_unfold.
  apply bind_ext. intros tz0. cbv zeta.
  rewrite scan_entries_spec. rewrite !bind_assoc. apply bind_ext. intros fs.
  cbn [bind app].
  rewrite (sort_by_map (fun d : string * walker => casefold (fst d))
             (fun e : string * node =>
                (fst e, (fun child rel' out => _collect_tree_info self rel' child out) (snd e)))).
  cbn [fst].
  set (tz1 := Zip.set_date_time tz0 _).
  pose proof (visit_dirs_spec self rel (is_dist_info_path rel) outs
                (sort_by (fun pz => casefold (src_name (fst pz))) fs)
                (sort_by (fun a : string * node => casefold (fst a)) (filter is_subdir es))
                (Forall_sort_by _ _ _ (Forall_filter _ _ _ F)) tz1 []) as V.
  unfold own_entry at 1 in V. rewrite set_date_time_same in V.
  cbn [app] in V. cbv beta.
  change (fun d : string * node => casefold (fst d)) with (@name_key _ node).
  change (fun a : string * node => casefold (fst a)) with (@name_key _ node) in V.
  match type of V with
  | _ = ?rhs => match goal with
                | |- bind ?x _ = _ => replace x with rhs by (symmetry; exact V)
                end
  end.
  clear V.
  rewrite !bind_assoc. apply bind_ext. intros subs. cbn [bind app].
  subst tz1. rewrite !date_time_set. unfold own_entry.
  rewrite !set_date_time_twice.
  destruct (is_dist_info_path rel); reflexivity.
Qed.

(** Every call only appends to [out_dirs]. *)
Lemma collect_appends `{Runtime} self t : appends self t.
Proof.
  induction t as [ | a b c d e | m es IH | ] using node_forall_ind;
    intros rel out; try reflexivity.
  rewrite (collect_Dir self rel m es out IH), (collect_Dir self rel m es [] IH).
  unfold after. rewrite !bind_assoc. apply bind_ext. intros tz0.
  rewrite !bind_assoc. apply bind_ext. intros fs.
  rewrite !bind_assoc. apply bind_ext. intros subs. reflexivity.
Qed.

Lemma all_append `{Runtime} self (es : list (string * node)) :
  Forall (fun e => appends self (snd e)) es.
Proof.
  apply Forall_forall. intros e _. apply collect_appends.
Qed.

(** The result of a top-level call, from an empty [out_dirs]. *)
Lemma collect_Dir_nil `{Runtime} self rel m es :
  _collect_tree_info self rel (Dir m es) [] =
  (tz0 <- make_zipinfo self (PPath rel) (Some stat.S_IFDIR) DtNone true true true ;;
   fs <- mapM (entry_zinfo self rel (is_dist_info_path rel)) (filter is_file es) ;;
   subs <- mapM (fun e => _collect_tree_info self (Path.joinpath rel (fst e)) (snd e) [])
             (sort_by name_key (filter is_subdir es)) ;;
   let dt :=
     if is_dist_info_path rel then date_time tz0
     else latest (latest (date_time tz0) (map (fun pz => date_time (snd pz)) fs))
                 (map fst subs) in
   Ok (dt, own_entry (is_dist_info_path rel) rel tz0 dt (sort_by file_key fs)
             :: List.concat (map snd subs))).
Proof.
  apply (collect_Dir self rel m es [] (all_append self es)).
Qed.

(** ** [__pycache__] *)

Lemma prune_Dir m es : prune (Dir m es) = Dir m (prune_list es).
Proof.
  reflexivity.
Qed.

Lemma prune_list_files es : filter is_file (prune_list es) = filter is_file es.
Proof.
  induction es as [|[n c] es IH]; [reflexivity|].
  destruct c; simpl; rewrite <- ?IH; try reflexivity.
  destruct (String.eqb n "__pycache__"); simpl; now rewrite ?IH.
Qed.

Lemma prune_list_subdirs es :
  filter is_subdir (prune_list es) =
  map (fun e => (fst e, prune (snd e))) (filter is_subdir es).
Proof.
  induction es as [|[n c] es IH]; [reflexivity|].
  destruct c as [ | a b c d e | m sub | ]; simpl; rewrite <- ?IH; try reflexivity.
  unfold is_subdir at 2. cbn [fst snd].
  destruct (String.eqb n "__pycache__") eqn:E; cbn [negb].
  - apply IH.
  - cbn [filter]. unfold is_subdir at 1. cbn [fst snd prune]. rewrite E.
    cbn [negb map fst snd]. rewrite IH. reflexivity.
Qed.

Lemma mapM_map {A B C} (f : B -> result C) (g : A -> B) (l : list A) :
  mapM f (map g l) = mapM (fun a => f (g a)) l.
Proof.
  induction l as [|x l IH]; simpl; [reflexivity|]. now rewrite IH.
Qed.

Lemma mapM_ext_in {A B} (f g : A -> result B) (l : list A) :
  (forall x, In x l -> f x = g x) -> mapM f l = mapM g l.
Proof.
  induction l as [|x l IH]; intros E; simpl; [reflexivity|].
  rewrite (E x (or_introl eq_refl)).
  rewrite IH; [reflexivity|]. intros y Hy. apply E. now right.
Qed.

Lemma filter_app_skip {A} (f : A -> bool) (l1 l2 : list A) (x : A) :
  f x = false -> filter f (l1 ++ x :: l2) = filter f (l1 ++ l2).
Proof.
  intros E. rewrite !filter_app. simpl. now rewrite E.
Qed.

Lemma collect_prune `{Runtime} self t :
  forall rel outs,
    _collect_tree_info self rel (prune t) outs = _collect_tree_info self rel t outs.
Proof.
  induction t as [ | a b c d e | m es IH | ] using node_forall_ind;
    intros rel outs; try reflexivity.
  rewrite prune_Dir.
  rewrite (collect_Dir self rel m _ outs (all_append self _)).
  rewrite (collect_Dir self rel m es outs (all_append self _)).
  rewrite prune_list_files, prune_list_subdirs.
  apply bind_ext. intros tz0. apply bind_ext. intros fs.
  rewrite (sort_by_map name_key (fun e : string * node => (fst e, prune (snd e)))).
  rewrite mapM_map. cbn [fst snd].
  rewrite (mapM_ext_in _
             (fun e => _collect_tree_info self (Path.joinpath rel (fst e)) (snd e) [])).
  - reflexivity.
  - intros e He. apply sort_by_In in He. apply filter_In in He as [He _].
    rewrite Forall_forall in IH. apply (IH e He).
Qed.

(** C10.  A directory named [__pycache__] met during the traversal is
    skipped entirely: a listing with such a directory, whatever it holds,
    gives what the listing without it gives; so does the tree with these
    directories removed at every level, for the traversal and for
    [add_tree], hence for the archive members, the manifest records and the
    directory timestamps. *)
Theorem pycache_skipped `{Runtime} self root rel t outs m m' before sub behind :
  _collect_tree_info self rel
    (Dir m (before ++ ("__pycache__", Dir m' sub) :: behind)) outs
  = _collect_tree_info self rel (Dir m (before ++ behind)) outs
  /\ _collect_tree_info self rel (prune t) outs = _collect_tree_info self rel t outs
  /\ add_tree self root (prune t) = add_tree self root t.
Proof.
  split; [|split].
  - rewrite (collect_Dir self rel m _ outs (all_append self _)).
    rewrite (collect_Dir self rel m (before ++ behind) outs (all_append self _)).
    rewrite !(filter_app_skip _ before behind ("__pycache__", Dir m' sub));
      reflexivity.
  - apply collect_prune.
  - unfold add_tree. now rewrite collect_prune.
Qed.

(** ** The order on timestamps *)

Lemma tuple_ltb_irrefl (a : list Z) : tuple_ltb a a = false.
Proof.
  induction a as [|x a IH]; simpl; [reflexivity|]. now rewrite Z.eqb_refl.
Qed.

Lemma tuple_ltb_trans (a b c : list Z) :
  tuple_ltb a b = true -> tuple_ltb b c = true -> tuple_ltb a c = true.
Proof.
  revert b c. induction a as [|x a IH]; intros [|y b] [|z c]; simpl;
    try discriminate; try reflexivity.
  destruct (x =? y) eqn:Exy, (y =? z) eqn:Eyz, (x =? z) eqn:Exz;
    rewrite ?Z.eqb_eq, ?Z.eqb_neq, ?Z.ltb_lt in *; intros L1 L2;
    rewrite ?Z.ltb_lt in *; try lia.
  eapply IH; eassumption.
Qed.

Lemma tuple_ltb_total (a b : list Z) :
  tuple_ltb a b = false -> tuple_ltb b a = false -> a = b.
Proof.
  revert b. induction a as [|x a IH]; intros [|y b]; simpl;
    try discriminate; try reflexivity.
  rewrite (Z.eqb_sym y x).
  destruct (x =? y) eqn:Exy; rewrite ?Z.eqb_eq, ?Z.eqb_neq in *.
  - intros L1 L2. subst y. f_equal. now apply IH.
  - intros L1 L2. rewrite Z.ltb_ge in *. lia.
Qed.

Lemma tuple_ltb_asym (a b : list Z) :
  tuple_ltb a b = true -> tuple_ltb b a = false.
Proof.
  intros L. destruct (tuple_ltb b a) eqn:L'; [|reflexivity].
  pose proof (tuple_ltb_trans _ _ _ L L') as C.
  now rewrite tuple_ltb_irrefl in C.
Qed.

Lemma tuple_le_refl a : tuple_le a a.
Proof. apply tuple_ltb_irrefl. Qed.

Lemma tuple_le_trans a b c : tuple_le a b -> tuple_le b c -> tuple_le a c.
Proof.
  unfold tuple_le. intros L1 L2.
  destruct (tuple_ltb c a) eqn:L; [|reflexivity].
  destruct (tuple_ltb a b) eqn:L3.
  - pose proof (tuple_ltb_trans _ _ _ L L3) as C. congruence.
  - pose proof (tuple_ltb_total _ _ L3 L1). subst b. congruence.
Qed.

Lemma later_comm a b : later a b = later b a.
Proof.
  unfold later. destruct (tuple_ltb a b) eqn:L1, (tuple_ltb b a) eqn:L2; auto.
  - pose proof (tuple_ltb_asym _ _ L1). congruence.
  - symmetry. now apply tuple_ltb_total.
Qed.

Lemma later_le_l a b : tuple_le a (later a b).
Proof.
  unfold later, tuple_le. destruct (tuple_ltb a b) eqn:L.
  - now apply tuple_ltb_asym.
  - apply tuple_ltb_irrefl.
Qed.

Lemma later_le_r a b : tuple_le b (later a b).
Proof. rewrite later_comm. apply later_le_l. Qed.

Lemma later_of_le a b : tuple_le b a -> later a b = a.
Proof. unfold tuple_le, later. now intros ->. Qed.

Lemma later_lub a b c : tuple_le a c -> tuple_le b c -> tuple_le (later a b) c.
Proof. unfold later. destruct (tuple_ltb a b); auto. Qed.

Lemma tuple_le_antisym a b : tuple_le a b -> tuple_le b a -> a = b.
Proof. unfold tuple_le. intros L1 L2. now apply tuple_ltb_total. Qed.

Lemma later_assoc a b c : later (later a b) c = later a (later b c).
Proof.
  apply tuple_le_antisym.
  - apply later_lub; [apply later_lub|].
    + apply later_le_l.
    + eapply tuple_le_trans; [apply later_le_l | apply later_le_r].
    + eapply tuple_le_trans; [apply later_le_r | apply later_le_r].
  - apply later_lub; [|apply later_lub].
    + eapply tuple_le_trans; [apply later_le_l | apply later_le_l].
    + eapply tuple_le_trans; [apply later_le_r | apply later_le_l].
    + apply later_le_r.
Qed.

Lemma latest_app a l1 l2 : latest a (l1 ++ l2) = latest (latest a l1) l2.
Proof. unfold latest. apply fold_left_app. Qed.

Lemma latest_later a b l : latest (later a b) l = later a (latest b l).
Proof.
  revert b. induction l as [|x l IH]; intros b; [reflexivity|].
  rewrite !latest_cons, later_assoc. apply IH.
Qed.

Lemma latest_le_base a l : tuple_le a (latest a l).
Proof.
  revert a. induction l as [|x l IH]; intros a; [apply tuple_le_refl|].
  rewrite latest_cons. eapply tuple_le_trans; [apply later_le_l | apply IH].
Qed.

Lemma latest_upper a l d : In d l -> tuple_le d (latest a l).
Proof.
  revert a. induction l as [|x l IH]; intros a; [intros []|].
  rewrite latest_cons. intros [<- | Hd].
  - eapply tuple_le_trans; [apply later_le_r | apply latest_le_base].
  - now apply IH.
Qed.

Lemma latest_in a l : latest a l = a \/ In (latest a l) l.
Proof.
  revert a. induction l as [|x l IH]; intros a; [now left|].
  rewrite latest_cons. destruct (IH (later a x)) as [E | E].
  - rewrite E. unfold later. destruct (tuple_ltb a x); [right; now left | now left].
  - right. now right.
Qed.

Lemma latest_perm l l' : Permutation l l' -> forall a, latest a l = latest a l'.
Proof.
  induction 1 as [ | x l l' P IH | x y l | l1 l2 l3 P1 IH1 P2 IH2 ]; intros a.
  - reflexivity.
  - rewrite !latest_cons. apply IH.
  - rewrite !latest_cons. f_equal.
    rewrite !later_assoc. f_equal. apply later_comm.
  - now rewrite IH1.
Qed.

(** The latest of [floor] and timestamps none of which is before [floor] is
    their maximum: it bounds them, and it is one of them when there is
    one. *)
Lemma latest_is_max floor l :
  Forall (tuple_le floor) l ->
  (forall d, In d l -> tuple_le d (latest floor l))
  /\ (l <> [] -> In (latest floor l) l).
Proof.
  intros F. split; [intros d; apply latest_upper|].
  intros NE. destruct (latest_in floor l) as [E | E]; [|exact E].
  destruct l as [|x l]; [congruence|].
  rewrite E. rewrite Forall_forall in F.
  assert (x = floor) as ->; [|now left].
  apply tuple_le_antisym; [|apply F; now left].
  rewrite <- E. apply latest_upper. now left.
Qed.

(** ** Directory timestamps *)

Lemma insert_by_perm {A} (key : A -> string) (x : A) (l : list A) :
  Permutation (insert_by key x l) (x :: l).
Proof.
  induction l as [|y l IH]; simpl; [apply Permutation_refl|].
  destruct (String.ltb (key y) (key x)); [|apply Permutation_refl].
  eapply Permutation_trans; [apply perm_skip, IH | apply perm_swap].
Qed.

Lemma sort_by_perm {A} (key : A -> string) (l : list A) :
  Permutation (sort_by key l) l.
Proof.
  induction l as [|x l IH]; simpl; [apply Permutation_refl|].
  eapply Permutation_trans; [apply insert_by_perm | now apply perm_skip].
Qed.

Lemma tuple_ltb_app (a b u v : list Z) :
  List.length a = List.length b ->
  tuple_ltb a b = true -> tuple_ltb (a ++ u) (b ++ v) = true.
Proof.
  revert b. induction a as [|x a IH]; intros [|y b]; simpl; try discriminate.
  intros L. destruct (x =? y); [apply IH; congruence | auto].
Qed.

Lemma timetuple6_le (a b : DateTime) :
  DT.ltb b a = false -> tuple_le (DT.timetuple6 a) (DT.timetuple6 b).
Proof.
  unfold tuple_le, DT.ltb. intros L.
  destruct (tuple_ltb (DT.timetuple6 b) (DT.timetuple6 a)) eqn:L6; [|reflexivity].
  apply (tuple_ltb_app (DT.timetuple6 b) (DT.timetuple6 a)
           [microsecond b] [microsecond a] eq_refl) in L6.
  change (DT.timetuple6 b ++ [microsecond b]) with (DT.fields b) in L6.
  change (DT.timetuple6 a ++ [microsecond a]) with (DT.fields a) in L6.
  congruence.
Qed.

(** The range check never lets a datetime before the floor through. *)
Lemma clamp_ge self d0 d :
  DT.ltb (__max_dt self) (__min_dt self) = false ->
  clamp self d0 = Ok d -> DT.ltb d (__min_dt self) = false.
Proof.
  intros Hle. unfold clamp.
  destruct (DT.ltb d0 (__min_dt self)) eqn:L1.
  - destruct (_strict_timestamps self); [discriminate|].
    intros [= <-]. apply tuple_ltb_irrefl.
  - destruct (DT.ltb (__max_dt self) d0) eqn:L2.
    + destruct (_strict_timestamps self); [discriminate|].
      intros [= <-]. unfold DT.ltb in *.
      destruct (tuple_ltb (DT.fields (__max_dt self)) (DT.fields (__min_dt self))) eqn:L;
        [|reflexivity].
      pose proof (tuple_ltb_asym _ _ L). congruence.
    + now intros [= <-].
Qed.

Section Floor.

Context `{Runtime} (self : WheelState).
Hypothesis Hinit : __min_dt self = astimezone_naive (__tz self) floor_fields.
Hypothesis Hle : DT.ltb (__max_dt self) (__min_dt self) = false.

Let floor := DT.timetuple6 (__min_dt self).

Lemma make_zipinfo_date_ge path typ dt tr ex wr z :
  make_zipinfo self path typ dt tr ex wr = Ok z -> tuple_le floor (date_time z).
Proof.
  intros E. apply make_zipinfo_Ok in E.
  destruct E as (k & d0 & d & _ & _ & _ & _ & Ec & _ & _ & Ed & _).
  rewrite Ed. apply timetuple6_le. now apply clamp_ge with d0.
Qed.

Lemma make_zipinfo_none_date path typ tr ex wr z :
  make_zipinfo self path typ DtNone tr ex wr = Ok z -> date_time z = floor.
Proof.
  intros E. apply make_zipinfo_Ok in E.
  destruct E as (k & d0 & d & _ & _ & _ & El & Ec & _ & _ & Ed & _).
  rewrite Ed.
  change (localize self DtNone)
    with (in_years (astimezone_naive (__tz self) floor_fields)) in El.
  apply in_years_inv in El as [-> _].
  rewrite <- Hinit in Ec.
  unfold clamp in Ec. unfold DT.ltb at 1 in Ec.
  rewrite tuple_ltb_irrefl, Hle in Ec. now injection Ec as <-.
Qed.

Lemma entry_zinfo_date_ge rel idi e pz :
  entry_zinfo self rel idi e = Ok pz -> tuple_le floor (date_time (snd pz)).
Proof.
  unfold entry_zinfo. destruct (snd e); try discriminate.
  intros E. inv_bind E. injection E as <-. simpl.
  destruct idi; eapply make_zipinfo_date_ge; eassumption.
Qed.

End Floor.

Lemma mapM_Ok {A B} (f : A -> result B) (l : list A) (ys : list B) :
  mapM f l = Ok ys -> Forall2 (fun x y => f x = Ok y) l ys.
Proof.
  revert ys. induction l as [|x l IH]; simpl; intros ys E.
  - injection E as <-. constructor.
  - inv_bind E. inv_bind E. injection E as <-. constructor; auto.
Qed.

Lemma Forall2_right {A B} (R : A -> B -> Prop) (Q : B -> Prop) l l' :
  Forall2 R l l' -> (forall x y, In x l -> R x y -> Q y) -> Forall Q l'.
Proof.
  induction 1 as [|x y l l' Rxy F IH]; intros HQ; constructor.
  - apply (HQ x y); [now left | assumption].
  - apply IH. intros x' y' Hx. apply HQ. now right.
Qed.

Lemma file_dates_app l1 l2 : file_dates (l1 ++ l2) = file_dates l1 ++ file_dates l2.
Proof.
  induction l1 as [|[[z|p] fs] l1 IH]; simpl; [reflexivity | |assumption].
  now rewrite IH, app_assoc.
Qed.

Lemma joinpath_dist rel n :
  Path.is_absolute (Path.joinpath rel n) = false ->
  is_dist_info_path rel = true ->
  is_dist_info_path (Path.joinpath rel n) = true.
Proof.
  unfold Path.joinpath.
  destruct (Path.is_absolute (Path.of_str n)) eqn:A; [congruence|].
  unfold is_dist_info_path, Path.parts, Path.is_absolute. simpl.
  intros ->. destruct (names rel) as [|p0 ps]; [discriminate|]. simpl. auto.
Qed.

Lemma collect_Ok_relative `{Runtime} self rel t r :
  _collect_tree_info self rel t [] = Ok r -> Path.is_absolute rel = false.
Proof.
  destruct t as [ | a b c d e | m es | ]; try discriminate.
  rewrite collect_Dir_nil. intros E. inv_bind E.
  apply make_zipinfo_Ok in E0.
  destruct E0 as (k & d0 & d & _ & _ & Ha & _). exact Ha.
Qed.

Section Stamps.

Context `{Runtime} (self : WheelState).
Hypothesis Hinit : __min_dt self = astimezone_naive (__tz self) floor_fields.
Hypothesis Hle : DT.ltb (__max_dt self) (__min_dt self) = false.

Let floor := DT.timetuple6 (__min_dt self).

(** Below the metadata directory nothing is stamped: every entry appended is
    an archive path, and the timestamp returned is the floor. *)
Lemma collect_meta t :
  forall rel dt seg,
    is_dist_info_path rel = true ->
    _collect_tree_info self rel t [] = Ok (dt, seg) ->
    forallb is_meta seg = true /\ dt = floor /\ file_dates seg = [].
Proof.
  induction t as [ | a b c d e | m es IH | ] using node_forall_ind;
    intros rel dt seg Hd E; try discriminate.
  rewrite collect_Dir_nil in E.
  inv_bind E. rename a into tz0. inv_bind E. rename a into fs.
  inv_bind E. rename a into subs. rewrite Hd in E. cbv zeta in E.
  injection E as <- <-.
  apply mapM_Ok in E2.
  assert (Q : Forall (fun s => forallb is_meta (snd s) = true
                               /\ file_dates (snd s) = []) subs).
  { eapply Forall2_right; [exact E2|]. intros e [dt' seg'] He Ee.
    apply sort_by_In in He. apply filter_In in He as [He _].
    rewrite Forall_forall in IH.
    destruct (IH e He _ _ _ (joinpath_dist _ _ (collect_Ok_relative _ _ _ _ Ee) Hd) Ee)
      as (M & _ & D).
    split; assumption. }
  split; [|split].
  - unfold own_entry. cbn [negb forallb is_meta fst].
    clear E2. induction Q as [|s subs [M _] _ IHq]; [reflexivity|].
    cbn [map List.concat]. rewrite forallb_app, M. exact IHq.
  - apply (make_zipinfo_none_date self Hinit Hle _ _ _ _ _ _ E0).
  - unfold own_entry. cbn [negb file_dates].
    clear E2. induction Q as [|s subs [_ D] _ IHq]; [reflexivity|].
    cbn [map List.concat]. rewrite file_dates_app, D. exact IHq.
Qed.

Lemma make_zipinfo_dir_name rel z :
  make_zipinfo self (PPath rel) (Some stat.S_IFDIR) DtNone true true true = Ok z ->
  filename z = Path.as_posix rel +++ "/".
Proof.
  intros E. apply make_zipinfo_Ok in E.
  destruct E as (k & d0 & d & Ek & _ & _ & _ & _ & _ & Hname & _).
  assert (Kdir : k = stat.S_IFDIR)
    by (vm_compute in Ek; injection Ek as <-; reflexivity).
  subst k. exact Hname.
Qed.

Lemma subs_archived rel dirs subs :
  Forall2 (sub_ok self floor rel) dirs subs ->
  exists dates,
    archived_below self floor rel dirs dates (List.concat (map snd subs))
    /\ Forall (tuple_le floor) dates
    /\ forall a, tuple_le floor a -> latest a (map fst subs) = latest a dates.
Proof.
  induction 1 as [|[name t] sub dirs subs (d & A & E & G) _ (ds & Ab & Gs & L)].
  - exists []. split; [constructor|]. split; [constructor | reflexivity].
  - exists (d ++ ds). cbn [map List.concat fst snd] in *. split; [|split].
    + now apply below_cons.
    + apply Forall_app. split; assumption.
    + intros a Ha. rewrite latest_cons, latest_app, E.
      rewrite <- latest_later, (later_of_le _ _ Ha).
      apply L. eapply tuple_le_trans; [exact Ha | apply latest_le_base].
Qed.

(** The traversal of an ordinary directory lists it as [archived] says, and
    no file in the list is dated before the floor. *)
Lemma collect_archived t :
  forall rel dt seg,
    is_dist_info_path rel = false ->
    _collect_tree_info self rel t [] = Ok (dt, seg) ->
    exists dates,
      archived self floor rel t dates seg
      /\ dt = latest floor dates
      /\ Forall (tuple_le floor) dates.
Proof.
  induction t as [ | a b c d e | m es IH | ] using node_forall_ind;
    intros rel dt seg Hd E; try discriminate.
  rewrite collect_Dir_nil in E.
  inv_bind E. rename a into tz0. inv_bind E. rename a into fs.
  inv_bind E. rename a into subs. rewrite Hd in E. cbv zeta in E.
  injection E as <- <-.
  pose proof (make_zipinfo_none_date self Hinit Hle _ _ _ _ _ _ E0) as Etz0.
  pose proof (make_zipinfo_dir_name _ _ E0) as Ename.
  fold floor in Etz0. rewrite Etz0.
  pose proof (mapM_Ok _ _ _ E1) as F1. apply mapM_Ok in E2.
  assert (Gfs : Forall (tuple_le floor) (map (fun pz => date_time (snd pz)) fs)).
  { apply Forall_map. eapply Forall2_right; [exact F1|].
    intros e pz _ Ee. apply (entry_zinfo_date_ge self Hle _ _ _ _ Ee). }
  assert (Q : Forall2 (sub_ok self floor rel)
                (sort_by name_key (filter is_subdir es)) subs).
  { rewrite Forall_forall in IH.
    assert (In_es : forall e, In e (sort_by name_key (filter is_subdir es)) -> In e es).
    { intros e He. apply sort_by_In in He. now apply filter_In in He as [He _]. }
    revert In_es E2. generalize (sort_by name_key (filter is_subdir es)).
    intros l In_es F2. induction F2 as [|e [dt' seg'] l subs Ee _ IHl]; constructor.
    - unfold sub_ok. cbn [fst snd].
      destruct (is_dist_info_path (Path.joinpath rel (fst e))) eqn:Hd'.
      + destruct (collect_meta _ _ _ _ Hd' Ee) as (M & -> & D).
        exists []. split; [now apply archived_meta | split; [reflexivity | constructor]].
      + apply (IH e (In_es e (or_introl eq_refl)) _ _ _ Hd' Ee).
    - apply IHl. intros e' He'. apply In_es. now right. }
  destruct (subs_archived rel _ _ Q) as (ds & Ab & Gs & L).
  set (own := map (fun pz : file_entry => date_time (snd pz)) fs) in *.
  assert (Edt : latest (latest floor own) (map fst subs) = latest floor (own ++ ds)).
  { rewrite latest_app. apply L, latest_le_base. }
  exists (own ++ ds). split; [|split].
  - unfold own_entry. cbn [negb].
    apply archived_dir;
      [exact Hd | exact Ename | rewrite Hd in E1; exact E1 | exact Ab | exact Edt].
  - exact Edt.
  - apply Forall_app. split; assumption.
Qed.

End Stamps.

Lemma touch_files f es :
  filter is_file (map (fun e => (fst e, touch f (snd e))) es) = filter is_file es.
Proof.
  induction es as [|[n c] es IH]; [reflexivity|].
  destruct c; simpl; now rewrite ?IH.
Qed.

Lemma touch_subdirs f es :
  filter is_subdir (map (fun e => (fst e, touch f (snd e))) es) =
  map (fun e => (fst e, touch f (snd e))) (filter is_subdir es).
Proof.
  induction es as [|[n c] es IH]; [reflexivity|].
  cbn [map filter fst snd].
  assert (Es : is_subdir (n, touch f c) = is_subdir (n, c)) by (destruct c; reflexivity).
  rewrite Es. destruct (is_subdir (n, c)); [|exact IH].
  cbn [map fst snd]. now rewrite IH.
Qed.

(** The modification times of directories are not read. *)
Lemma collect_touch `{Runtime} self f t :
  forall rel outs,
    _collect_tree_info self rel (touch f t) outs = _collect_tree_info self rel t outs.
Proof.
  induction t as [ | a b c d e | m es IH | ] using node_forall_ind;
    intros rel outs; try reflexivity.
  cbn [touch].
  rewrite (collect_Dir self rel (f m) _ outs (all_append self _)).
  rewrite (collect_Dir self rel m es outs (all_append self _)).
  rewrite touch_files, touch_subdirs.
  apply bind_ext. intros tz0. apply bind_ext. intros fs.
  rewrite (sort_by_map name_key (fun e : string * node => (fst e, touch f (snd e)))).
  rewrite mapM_map. cbn [fst snd].
  rewrite (mapM_ext_in _
             (fun e => _collect_tree_info self (Path.joinpath rel (fst e)) (snd e) [])).
  - reflexivity.
  - intros e He. apply sort_by_In in He. apply filter_In in He as [He _].
    rewrite Forall_forall in IH. apply (IH e He).
Qed.

(** What [add_tree] writes: the archive only grows, and every ordinary
    directory listed is written with the [ZipInfo] listed, but for the root
    of the archive. *)
Lemma add_files_grows files :
  forall self self',
    add_files self files = Ok self' ->
    exists more, filelist self' = filelist self ++ more.
Proof.
  induction files as [|[path zinfo] files IH]; intros self self' E.
  - injection E as <-. exists []. now rewrite app_nil_r.
  - cbn [add_files] in E. inv_bind E. destruct a as [self1 zinfo1].
    inv_bind E. unfold write_member in E0.
    destruct (negb (fp self)); [discriminate|]. injection E0 as <- <-.
    apply IH in E. destruct E as (more & E). cbn in E.
    rewrite <- app_assoc in E. eauto.
Qed.

Lemma add_dirs_written dirs :
  forall self self',
    add_dirs self dirs = Ok self' ->
    (exists more, filelist self' = filelist self ++ more)
    /\ Forall (written self') dirs.
Proof.
  induction dirs as [|[[dir|dir] files] dirs IH]; intros self self' E.
  - injection E as <-. split; [exists []; now rewrite app_nil_r | constructor].
  - cbn [add_dirs] in E. inv_bind E. rename a into self2.
    unfold _add_dir in E0. inv_bind E0. clear a E1.
    inv_bind E0. rename a into self1.
    destruct (add_files_grows _ _ _ E0) as (m2 & G2).
    destruct (IH _ _ E) as ((m3 & G3) & F).
    destruct (negb (contains (filename dir) "./")) eqn:C.
    + unfold mkdir in E1. destruct (negb (Zip.is_dir dir)); [discriminate|].
      destruct (negb (fp self)); [discriminate|]. injection E1 as <-.
      cbn [filelist set_filelist] in G2.
      split.
      * exists ([(dir, [])] ++ m2 ++ m3). rewrite G3, G2, <- !app_assoc. reflexivity.
      * constructor; [|exact F]. unfold written. cbn [fst]. right.
        rewrite G3, G2. apply in_or_app. left. apply in_or_app. left.
        apply in_or_app. right. now left.
    + injection E1 as <-. split.
      * exists (m2 ++ m3). rewrite G3, G2, <- app_assoc. reflexivity.
      * constructor; [|exact F]. unfold written. cbn [fst]. left.
        now apply negb_false_iff in C.
  - cbn [add_dirs] in E. inv_bind E. rename a into self1.
    unfold _add_dist_info in E0. inv_bind E0. inv_bind E0. inv_bind E0.
    injection E0 as <-.
    destruct (IH _ _ E) as (G & F). split; [exact G|].
    constructor; [exact I | exact F].
Qed.

(** C2.  For a directory outside the metadata directory, in a builder whose
    floor is the one [__init__] computes: the list the traversal returns is
    the one [archived] describes from the tree.  The directory, and under its
    own path every directory below it, carries the latest of the timestamps
    of the files archived under it at any depth.  For the directory the call
    is made on this is also the timestamp returned: it bounds the timestamps
    of all these files and is one of them, and without any such file it is
    the floor, 1980-01-01 in the builder's zone.  No file is dated before
    the floor, so that the latest is the maximum in every directory.  The
    modification times of directories play no part.  [add_tree] writes each
    of these directories, but for the root of the archive, with the
    [ZipInfo] listed. *)
Theorem directory_timestamp `{Runtime} self rel t dt seg :
  __min_dt self = astimezone_naive (__tz self) floor_fields ->
  DT.ltb (__max_dt self) (__min_dt self) = false ->
  is_dist_info_path rel = false ->
  _collect_tree_info self rel t [] = Ok (dt, seg) ->
  let floor := DT.timetuple6 (__min_dt self) in
  exists dates,
    archived self floor rel t dates seg
    /\ dt = latest floor dates
    /\ Forall (tuple_le floor) dates
    /\ (forall d, In d dates -> tuple_le d dt)
    /\ (dates <> [] -> In dt dates)
    /\ (dates = [] -> dt = floor)
    /\ (forall f, _collect_tree_info self rel (touch f t) [] = Ok (dt, seg))
    /\ (forall root self',
          Path.strip_root (to_path root) = rel ->
          add_tree self root t = Ok self' ->
          Forall (written self') seg).
Proof.
  intros Hinit Hle Hd E floor.
  destruct (collect_archived self Hinit Hle t rel dt seg Hd E) as (dates & A & L & G).
  fold floor in A, L, G.
  destruct (latest_is_max floor dates G) as (U & M).
  rewrite <- L in U, M.
  exists dates. repeat split; try assumption.
  - intros Em. rewrite L, Em. reflexivity.
  - intros f. rewrite collect_touch. exact E.
  - intros root self' Er Ea. unfold add_tree in Ea. cbv zeta in Ea.
    rewrite Er, E in Ea. cbn [bind] in Ea.
    apply add_dirs_written in Ea. exact (proj2 Ea).
Qed.

(** The statement at the directory [a] holding [a/x], modified on
    2000-01-01, [a/sub/y], modified on 2002-01-01, and [a/other/z], modified
    on 2001-01-01, on a machine set to UTC: [a] and [a/sub] are archived with
    the timestamp of [a/sub/y], [a/other] with that of [a/other/z]. *)
Lemma directory_timestamp_witness :
  exists dt seg dates,
    @_collect_tree_info Env.utc_runtime Env.wheel0 (Path.of_str "a") Env.tree_a []
    = Ok (dt, seg)
    /\ dt = [2002; 1; 1; 0; 0; 0]
    /\ dir_stamps seg = [("a/", [2002; 1; 1; 0; 0; 0]);
                         ("a/other/", [2001; 1; 1; 0; 0; 0]);
                         ("a/sub/", [2002; 1; 1; 0; 0; 0])]
    /\ @archived Env.utc_runtime Env.wheel0 [1980; 1; 1; 0; 0; 0]
         (Path.of_str "a") Env.tree_a dates seg.
Proof.
  destruct (@_collect_tree_info Env.utc_runtime Env.wheel0 (Path.of_str "a")
              Env.tree_a [])
    as [[dt seg]|e] eqn:E.
  - destruct (@directory_timestamp Env.utc_runtime Env.wheel0
                (Path.of_str "a") Env.tree_a dt seg
                eq_refl eq_refl eq_refl E) as (dates & A & _).
    exists dt, seg, dates. split; [reflexivity|].
    vm_compute in E. injection E as <- <-.
    split; [reflexivity|]. split; [reflexivity | exact A].
  - vm_compute in E. discriminate E.
Defined.

(** ** Sorting by name *)

Lemma str_ltb_lt a b : String.ltb a b = true <-> String_as_OT.lt a b.
Proof.
  rewrite <- String_as_OT.cmp_lt. unfold String.ltb, String_as_OT.cmp.
  destruct (String.compare a b); split; intros E;
    first [reflexivity | discriminate E].
Qed.

Lemma str_ltb_trans a b c :
  String.ltb a b = true -> String.ltb b c = true -> String.ltb a c = true.
Proof.
  rewrite !str_ltb_lt. apply String_as_OT.lt_trans.
Qed.

Lemma str_ltb_irrefl a : String.ltb a a = false.
Proof.
  destruct (String.ltb a a) eqn:L; [|reflexivity].
  apply str_ltb_lt in L. apply String_as_OT.lt_not_eq in L.
  exfalso. apply L. reflexivity.
Qed.

Lemma str_ltb_total a b : a <> b -> String.ltb a b = false -> String.ltb b a = true.
Proof.
  unfold String.ltb. rewrite (String.compare_antisym b a).
  destruct (String.compare a b) eqn:C; simpl; try congruence.
  apply String.compare_eq_iff in C. congruence.
Qed.

Lemma str_ltb_asym a b : String.ltb a b = true -> String.ltb b a = false.
Proof.
  intros L. destruct (String.ltb b a) eqn:L'; [|reflexivity].
  pose proof (str_ltb_trans _ _ _ L L') as C. now rewrite str_ltb_irrefl in C.
Qed.

Lemma str_le_lt_trans a b c :
  String.ltb b a = false -> String.ltb b c = true -> String.ltb a c = true.
Proof.
  intros L1 L2. destruct (string_dec a b) as [-> | N]; [assumption|].
  apply str_ltb_trans with b; [|assumption].
  apply str_ltb_total; [congruence | assumption].
Qed.

(** Two insertions of elements with different keys commute. *)
Lemma insert_by_comm {A} (key : A -> string) (x y : A) (l : list A) :
  key x <> key y ->
  insert_by key x (insert_by key y l) = insert_by key y (insert_by key x l).
Proof.
  intros N. induction l as [|z l IH].
  - simpl. destruct (String.ltb (key y) (key x)) eqn:Lyx.
    + now rewrite (str_ltb_asym _ _ Lyx).
    + now rewrite (str_ltb_total _ _ (not_eq_sym N) Lyx).
  - cbn [insert_by].
    destruct (String.ltb (key z) (key y)) eqn:Lzy,
             (String.ltb (key z) (key x)) eqn:Lzx; cbn [insert_by];
      rewrite ?Lzy, ?Lzx.
    + now rewrite IH.
    + now rewrite (str_le_lt_trans _ _ _ Lzx Lzy).
    + now rewrite (str_le_lt_trans _ _ _ Lzy Lzx).
    + destruct (String.ltb (key y) (key x)) eqn:Lyx.
      * rewrite (str_ltb_asym _ _ Lyx). cbn [insert_by]. now rewrite ?Lzx.
      * rewrite (str_ltb_total _ _ (not_eq_sym N) Lyx). cbn [insert_by].
        now rewrite ?Lzy.
Qed.

(** With keys all different, the sorted list does not depend on the order
    the elements came in. *)
Lemma sort_by_unique {A} (key : A -> string) (l l' : list A) :
  Permutation l l' -> NoDup (map key l) -> sort_by key l = sort_by key l'.
Proof.
  induction 1 as [ | x l l' P IH | x y l | l1 l2 l3 P1 IH1 P2 IH2 ]; intros ND.
  - reflexivity.
  - simpl. inversion ND; subst. now rewrite IH.
  - simpl. apply insert_by_comm. inversion ND; subst. simpl in *. intuition.
  - rewrite IH1 by assumption. apply IH2.
    eapply Permutation_NoDup; [apply Permutation_map, P1 | assumption].
Qed.

(** ** Enumeration order *)

Lemma same_outcome_refl {A} (r : result A) : same_outcome r r.
Proof. destruct r; simpl; auto. Qed.

Lemma same_outcome_trans {A} (r1 r2 r3 : result A) :
  same_outcome r1 r2 -> same_outcome r2 r3 -> same_outcome r1 r3.
Proof.
  destruct r1, r2, r3; simpl; intros; try congruence; try contradiction; auto.
Qed.

Lemma same_outcome_bind {A B} (r1 r2 : result A) (k1 k2 : A -> result B) :
  same_outcome r1 r2 ->
  (forall a, same_outcome (k1 a) (k2 a)) ->
  same_outcome (bind r1 k1) (bind r2 k2).
Proof.
  destruct r1, r2; simpl; intros E K; try contradiction; auto.
  subst. apply K.
Qed.

Lemma filter_perm {A} (f : A -> bool) (l l' : list A) :
  Permutation l l' -> Permutation (filter f l) (filter f l').
Proof.
  induction 1 as [ | x l l' P IH | x y l | l1 l2 l3 P1 IH1 P2 IH2 ]; simpl.
  - constructor.
  - destruct (f x); [now constructor | assumption].
  - destruct (f x), (f y); try apply Permutation_refl. apply perm_swap.
  - eapply Permutation_trans; eassumption.
Qed.

(** A loop that stops at the first exception, run on the same elements in
    another order: it fails in both orders or gives the same results in the
    other order. *)
Lemma mapM_perm {A B} (f : A -> result B) (l l' : list A) :
  Permutation l l' ->
  match mapM f l with
  | Ok ys => exists ys', mapM f l' = Ok ys' /\ Permutation ys ys'
  | Raise _ => exists e, mapM f l' = Raise e
  end.
Proof.
  induction 1 as [ | x l l' P IH | x y l | l1 l2 l3 P1 IH1 P2 IH2 ].
  - simpl. exists []. split; [reflexivity | constructor].
  - simpl. destruct (f x) as [y|e]; simpl; [|eauto].
    destruct (mapM f l) as [ys|e].
    + destruct IH as (ys' & -> & Pys). simpl. eauto.
    + destruct IH as (e' & ->). simpl. eauto.
  - simpl. destruct (f x) as [x'|ex], (f y) as [y'|ey]; simpl; eauto;
      destruct (mapM f l) as [ys|e]; simpl; eauto.
    exists (x' :: y' :: ys). split; [reflexivity | apply perm_swap].
  - destruct (mapM f l1) as [ys|e].
    + destruct IH1 as (ys2 & E2 & P12). rewrite E2 in IH2.
      destruct IH2 as (ys3 & E3 & P23). exists ys3. split; [assumption|].
      eapply Permutation_trans; eassumption.
    + destruct IH1 as (e2 & E2). rewrite E2 in IH2. exact IH2.
Qed.

Lemma entry_zinfo_keys `{Runtime} self rel idi (l : list (string * node)) fs :
  mapM (entry_zinfo self rel idi) l = Ok fs ->
  map file_key fs = map name_key l.
Proof.
  intros E. apply mapM_Ok in E.
  induction E as [|e pz l fs Ee F IH]; [reflexivity|].
  simpl. rewrite IH. f_equal.
  unfold entry_zinfo in Ee. destruct (snd e); try discriminate.
  inv_bind Ee. now injection Ee as <-.
Qed.

Lemma fold_distinct_Dir `{Runtime} m es :
  fold_distinct (Dir m es) <->
  NoDup (map name_key (filter is_file es))
  /\ NoDup (map name_key (filter is_subdir es))
  /\ Forall (fun e => fold_distinct (snd e)) es.
Proof.
  cbn [fold_distinct].
  set (all := fix all (l : list (string * node)) : Prop :=
                match l with
                | [] => True
                | (_, child) :: rest => fold_distinct child /\ all rest
                end).
  assert (E : all es <-> Forall (fun e => fold_distinct (snd e)) es).
  { induction es as [|[n c] es IH]; simpl.
    - split; [constructor | trivial].
    - rewrite IH. split.
      + intros [? ?]. now constructor.
      + intros F. inversion F; subst. now split. }
  rewrite E. reflexivity.
Qed.

Lemma reorder_kind t t' :
  reorder t t' ->
  t = t' \/ exists m l m' l', t = Dir m l /\ t' = Dir m' l'.
Proof.
  induction 1 as [ t | t1 t2 t3 R1 IH1 R2 IH2 | m m' l l' P | m b n t t' bh R IH ].
  - now left.
  - destruct IH1 as [-> | (m & l & m' & l' & -> & ->)]; [assumption|].
    destruct IH2 as [<- | (m2 & l2 & m3 & l3 & E & ->)].
    + right. now exists m, l, m', l'.
    + right. now exists m, l, m3, l3.
  - right. now exists m, l, m', l'.
  - right. now exists m, (b ++ (n, t) :: bh), m, (b ++ (n, t') :: bh).
Qed.

Lemma insert_by_Forall2 {A} (R : A -> A -> Prop) (key : A -> string) x y s s' :
  (forall a b, R a b -> key a = key b) ->
  R x y -> Forall2 R s s' -> Forall2 R (insert_by key x s) (insert_by key y s').
Proof.
  intros K Rxy F. induction F as [|a b s s' Rab F IH]; simpl.
  - repeat constructor. assumption.
  - rewrite (K _ _ Rxy), (K _ _ Rab).
    destruct (String.ltb (key b) (key y)); repeat constructor; assumption.
Qed.

Lemma sort_by_Forall2 {A} (R : A -> A -> Prop) (key : A -> string) l l' :
  (forall a b, R a b -> key a = key b) ->
  Forall2 R l l' -> Forall2 R (sort_by key l) (sort_by key l').
Proof.
  intros K F. induction F as [|a b l l' Rab F IH]; simpl; [constructor|].
  now apply insert_by_Forall2.
Qed.

Lemma mapM_same_outcome {A B} (R : A -> A -> Prop) (f : A -> result B) l l' :
  (forall a b, R a b -> same_outcome (f a) (f b)) ->
  Forall2 R l l' -> same_outcome (mapM f l) (mapM f l').
Proof.
  intros K F. induction F as [|a b l l' Rab F IH]; simpl; [reflexivity|].
  apply same_outcome_bind; [now apply K|]. intros y.
  apply same_outcome_bind; [exact IH|]. intros ys. reflexivity.
Qed.

Lemma Forall2_refl_on {A} (R : A -> A -> Prop) (l : list A) :
  (forall a, R a a) -> Forall2 R l l.
Proof. intros Rr. induction l; constructor; auto. Qed.

(** A directory listed in two orders, whose files have different case-folded
    names and whose subdirectories have too. *)
Lemma collect_listing `{Runtime} self rel m m' (l l' : list (string * node)) :
  Permutation l l' ->
  NoDup (map name_key (filter is_file l)) ->
  NoDup (map name_key (filter is_subdir l)) ->
  same_outcome (_collect_tree_info self rel (Dir m l) [])
               (_collect_tree_info self rel (Dir m' l') []).
Proof.
  intros P NDf NDd. rewrite !collect_Dir_nil.
  apply same_outcome_bind; [apply same_outcome_refl|]. intros tz0.
  pose proof (mapM_perm (entry_zinfo self rel (is_dist_info_path rel)) _ _
                (filter_perm is_file _ _ P)) as Pf.
  destruct (mapM (entry_zinfo self rel (is_dist_info_path rel)) (filter is_file l))
    as [fs|e] eqn:Efs.
  - destruct Pf as (fs' & -> & Pfs). cbn [bind].
    rewrite <- (sort_by_unique name_key _ _ (filter_perm is_subdir _ _ P) NDd).
    apply same_outcome_bind; [apply same_outcome_refl|]. intros subs.
    cbv zeta. simpl.
    rewrite <- (sort_by_unique file_key fs fs' Pfs).
    + rewrite (latest_perm _ _
                 (Permutation_map (fun pz : file_entry => date_time (snd pz)) Pfs)).
      reflexivity.
    + rewrite (entry_zinfo_keys _ _ _ _ _ Efs). exact NDf.
  - destruct Pf as (e' & ->). simpl. exact I.
Qed.

Lemma filter_middle {A} (f : A -> bool) (before behind : list A) (x : A) :
  filter f (before ++ x :: behind) =
  filter f before ++ (if f x then [x] else []) ++ filter f behind.
Proof.
  rewrite filter_app. simpl. now destruct (f x).
Qed.

(** One subdirectory replaced by one that gives the same outcome. *)
Lemma collect_child `{Runtime} self rel m before name behind m1 l1 m2 l2 :
  (forall rel', same_outcome (_collect_tree_info self rel' (Dir m1 l1) [])
                             (_collect_tree_info self rel' (Dir m2 l2) [])) ->
  same_outcome
    (_collect_tree_info self rel (Dir m (before ++ (name, Dir m1 l1) :: behind)) [])
    (_collect_tree_info self rel (Dir m (before ++ (name, Dir m2 l2) :: behind)) []).
Proof.
  intros S. rewrite !collect_Dir_nil.
  apply same_outcome_bind; [apply same_outcome_refl|]. intros tz0.
  rewrite !(filter_middle is_file). cbn [is_file snd].
  apply same_outcome_bind; [apply same_outcome_refl|]. intros fs.
  set (R := fun e e' : string * node =>
              fst e = fst e' /\
              forall rel', same_outcome (_collect_tree_info self rel' (snd e) [])
                                        (_collect_tree_info self rel' (snd e') [])).
  assert (Rr : forall e, R e e).
  { intros e. split; [reflexivity | intros; apply same_outcome_refl]. }
  assert (F : Forall2 R (filter is_subdir (before ++ (name, Dir m1 l1) :: behind))
                        (filter is_subdir (before ++ (name, Dir m2 l2) :: behind))).
  { rewrite !(filter_middle is_subdir). unfold is_subdir at 2 5. cbn [fst snd].
    apply Forall2_app; [now apply Forall2_refl_on|].
    apply Forall2_app; [|now apply Forall2_refl_on].
    destruct (negb (String.eqb name "__pycache__")); constructor.
    - split; [reflexivity | exact S].
    - constructor. }
  apply (sort_by_Forall2 R name_key) in F.
  2: { intros a b [E _]. unfold name_key. now rewrite E. }
  apply same_outcome_bind.
  - apply (mapM_same_outcome R); [|exact F].
    intros a b [E Sab]. rewrite E. apply Sab.
  - intros subs. apply same_outcome_refl.
Qed.

(** The traversal does not depend on the order in which directories list
    their entries, nor on the directories' modification times, once sibling
    names differ after case folding. *)
Lemma reorder_collect `{Runtime} self t1 t2 :
  reorder t1 t2 ->
  fold_distinct t1 ->
  fold_distinct t2
  /\ forall rel, same_outcome (_collect_tree_info self rel t1 [])
                              (_collect_tree_info self rel t2 []).
Proof.
  induction 1 as [ t | t1 t2 t3 R1 IH1 R2 IH2 | m m' l l' P | m b n t t' bh R IH ];
    intros D.
  - split; [assumption | intros; apply same_outcome_refl].
  - destruct (IH1 D) as (D2 & S12). destruct (IH2 D2) as (D3 & S23).
    split; [assumption|]. intros rel.
    eapply same_outcome_trans; [apply S12 | apply S23].
  - apply fold_distinct_Dir in D. destruct D as (NDf & NDd & Fc). split.
    + apply fold_distinct_Dir. split; [|split].
      * eapply Permutation_NoDup; [|exact NDf].
        apply Permutation_map, filter_perm, P.
      * eapply Permutation_NoDup; [|exact NDd].
        apply Permutation_map, filter_perm, P.
      * eapply Permutation_Forall; eassumption.
    + intros rel. now apply collect_listing.
  - apply fold_distinct_Dir in D. destruct D as (NDf & NDd & Fc).
    assert (Dt : fold_distinct t).
    { rewrite Forall_forall in Fc. apply (Fc (n, t)).
      apply in_or_app. right. now left. }
    destruct (IH Dt) as (Dt' & S).
    destruct (reorder_kind _ _ R) as [<- | (m1 & l1 & m2 & l2 & -> & ->)].
    { split; [|intros; apply same_outcome_refl].
      apply fold_distinct_Dir. auto. }
    split.
    + apply fold_distinct_Dir. split; [|split].
      * rewrite filter_middle in *. cbn [is_file snd] in *. exact NDf.
      * rewrite filter_middle in *.
        assert (Ek : is_subdir (n, Dir m2 l2) = is_subdir (n, Dir m1 l1))
          by reflexivity.
        rewrite Ek. destruct (is_subdir (n, Dir m1 l1));
          rewrite !map_app in *; exact NDd.
      * apply Forall_app in Fc as (Fb & Fh). apply Forall_app. split; [assumption|].
        inversion Fh; subst. constructor; assumption.
    + intros rel. now apply collect_child.
Qed.

(** C1.  Two listings of the same tree, which may differ in the order each
    directory enumerates its entries and in the directories' modification
    times, give [add_tree] the same outcome, the same builder state with the
    same archive members in the same order or an exception in both cases,
    provided that in every directory no two files and no two subdirectories
    have names that case-fold to the same string.  Where two names do, the
    outcome depends on the enumeration: the sort has no other key. *)
Theorem add_tree_order_independent `{Runtime} self root t1 t2 :
  reorder t1 t2 ->
  fold_distinct t1 ->
  same_outcome (add_tree self root t1) (add_tree self root t2).
Proof.
  intros R D. unfold add_tree.
  apply same_outcome_bind.
  - apply (reorder_collect self t1 t2 R D).
  - intros [dt dirs]. apply same_outcome_refl.
Qed.

(** The statement at a package directory enumerated in two orders, on a
    machine set to UTC. *)
Lemma add_tree_order_independent_witness :
  same_outcome (@add_tree Env.utc_runtime Env.wheel0 (PStr ".") Env.listing1)
               (@add_tree Env.utc_runtime Env.wheel0 (PStr ".") Env.listing2).
Proof.
  apply (@add_tree_order_independent Env.utc_runtime Env.wheel0 (PStr ".")
           Env.listing1 Env.listing2).
  - apply reorder_listing.
    exact (Permutation_rev
             [("b.py", Env.plain 946684800000000 "b");
              ("A.py", Env.plain 978307200000000 "A");
              ("pkg", Dir 1600000000000000 [("y.py", Env.plain 946684800000000 "y")])]).
  - cbn. repeat split; repeat constructor; cbn; intuition discriminate.
Defined.

Lemma same_outcome_member_names (r1 r2 : result WheelState) :
  same_outcome r1 r2 -> Env.member_names r1 = Env.member_names r2.
Proof.
  destruct r1, r2; simpl; intros E; try contradiction; [now subst | reflexivity].
Qed.

(** C1 fails for a directory holding the files [A] and [a]: the sort key is
    the case-folded name alone, the two keys are equal and nothing breaks the
    tie, so two enumerations of this one directory give archives whose
    members are in different orders. *)
Lemma add_tree_order_counterexample :
  reorder Env.upper_first Env.lower_first
  /\ Env.member_names
       (@add_tree Env.utc_runtime Env.wheel0 (PStr ".") Env.upper_first) = ["A"; "a"]
  /\ Env.member_names
       (@add_tree Env.utc_runtime Env.wheel0 (PStr ".") Env.lower_first) = ["a"; "A"]
  /\ ~ same_outcome
         (@add_tree Env.utc_runtime Env.wheel0 (PStr ".") Env.upper_first)
         (@add_tree Env.utc_runtime Env.wheel0 (PStr ".") Env.lower_first).
Proof.
  assert (E1 : Env.member_names
                 (@add_tree Env.utc_runtime Env.wheel0 (PStr ".") Env.upper_first)
               = ["A"; "a"]) by (vm_compute; reflexivity).
  assert (E2 : Env.member_names
                 (@add_tree Env.utc_runtime Env.wheel0 (PStr ".") Env.lower_first)
               = ["a"; "A"]) by (vm_compute; reflexivity).
  repeat split; try assumption.
  - apply reorder_listing. apply perm_swap.
  - intros S. apply same_outcome_member_names in S.
    rewrite E1, E2 in S. discriminate S.
Qed.

(** ** The manifest *)

Lemma Path_eqb_eq (p q : PurePosixPath) : Path.eqb p q = true -> p = q.
Proof.
  unfold Path.eqb. destruct p as [r n], q as [r' n']. simpl.
  intros E. apply andb_true_iff in E as [E1 E2].
  apply String.eqb_eq in E1.
  destruct (list_eq_dec string_dec n n'); [|discriminate]. now subst.
Qed.

Lemma dict_set_Forall {V} (P : PurePosixPath * V -> Prop) k v d :
  Forall P d -> P (k, v) -> Forall P (dict_set k v d).
Proof.
  intros F Pk. induction F as [|[k' v'] d Pk' F IH]; simpl.
  - repeat constructor. assumption.
  - destruct (Path.eqb k k') eqn:E.
    + apply Path_eqb_eq in E. subst k'. constructor; assumption.
    + constructor; assumption.
Qed.

Lemma recorded_mono (l l' : list member) record :
  Forall (fun item => exists m, In m l /\ recorded m item) record ->
  Forall (fun item => exists m, In m (l ++ l') /\ recorded m item) record.
Proof.
  apply Forall_impl. intros item (m & Hm & R). exists m. split; [|exact R].
  apply in_or_app. now left.
Qed.

(** What the loop of [close] over the staged metadata keeps and adds. *)
Lemma flush_dist_info_spec `{Runtime} prefix items :
  Forall staged items ->
  forall self self1,
    flush_dist_info self prefix items = Ok self1 ->
    record_ok self ->
    record_ok self1
    /\ (exists more, filelist self1 = filelist self ++ more)
    /\ fp self1 = fp self
    /\ __modified self1 = __modified self
    /\ (__record self <> None -> __record self1 <> None).
Proof.
  induction 1 as [|[rel file] items Hst Hsts IH]; intros self self1 E Hok.
  - injection E as <-. repeat split; auto. exists []. now rewrite app_nil_r.
  - cbn [flush_dist_info] in E. inv_bind E. rename a into zinfo.
    destruct file as [[content hash]|].
    + unfold staged in Hst. cbn in Hst. subst hash. inv_bind E. destruct a as [self2 zinfo2].
      inv_bind E. rename a into record.
      unfold write_member in E1. destruct (negb (fp self)) eqn:Fp; [discriminate|].
      injection E1 as <- <-.
      cbn [__record set_filelist] in E2.
      unfold the_dict in E2. destruct (__record self) as [rec0|] eqn:Er; [|discriminate].
      injection E2 as <-.
      apply make_zipinfo_Ok in E0.
      destruct E0 as (k & d0 & d & Ek & _ & _ & _ & _ & _ & Hname & _).
      assert (Kreg : k = stat.S_IFREG)
        by (vm_compute in Ek; injection Ek as <-; reflexivity).
      subst k. change (stat.S_ISDIR stat.S_IFREG) with false in Hname.
      cbn [to_path] in Hname.
      apply IH in E.
      * destruct E as (Hok1 & (more & Hfl) & Hfp & Hmod & Hrec).
        repeat split; auto.
        -- cbn in Hfl. rewrite <- app_assoc in Hfl. eauto.
        -- intros _. apply Hrec. discriminate.
      * unfold record_ok. cbn. unfold record_ok in Hok. rewrite Er in Hok.
        apply dict_set_Forall.
        -- now apply recorded_mono.
        -- eexists. split; [apply in_or_app; right; now left|].
           unfold recorded. cbn [fst snd Zip.set_file_size file_size filename].
           split; [reflexivity | split; [reflexivity | right; exact Hname]].
    + inv_bind E. rename a into self2.
      unfold mkdir in E1. destruct (negb (Zip.is_dir zinfo)); [discriminate|].
      destruct (negb (fp self)) eqn:Fp; [discriminate|]. injection E1 as <-.
      apply IH in E.
      * destruct E as (Hok1 & (more & Hfl) & Hfp & Hmod & Hrec).
        repeat split; auto.
        cbn in Hfl. rewrite <- app_assoc in Hfl. eauto.
      * unfold record_ok in *. cbn. destruct (__record self); [|exact I].
        now apply recorded_mono.
Qed.

Lemma append_assoc (a b c : string) : (a +++ b) +++ c = a +++ b +++ c.
Proof.
  induction a as [|x a IH]; simpl; [reflexivity | now rewrite IH].
Qed.

(** *** The text of the manifest *)

Lemma contains_char_newline c :
  contains (String c EmptyString) RecordDialect.lineterminator = Ascii.eqb c "010".
Proof.
  unfold RecordDialect.lineterminator. cbn [contains String.prefix].
  destruct (ascii_dec c "010") as [->|N].
  - reflexivity.
  - rewrite orb_false_r. symmetry. now apply Ascii.eqb_neq.
Qed.

(** [csv.writer] writes a field as the specification words it. *)
Lemma csv_chars_spec s :
  csv_chars s = (escaped s, PyStr.has_char "," s || PyStr.has_char "010" s).
Proof.
  induction s as [|c s IH]; [reflexivity|].
  cbn [csv_chars escaped PyStr.has_char]. rewrite IH.
  rewrite contains_char_newline.
  unfold RecordDialect.quotechar, RecordDialect.escapechar, RecordDialect.delimiter.
  destruct (Ascii.eqb c "034") eqn:Q.
  { apply Ascii.eqb_eq in Q. subst c. reflexivity. }
  destruct (Ascii.eqb c "\") eqn:E.
  { apply Ascii.eqb_eq in E. subst c. reflexivity. }
  cbn [orb].
  destruct (Ascii.eqb c ",") eqn:C.
  { cbn [orb]. reflexivity. }
  destruct (Ascii.eqb c "010") eqn:L.
  { cbn [orb]. now rewrite orb_true_r. }
  reflexivity.
Qed.

Lemma csv_field_field s : csv_field s = field s.
Proof.
  unfold csv_field, field. rewrite csv_chars_spec.
  destruct (_ || _); reflexivity.
Qed.

Lemma all_plain_app a b : all_plain (a +++ b) = all_plain a && all_plain b.
Proof.
  induction a as [|c a IH]; [reflexivity|]. cbn [String.append all_plain].
  now rewrite IH, andb_assoc.
Qed.

Lemma plain_no_char c s :
  plain_char c = false -> all_plain s = true -> PyStr.has_char c s = false.
Proof.
  intros Pc. induction s as [|x s IH]; [reflexivity|].
  cbn [all_plain PyStr.has_char]. intros A. apply andb_true_iff in A as [Px A].
  rewrite (IH A), orb_false_r. apply Ascii.eqb_neq. intros ->. congruence.
Qed.

Lemma escaped_plain s : all_plain s = true -> escaped s = s.
Proof.
  induction s as [|c s IH]; [reflexivity|].
  cbn [all_plain escaped]. intros A. apply andb_true_iff in A as [Pc A].
  rewrite (IH A). unfold plain_char in Pc. apply negb_true_iff in Pc.
  destruct (Ascii.eqb c "034"); [now rewrite !orb_true_r in Pc|].
  destruct (Ascii.eqb c "\"); [now rewrite !orb_true_r in Pc|].
  reflexivity.
Qed.

Lemma field_plain s : all_plain s = true -> field s = s.
Proof.
  intros A. unfold field.
  rewrite (plain_no_char "," s eq_refl A), (plain_no_char "010" s eq_refl A).
  now apply escaped_plain.
Qed.

(** A digit string is plain. *)
Lemma uint_plain u : all_plain (NilZero.string_of_uint u) = true.
Proof.
  assert (G : forall u, all_plain (NilEmpty.string_of_uint u) = true).
  { clear u. induction u as [|u IH|u IH|u IH|u IH|u IH|u IH|u IH|u IH|u IH|u IH];
      [reflexivity|..];
      cbn [NilEmpty.string_of_uint all_plain]; rewrite IH; reflexivity. }
  destruct u; try apply G. reflexivity.
Qed.

Lemma str_of_int_field n : field (str_of_int n) = str_of_int n.
Proof.
  unfold str_of_int, NilZero.string_of_int.
  destruct (Z.to_int n) as [u|u].
  - apply field_plain, uint_plain.
  - unfold field. cbn [PyStr.has_char Ascii.eqb Bool.eqb orb escaped].
    rewrite (plain_no_char "," _ eq_refl (uint_plain u)),
            (plain_no_char "010" _ eq_refl (uint_plain u)).
    now rewrite (escaped_plain _ (uint_plain u)).
Qed.

(** The characters of the alphabet. *)
Lemma b64_char_ok (k : N) :
  (k < 64)%N ->
  exists c, b64_char k = String c EmptyString
            /\ b64_value c = Some k /\ plain_char c = true
            /\ Ascii.eqb c "=" = false.
Proof.
  intros K.
  assert (F : forallb (fun i =>
                match b64_char (N.of_nat i) with
                | String c EmptyString =>
                    match b64_value c with
                    | Some v => N.eqb v (N.of_nat i) && plain_char c
                                && negb (Ascii.eqb c "=")
                    | None => false
                    end
                | _ => false
                end) (seq 0 64) = true) by (vm_compute; reflexivity).
  rewrite forallb_forall in F.
  specialize (F (N.to_nat k)). rewrite N2Nat.id in F.
  assert (I : In (N.to_nat k) (seq 0 64)) by (apply in_seq; lia).
  specialize (F I).
  destruct (b64_char k) as [|c [|? ?]]; try discriminate.
  exists c. destruct (b64_value c) as [v|]; [|discriminate].
  apply andb_true_iff in F as [F1 F3]. apply andb_true_iff in F1 as [F1 F2].
  apply N.eqb_eq in F1. apply negb_true_iff in F3. subst v. auto.
Qed.

Lemma rstrip_eq_cons c s :
  Ascii.eqb c "=" = false -> rstrip_eq (String c s) = String c (rstrip_eq s).
Proof.
  intros N. cbn [rstrip_eq]. rewrite N. destruct (rstrip_eq s); reflexivity.
Qed.

Lemma bytes_ind3 (P : bytes -> Prop) :
  P [] -> (forall a, P [a]) -> (forall a b, P [a; b]) ->
  (forall a b c rest, P rest -> P (a :: b :: c :: rest)) ->
  forall l, P l.
Proof.
  intros H0 H1 H2 H3. fix IH 1. intros [|a [|b [|c rest]]].
  - exact H0.
  - apply H1.
  - apply H2.
  - apply H3, IH.
Qed.

Lemma byte_of_to (b : Byte.byte) (n : N) : n = Byte.to_N b -> Byte.of_N n = Some b.
Proof. intros ->. apply Byte.of_to_N. Qed.

Ltac sextets a b c :=
  pose proof (Byte.to_N_bounded a); pose proof (Byte.to_N_bounded b);
  pose proof (Byte.to_N_bounded c).

(** Stripped of its padding, the encoded text is plain and decodes to the
    bytes encoded. *)
Lemma encode_decode data :
  b64url_decode (rstrip_eq (base64url_encode data)) = Some data
  /\ all_plain (rstrip_eq (base64url_encode data)) = true
  /\ PyStr.has_char "=" (rstrip_eq (base64url_encode data)) = false.
Proof.
  induction data as [ | a | a b | a b c rest (IHd & IHp & IHe)] using bytes_ind3.
  - repeat split; reflexivity.
  - pose proof (Byte.to_N_bounded a) as Ba.
    cbn [base64url_encode]. cbv zeta.
    set (n := (Byte.to_N a * 65536)%N).
    destruct (b64_char_ok (n / 262144)) as (c1 & E1 & V1 & P1 & N1);
      [subst n; zify; Z.to_euclidean_division_equations; lia|].
    destruct (b64_char_ok ((n / 4096) mod 64)) as (c2 & E2 & V2 & P2 & N2);
      [subst n; zify; Z.to_euclidean_division_equations; lia|].
    rewrite E1, E2. cbn [String.append].
    rewrite (rstrip_eq_cons c1 _ N1),
            (rstrip_eq_cons c2 _ N2).
    change (rstrip_eq "==") with EmptyString.
    split; [|split].
    + cbn [b64url_decode]. rewrite V1, V2. cbv zeta.
      assert (M : ((n / 262144 * 64 + (n / 4096) mod 64) mod 16 =? 0)%N = true)
        by (apply N.eqb_eq; subst n; zify; Z.to_euclidean_division_equations; lia).
      rewrite M. cbn [bytes_of N.of_nat N.pow].
      rewrite (byte_of_to a); [reflexivity|].
      subst n. zify. Z.to_euclidean_division_equations. lia.
    + cbn [all_plain]. now rewrite P1, P2.
    + cbn [PyStr.has_char]. now rewrite N1, N2.
  - pose proof (Byte.to_N_bounded a) as Ba. pose proof (Byte.to_N_bounded b) as Bb.
    cbn [base64url_encode]. cbv zeta.
    set (n := (Byte.to_N a * 65536 + Byte.to_N b * 256)%N).
    destruct (b64_char_ok (n / 262144)) as (c1 & E1 & V1 & P1 & N1);
      [subst n; zify; Z.to_euclidean_division_equations; lia|].
    destruct (b64_char_ok ((n / 4096) mod 64)) as (c2 & E2 & V2 & P2 & N2);
      [subst n; zify; Z.to_euclidean_division_equations; lia|].
    destruct (b64_char_ok ((n / 64) mod 64)) as (c3 & E3 & V3 & P3 & N3);
      [subst n; zify; Z.to_euclidean_division_equations; lia|].
    rewrite E1, E2, E3. cbn [String.append].
    rewrite (rstrip_eq_cons c1 _ N1),
            (rstrip_eq_cons c2 _ N2),
            (rstrip_eq_cons c3 _ N3).
    change (rstrip_eq "=") with EmptyString.
    split; [|split].
    + cbn [b64url_decode]. rewrite V1, V2, V3. cbv zeta.
      assert (M : ((n / 262144 * 4096 + (n / 4096) mod 64 * 64 + (n / 64) mod 64)
                   mod 4 =? 0)%N = true)
        by (apply N.eqb_eq; subst n; zify; Z.to_euclidean_division_equations; lia).
      rewrite M. cbn [bytes_of N.of_nat N.pow].
      rewrite (byte_of_to a), (byte_of_to b); [reflexivity| |];
        subst n; zify; Z.to_euclidean_division_equations; lia.
    + cbn [all_plain]. now rewrite P1, P2, P3.
    + cbn [PyStr.has_char]. now rewrite N1, N2, N3.
  - pose proof (Byte.to_N_bounded a) as Ba. pose proof (Byte.to_N_bounded b) as Bb.
    pose proof (Byte.to_N_bounded c) as Bc.
    cbn [base64url_encode]. cbv zeta.
    set (n := (Byte.to_N a * 65536 + Byte.to_N b * 256 + Byte.to_N c)%N).
    destruct (b64_char_ok (n / 262144)) as (c1 & E1 & V1 & P1 & N1);
      [subst n; zify; Z.to_euclidean_division_equations; lia|].
    destruct (b64_char_ok ((n / 4096) mod 64)) as (c2 & E2 & V2 & P2 & N2);
      [subst n; zify; Z.to_euclidean_division_equations; lia|].
    destruct (b64_char_ok ((n / 64) mod 64)) as (c3 & E3 & V3 & P3 & N3);
      [subst n; zify; Z.to_euclidean_division_equations; lia|].
    destruct (b64_char_ok (n mod 64)) as (c4 & E4 & V4 & P4 & N4);
      [subst n; zify; Z.to_euclidean_division_equations; lia|].
    rewrite E1, E2, E3, E4. cbn [String.append].
    rewrite (rstrip_eq_cons c1 _ N1),
            (rstrip_eq_cons c2 _ N2),
            (rstrip_eq_cons c3 _ N3),
            (rstrip_eq_cons c4 _ N4).
    split; [|split].
    + set (tail := rstrip_eq (base64url_encode rest)) in *.
      assert (D : b64url_decode (String c1 (String c2 (String c3 (String c4 tail))))
                  = match bytes_of 3 (n / 262144 * 262144 + (n / 4096) mod 64 * 4096
                                      + (n / 64) mod 64 * 64 + n mod 64)%N,
                          b64url_decode tail with
                    | Some bs, Some more => Some (bs ++ more)
                    | _, _ => None
                    end).
      { cbn [b64url_decode]. rewrite V1, V2, V3, V4. reflexivity. }
      rewrite D, IHd. cbn [bytes_of N.of_nat N.pow].
      rewrite (byte_of_to a), (byte_of_to b), (byte_of_to c); [reflexivity| | |];
        subst n; zify; Z.to_euclidean_division_equations; lia.
    + cbn [all_plain]. now rewrite P1, P2, P3, P4.
    + cbn [PyStr.has_char]. now rewrite N1, N2, N3, N4.
Qed.

(** The row [close] writes for an item of [__record]. *)
Lemma record_row_text `{Runtime} p hash size :
  writerow (record_row (p, (hash, size))) =
  file_row (Path.as_posix p) (rstrip_eq (base64url_encode (sha256_digest hash))) size.
Proof.
  unfold writerow, record_row, file_row, RecordDialect.delimiter,
    RecordDialect.lineterminator, newline.
  cbn [map join cell_str].
  rewrite !csv_field_field, str_of_int_field.
  destruct (encode_decode (sha256_digest hash)) as (_ & P & _).
  rewrite (field_plain ("sha256" +++ "=" +++ _)).
  - repeat first [rewrite append_assoc | progress cbn [String.append]]. reflexivity.
  - cbn [String.append all_plain]. exact P.
Qed.

Lemma own_row_text (p : PurePosixPath) :
  writerow [CPath p; CNone; CNone] = own_row (Path.as_posix p).
Proof.
  unfold writerow, own_row, RecordDialect.delimiter,
    RecordDialect.lineterminator, newline.
  cbn [map join cell_str].
  rewrite csv_field_field. change (csv_field "") with "".
  repeat first [rewrite append_assoc | progress cbn [String.append]]. reflexivity.
Qed.

(** C9.  A builder whose records are those of members written and whose
    staged metadata files came with their hash objects, sealed by [close]:
    the last member written is [RECORD], under the metadata directory.  Its
    text is a sequence of rows and then the row of [RECORD] itself, which is
    its path followed by two empty fields.  Every row before is that of a
    member written earlier: the member's path, [sha256=] followed by text
    without [=] that decodes, as base64url, to the digest of the member's
    bytes, and the number of these bytes in decimal.  Fields are separated by
    commas, a row ends with a line feed, and a path is written as [field]
    says: double quotes and backslashes after a backslash, and between
    double quotes when it holds a comma or a line feed.  So the row of
    [RECORD] is the only one whose second and third fields are empty. *)
Theorem close_record `{Runtime} self self' :
  fp self = true ->
  record_ok self ->
  staged_ok self ->
  close self = Ok self' ->
  exists prefix zinfo earlier rows,
    __dist_info_prefix self = Some prefix
    /\ fp self' = false
    /\ filename zinfo = Path.as_posix (Path.joinpath prefix "RECORD")
    /\ filelist self' =
         earlier ++ [(zinfo, list_byte_of_string
                               (String.concat "" rows +++ own_row (filename zinfo)))]
    /\ Forall (fun row =>
                 exists m path digest,
                   In m earlier
                   /\ (path = filename (fst m)
                       \/ path = Path.as_posix (Path.of_str (filename (fst m))))
                   /\ b64url_decode digest = Some (sha256_digest (snd m))
                   /\ PyStr.has_char "=" digest = false
                   /\ file_size (fst m) = Z.of_nat (List.length (snd m))
                   /\ row = file_row path digest (file_size (fst m))) rows.
Proof.
  intros Hfp Hok Hst E. unfold close in E. rewrite Hfp in E. cbn [negb] in E.
  destruct (__dist_info_prefix self) as [prefix|] eqn:Ep; [|discriminate].
  cbn [bind] in E.
  inv_bind E. rename a into items. rename E0 into Ei.
  inv_bind E. rename a into self1. rename E0 into Ef.
  cbn [__record set_dist_info] in E.
  inv_bind E. rename a into record. rename E0 into Er.
  cbn [__modified set_record] in E.
  inv_bind E. rename a into zinfo. rename E0 into Ez.
  inv_bind E. destruct a as [self2 zinfo2]. rename E0 into Ew.
  injection E as <-.
  unfold staged_ok in Hst. unfold the_dict in Ei, Er.
  destruct (__dist_info self) as [d|]; [|discriminate]. injection Ei as <-.
  destruct (__record self1) as [rec1|] eqn:Er1; [|discriminate]. injection Er as <-.
  destruct (flush_dist_info_spec prefix d Hst self self1 Ef Hok)
    as (Hok1 & (more & Hfl) & Hfp1 & _ & _).
  unfold write_member in Ew. cbn [fp set_record set_dist_info] in Ew.
  rewrite Hfp1, Hfp in Ew. cbn [negb] in Ew. injection Ew as <- <-.
  apply make_zipinfo_Ok in Ez.
  destruct Ez as (k & d0 & dd & Ek & _ & _ & _ & _ & _ & Hname & _).
  assert (Kreg : k = stat.S_IFREG)
    by (vm_compute in Ek; injection Ek as <-; reflexivity).
  subst k. change (stat.S_ISDIR stat.S_IFREG) with false in Hname.
  cbn [to_path] in Hname.
  exists prefix,
         (Zip.set_file_size zinfo
            (Z.of_nat (List.length
               (list_byte_of_string
                  (record_text rec1 (Path.joinpath prefix "RECORD")))))),
         (filelist self1),
         (map (fun item => writerow (record_row item)) rec1).
  split; [reflexivity|]. split; [reflexivity|]. split; [exact Hname|].
  split.
  { cbn [filelist set_closed set_filelist set_record set_dist_info
         Zip.set_file_size filename].
    rewrite Hname. unfold record_text. rewrite own_row_text. reflexivity. }
  unfold record_ok in Hok1. rewrite Er1 in Hok1.
  apply Forall_map. revert Hok1. apply Forall_impl.
  intros [p [h size]] (m & Hm & R1 & R2 & R3). cbn [fst snd] in *.
  injection R1 as -> ->.
  destruct (encode_decode (sha256_digest (snd m))) as (Dd & _ & De).
  exists m, (Path.as_posix p),
         (rstrip_eq (base64url_encode (sha256_digest (snd m)))).
  split; [exact Hm|]. split.
  { destruct R3 as [R3 | R3]; [right; now rewrite R3 | left; now symmetry]. }
  split; [exact Dd|]. split; [exact De|]. split; [exact R2|].
  apply record_row_text.
Qed.

(** The two invariants hold of a fresh builder and are kept by [add_tree]. *)
Lemma init_ok `{Runtime} tz :
  record_ok (__init__ tz) /\ staged_ok (__init__ tz) /\ fp (__init__ tz) = true.
Proof. repeat split; constructor. Qed.

Lemma add_files_ok files :
  forall self self',
    add_files self files = Ok self' ->
    record_ok self ->
    record_ok self'
    /\ __dist_info self' = __dist_info self
    /\ fp self' = fp self
    /\ exists more, filelist self' = filelist self ++ more.
Proof.
  induction files as [|[path zinfo] files IH]; intros self self' E Hok.
  - injection E as <-. repeat split; auto. exists []. now rewrite app_nil_r.
  - cbn [add_files] in E. inv_bind E. destruct a as [self1 zinfo1].
    inv_bind E. rename a into record.
    unfold write_member in E0. destruct (negb (fp self)); [discriminate|].
    injection E0 as <- <-. cbn [__record set_filelist] in E1.
    unfold the_dict in E1. destruct (__record self) as [rec0|] eqn:Er; [|discriminate].
    injection E1 as <-.
    apply IH in E.
    + destruct E as (Hok' & Hd & Hfp & (more & Hfl)).
      repeat split; auto. cbn in Hfl. rewrite <- app_assoc in Hfl. eauto.
    + unfold record_ok in *. cbn. rewrite Er in Hok.
      apply dict_set_Forall.
      * now apply recorded_mono.
      * eexists. split; [apply in_or_app; right; now left|].
        unfold recorded. cbn [fst snd Zip.set_file_size file_size filename].
        split; [reflexivity | split; [reflexivity | now left]].
Qed.

Lemma stage_files_ok rel files :
  forall d, Forall staged d -> Forall staged (stage_files rel files d).
Proof.
  induction files as [|[path z] files IH]; intros d F; simpl; [assumption|].
  apply IH. apply dict_set_Forall; [assumption | reflexivity].
Qed.

Lemma add_dirs_ok dirs :
  forall self self',
    add_dirs self dirs = Ok self' ->
    record_ok self -> staged_ok self ->
    record_ok self' /\ staged_ok self' /\ fp self' = fp self.
Proof.
  induction dirs as [|[[dir|dir] files] dirs IH]; intros self self' E Hok Hst.
  - injection E as <-. auto.
  - cbn [add_dirs] in E. inv_bind E. rename a into self1.
    unfold _add_dir in E0. inv_bind E0. clear a E1.
    inv_bind E0. rename a into self0.
    assert (H0 : record_ok self0 /\ __dist_info self0 = __dist_info self
                 /\ fp self0 = fp self).
    { destruct (negb (contains (filename dir) "./")).
      - unfold mkdir in E1. destruct (negb (Zip.is_dir dir)); [discriminate|].
        destruct (negb (fp self)); [discriminate|]. injection E1 as <-.
        repeat split; auto. unfold record_ok in *. cbn.
        destruct (__record self); [|exact I]. now apply recorded_mono.
      - injection E1 as <-. auto. }
    destruct H0 as (Hok0 & Hd0 & Hfp0).
    destruct (add_files_ok _ _ _ E0 Hok0) as (Hok1 & Hd1 & Hfp1 & _).
    destruct (IH _ _ E Hok1) as (Hok' & Hst' & Hfp').
    + unfold staged_ok in *. now rewrite Hd1, Hd0.
    + repeat split; auto. congruence.
  - cbn [add_dirs] in E. inv_bind E. rename a into self1.
    unfold _add_dist_info in E0. inv_bind E0. inv_bind E0. inv_bind E0.
    injection E0 as <-.
    destruct (IH _ _ E) as (Hok' & Hst' & Hfp').
    + exact Hok.
    + unfold staged_ok in *. cbn. unfold the_dict in E3.
      destruct (__dist_info self); [|discriminate]. injection E3 as <-.
      apply stage_files_ok. apply dict_set_Forall; [assumption | exact I].
    + repeat split; auto.
Qed.

Lemma add_tree_ok `{Runtime} self root t self' :
  add_tree self root t = Ok self' ->
  record_ok self -> staged_ok self ->
  record_ok self' /\ staged_ok self' /\ fp self' = fp self.
Proof.
  unfold add_tree. intros E Hok Hst. inv_bind E. destruct a as [dt dirs].
  apply add_dirs_ok in E; [|destruct (tuple_ltb (__modified self) dt); assumption..].
  destruct E as (Hok' & Hst' & Hfp'). repeat split; auto.
  rewrite Hfp'. now destruct (tuple_ltb (__modified self) dt).
Qed.

(** The example build succeeds and leaves an open builder that meets the
    two invariants. *)
Lemma packaged_built :
  @add_tree Env.utc_runtime Env.wheel0 (PStr ".") Env.listing1 = Ok Env.packaged.
Proof.
  unfold Env.packaged.
  destruct (@add_tree Env.utc_runtime Env.wheel0 (PStr ".") Env.listing1)
    as [w|e] eqn:E; [reflexivity|].
  exfalso. apply (f_equal is_ok) in E. vm_compute in E. discriminate E.
Qed.

Lemma archive_built :
  @add_tree Env.utc_runtime Env.packaged (PStr "pkg-1.0.dist-info") Env.metadata
  = Ok Env.archive.
Proof.
  unfold Env.archive.
  destruct (@add_tree Env.utc_runtime Env.packaged (PStr "pkg-1.0.dist-info")
              Env.metadata) as [w|e] eqn:E; [reflexivity|].
  exfalso. apply (f_equal is_ok) in E. vm_compute in E. discriminate E.
Qed.

Lemma archive_ok :
  fp Env.archive = true /\ record_ok Env.archive /\ staged_ok Env.archive.
Proof.
  destruct (@init_ok Env.utc_runtime Env.utc) as (I1 & I2 & I3).
  destruct (@add_tree_ok Env.utc_runtime _ _ _ _ packaged_built I1 I2)
    as (J1 & J2 & J3).
  destruct (@add_tree_ok Env.utc_runtime _ _ _ _ archive_built J1 J2)
    as (K1 & K2 & K3).
  split; [|split; assumption]. rewrite K3, J3. exact I3.
Qed.

Lemma archive_sealed :
  match @close Env.utc_runtime Env.archive with
  | Ok w => Some (Env.last_member w)
  | Raise _ => None
  end =
  Some ("pkg-1.0.dist-info/RECORD",
        "A.py,sha256=QQ,1" +++ newline
        +++ "b.py,sha256=Yg,1" +++ newline
        +++ "pkg/y.py,sha256=eQ,1" +++ newline
        +++ "pkg-1.0.dist-info/METADATA,sha256=TmFtZTogcGtn,9" +++ newline
        +++ "pkg-1.0.dist-info/WHEEL,sha256=V2hlZWwtVmVyc2lvbjogMS4w,18" +++ newline
        +++ "pkg-1.0.dist-info/RECORD,," +++ newline).
Proof. vm_compute. reflexivity. Qed.

(** The statement at the build of a package and its metadata directory, on a
    machine set to UTC, where the stand-in for SHA-256 leaves the digest of
    a short file equal to its bytes: the text of [RECORD]. *)
Lemma close_record_witness :
  exists w',
    @close Env.utc_runtime Env.archive = Ok w'
    /\ fp w' = false
    /\ Env.last_member w' =
       ("pkg-1.0.dist-info/RECORD",
        "A.py,sha256=QQ,1" +++ newline
        +++ "b.py,sha256=Yg,1" +++ newline
        +++ "pkg/y.py,sha256=eQ,1" +++ newline
        +++ "pkg-1.0.dist-info/METADATA,sha256=TmFtZTogcGtn,9" +++ newline
        +++ "pkg-1.0.dist-info/WHEEL,sha256=V2hlZWwtVmVyc2lvbjogMS4w,18" +++ newline
        +++ "pkg-1.0.dist-info/RECORD,," +++ newline).
Proof.
  pose proof archive_sealed as S.
  destruct (@close Env.utc_runtime Env.archive) as [w'|e] eqn:C; [|discriminate S].
  exists w'. split; [reflexivity|].
  destruct archive_ok as (A1 & A2 & A3).
  destruct (@close_record Env.utc_runtime Env.archive w' A1 A2 A3 C)
    as (prefix & zinfo & earlier & rows & _ & F & _).
  split; [exact F|]. injection S as S. exact S.
Defined.

(** ** Strings *)

Lemma append_nil_r (a : string) : a +++ "" = a.
Proof. induction a as [|x a IH]; simpl; [reflexivity | now rewrite IH]. Qed.

Lemma string_rev_app (a b : string) :
  string_rev (a +++ b) = string_rev b +++ string_rev a.
Proof.
  induction a as [|x a IH]; simpl.
  - now rewrite append_nil_r.
  - now rewrite IH, append_assoc.
Qed.

Lemma string_rev_involutive (a : string) : string_rev (string_rev a) = a.
Proof.
  induction a as [|x a IH]; simpl; [reflexivity|].
  rewrite string_rev_app, IH. reflexivity.
Qed.

Lemma has_char_app c (a b : string) :
  PyStr.has_char c (a +++ b) = PyStr.has_char c a || PyStr.has_char c b.
Proof.
  induction a as [|x a IH]; simpl; [reflexivity|]. now rewrite IH, orb_assoc.
Qed.

Lemma has_char_rev c (a : string) :
  PyStr.has_char c (string_rev a) = PyStr.has_char c a.
Proof.
  induction a as [|x a IH]; simpl; [reflexivity|].
  rewrite has_char_app, IH. simpl. rewrite orb_false_r. apply orb_comm.
Qed.

Lemma prefix_split (p s : string) :
  String.prefix p s = true -> exists y, s = p +++ y.
Proof.
  revert s. induction p as [|x p IH]; intros s E.
  - exists s. reflexivity.
  - destruct s as [|c s]; [discriminate|]. simpl in E.
    destruct (ascii_dec x c) as [<-|]; [|discriminate].
    destruct (IH s E) as (y & ->). exists y. reflexivity.
Qed.

Lemma prefix_app (p y : string) : String.prefix p (p +++ y) = true.
Proof.
  induction p as [|x p IH]; simpl; [now destruct y|].
  destruct (ascii_dec x x); [exact IH | congruence].
Qed.

Lemma endswith_app (d p : string) : endswith (d +++ p) p = true.
Proof. unfold endswith. rewrite string_rev_app. apply prefix_app. Qed.

Lemma endswith_split (s p : string) :
  endswith s p = true -> exists x, s = x +++ p.
Proof.
  unfold endswith. intros E. apply prefix_split in E as (y & E).
  exists (string_rev y).
  rewrite <- (string_rev_involutive s), E, string_rev_app.
  now rewrite string_rev_involutive.
Qed.

(** A string is cut in one way only at its last separator. *)
Lemma last_sep_unique c (a b a' b' : string) :
  PyStr.has_char c b = false -> PyStr.has_char c b' = false ->
  a +++ String c b = a' +++ String c b' -> a = a' /\ b = b'.
Proof.
  intros Hb Hb'. revert a'. induction a as [|x a IH]; intros [|x' a'] E; simpl in E.
  - injection E as ->. auto.
  - injection E as <- ->. rewrite has_char_app in Hb. simpl in Hb.
    rewrite Ascii.eqb_refl, orb_true_r in Hb. discriminate.
  - injection E as -> <-. rewrite has_char_app in Hb'. simpl in Hb'.
    rewrite Ascii.eqb_refl, orb_true_r in Hb'. discriminate.
  - injection E as <- E. destruct (IH _ E) as (-> & ->). auto.
Qed.

Lemma split_no_sep sep (s : string) :
  PyStr.has_char sep s = false -> split sep s = [s].
Proof.
  induction s as [|x s IH]; simpl; [reflexivity|].
  intros E. apply orb_false_iff in E as (E1 & E2).
  rewrite E1, (IH E2). reflexivity.
Qed.

Lemma split_app_sep sep (x y : string) :
  PyStr.has_char sep x = false ->
  split sep (x +++ String sep y) = x :: split sep y.
Proof.
  induction x as [|c x IH]; simpl.
  - intros _. now rewrite Ascii.eqb_refl.
  - intros E. apply orb_false_iff in E as (E1 & E2). now rewrite E1, (IH E2).
Qed.

Lemma split_max_0 sep (s : string) : PyStr.split_max sep 0 s = [s].
Proof. now destruct s. Qed.

Lemma split_max_no_sep sep n (s : string) :
  PyStr.has_char sep s = false -> PyStr.split_max sep n s = [s].
Proof.
  induction s as [|x s IH]; simpl; [reflexivity|].
  intros E. apply orb_false_iff in E as (E1 & E2).
  destruct n; [reflexivity|]. rewrite E1, (IH E2). reflexivity.
Qed.

Lemma split_max_app_sep sep n (x y : string) :
  PyStr.has_char sep x = false ->
  PyStr.split_max sep (S n) (x +++ String sep y) = x :: PyStr.split_max sep n y.
Proof.
  induction x as [|c x IH]; simpl.
  - intros _. now rewrite Ascii.eqb_refl.
  - intros E. apply orb_false_iff in E as (E1 & E2). now rewrite E1, (IH E2).
Qed.

Lemma rsplit_max_no_sep sep n (s : string) :
  PyStr.has_char sep s = false -> PyStr.rsplit_max sep n s = [s].
Proof.
  intros E. unfold PyStr.rsplit_max.
  rewrite split_max_no_sep by now rewrite has_char_rev.
  simpl. now rewrite string_rev_involutive.
Qed.

Lemma rsplit_max_0 sep (s : string) : PyStr.rsplit_max sep 0 s = [s].
Proof.
  unfold PyStr.rsplit_max. rewrite split_max_0. simpl.
  now rewrite string_rev_involutive.
Qed.

(** Splitting from the right takes the part after the last separator. *)
Lemma rsplit_max_snoc sep n (a b : string) :
  PyStr.has_char sep b = false ->
  PyStr.rsplit_max sep (S n) (a +++ String sep b) = PyStr.rsplit_max sep n a ++ [b].
Proof.
  intros E. unfold PyStr.rsplit_max.
  rewrite string_rev_app. simpl string_rev at 1.
  rewrite append_assoc. simpl.
  rewrite split_max_app_sep by now rewrite has_char_rev.
  simpl. now rewrite string_rev_involutive.
Qed.

Lemma substring_0_app (d p : string) :
  String.substring 0 (String.length d) (d +++ p) = d.
Proof.
  induction d as [|x d IH]; simpl; [now destruct p | now rewrite IH].
Qed.

Lemma length_app (a b : string) :
  String.length (a +++ b) = (String.length a + String.length b)%nat.
Proof. induction a as [|x a IH]; simpl; [reflexivity | now rewrite IH]. Qed.

Lemma removesuffix_app (d p : string) : removesuffix (d +++ p) p = d.
Proof.
  unfold removesuffix. rewrite endswith_app, length_app.
  replace (String.length d + String.length p - String.length p)%nat
    with (String.length d) by lia.
  apply substring_0_app.
Qed.

(** ** The version deriver *)

Lemma not_dirty (x hash : string) :
  PyStr.has_char "-" hash = false ->
  endswith (x +++ String "-" ("g" +++ hash)) "-dirty" = false.
Proof.
  intros Hh. destruct (endswith _ _) eqn:E; [|reflexivity].
  apply endswith_split in E as (y & E).
  change (y +++ "-dirty") with (y +++ String "-" "dirty") in E.
  apply last_sep_unique in E as (_ & E); [discriminate E | | reflexivity].
  simpl. exact Hh.
Qed.

Lemma join_cons sep x (l : list string) :
  l <> [] -> join sep (x :: l) = x +++ sep +++ join sep l.
Proof. destruct l; [congruence | reflexivity]. Qed.

Lemma join_last_app sep (l : list string) (a b : string) :
  join sep (l ++ [a]) +++ b = join sep (l ++ [a +++ b]).
Proof.
  induction l as [|x l IH]; [reflexivity|].
  cbn [app]. rewrite !join_cons by (destruct l; discriminate).
  now rewrite !append_assoc, IH.
Qed.

Lemma join_snoc sep (l : list string) (a : string) :
  l <> [] -> join sep (l ++ [a]) = join sep l +++ sep +++ a.
Proof.
  induction l as [|x l IH]; [congruence|]. intros _.
  destruct l as [|y l]; [reflexivity|].
  cbn [app]. rewrite (join_cons sep x) by discriminate.
  rewrite (join_cons sep x (y :: l)) by discriminate.
  cbn [app] in IH. rewrite IH by discriminate. now rewrite !append_assoc.
Qed.

(** Splitting at the separator undoes joining. *)
Lemma split_join sep (l : list string) (a : string) :
  Forall (fun x => PyStr.has_char sep x = false) l ->
  PyStr.has_char sep a = false ->
  split sep (join (String sep EmptyString) (l ++ [a])) = l ++ [a].
Proof.
  intros F Ha. induction F as [|x l Hx F IH]; cbn [app].
  - now apply split_no_sep.
  - rewrite join_cons by (destruct l; discriminate).
    cbn [String.append]. rewrite (split_app_sep sep x _ Hx), IH. reflexivity.
Qed.

(** The last path segment of a ref name. *)
Lemma last_segment (dirs : list string) (vs : string) :
  PyStr.has_char "/" vs = false ->
  last (PyStr.rsplit_max "/" 1 (join "/" (dirs ++ [vs]))) "" = vs.
Proof.
  intros Hv. destruct dirs as [|d dirs].
  - cbn [app join]. now rewrite rsplit_max_no_sep.
  - rewrite join_snoc by discriminate.
    change (join "/" (d :: dirs) +++ "/" +++ vs)
      with (join "/" (d :: dirs) +++ String "/" vs).
    rewrite (rsplit_max_snoc "/" 0 _ vs Hv). apply last_last.
Qed.

(** A ref that is retained ends in a version. *)
Lemma retained_is_version `{Packaging} sr refs name :
  retained_refs sr = Ok refs -> In name refs ->
  is_version (last (PyStr.rsplit_max "/" 1 name) "") = true.
Proof.
  unfold retained_refs. intros E I. inv_bind E. injection E as <-.
  now apply filter_In in I as [_ I].
Qed.

(** [version_of_describe] on an answer of the long shape
    [<bucket>/<name>-<count>-g<hash>], with or without the dirty marker,
    where the name is a version or a path ending in one. *)
Lemma version_of_describe_long `{Packaging} head bucket dirs vs cnt n hash (dirty : bool) :
  bucket = "tags" \/ bucket = "heads" ->
  Forall (fun x => PyStr.has_char "/" x = false) dirs ->
  PyStr.has_char "/" vs = false ->
  PyStr.has_char "-" cnt = false -> PyStr.has_char "/" cnt = false ->
  PyStr.has_char "-" hash = false -> PyStr.has_char "/" hash = false ->
  PyStr.int cnt = Ok n ->
  let v := if is_version vs then parse_version vs else Ver.zero in
  let segments :=
    (if trunk head then [] else [head])
    ++ dirs
    ++ (if is_version vs
        then match local v with Some l => [l] | None => [] end
        else [vs])
    ++ (if negb (n =? 0) || dirty then ["g" +++ hash] else [])
    ++ (if dirty then ["dirty"] else []) in
  version_of_describe head
    (join "/" (bucket :: dirs ++ [vs +++ "-" +++ cnt +++ "-g" +++ hash])
     +++ (if dirty then "-dirty" else ""))
  = Ok (Ver.base_version v
        +++ match pre v with Some (l, k) => l +++ str_of_int k | None => "" end
        +++ (if negb (n =? 0) || dirty
                || match post v with Some _ => true | None => false end
             then ".post" +++ str_of_int (match post v with Some k => k | None => 0 end + n)
             else "")
        +++ match dev v with Some k => ".dev" +++ str_of_int k | None => "" end
        +++ match segments with [] => "" | _ => "+" +++ join "." segments end).
Proof.
  intros Hb Hds Hn Hc1 Hc2 Hh1 Hh2 Hint v segments.
  set (rest := (vs +++ String "-" cnt) +++ String "-" ("g" +++ hash)).
  assert (Erest : vs +++ "-" +++ cnt +++ "-g" +++ hash = rest).
  { unfold rest. cbn [String.append]. now rewrite append_assoc. }
  rewrite Erest.
  assert (Hrest : PyStr.has_char "/" rest = false).
  { unfold rest. rewrite !has_char_app. simpl. rewrite ?has_char_app. simpl.
    now rewrite Hn, Hc2, Hh2. }
  assert (Hbs : PyStr.has_char "/" bucket = false)
    by (destruct Hb as [-> | ->]; reflexivity).
  set (whole := join "/" (bucket :: dirs ++ [rest])).
  assert (Ewhole : exists x, whole = x +++ String "-" ("g" +++ hash)).
  { unfold whole. change (bucket :: dirs ++ [rest]) with ((bucket :: dirs) ++ [rest]).
    unfold rest. rewrite <- join_last_app. eauto. }
  assert (Edirty : endswith (whole +++ (if dirty then "-dirty" else "")) "-dirty"
                   = dirty).
  { destruct dirty; [apply endswith_app|]. rewrite append_nil_r.
    destruct Ewhole as (x & ->). now apply not_dirty. }
  assert (Estrip : removesuffix (whole +++ (if dirty then "-dirty" else "")) "-dirty"
                   = whole).
  { destruct dirty; [apply removesuffix_app|]. rewrite append_nil_r.
    unfold removesuffix. rewrite append_nil_r in Edirty. now rewrite Edirty. }
  unfold version_of_describe. rewrite Edirty, Estrip.
  unfold whole. change (bucket :: dirs ++ [rest]) with ((bucket :: dirs) ++ [rest]).
  rewrite (split_join "/" (bucket :: dirs) rest (Forall_cons _ Hbs Hds) Hrest).
  rewrite removelast_last, last_last.
  assert (Eb : (String.eqb bucket "heads" || String.eqb bucket "tags") = true)
    by (destruct Hb as [-> | ->]; reflexivity).
  rewrite Eb.
  assert (Eparts : PyStr.rsplit_max "-" 2 rest = [vs; cnt; "g" +++ hash]).
  { unfold rest. rewrite rsplit_max_snoc by (simpl; exact Hh1).
    rewrite rsplit_max_snoc by exact Hc1. now rewrite rsplit_max_0. }
  rewrite Eparts. subst v segments.
  destruct (is_version vs); [destruct (local (parse_version vs))|];
    cbn [bind]; rewrite Hint; cbn [bind];
    destruct (trunk head), (negb (n =? 0)), dirty;
    cbn [negb orb app bind];
    rewrite ?app_nil_r, <- ?app_assoc; cbn [app join String.append];
    repeat (rewrite append_assoc; cbn [String.append]);
    rewrite ?append_nil_r; reflexivity.
Qed.

(** [get_version_from_git] once the three commands have answered. *)
Lemma get_version_from_git_eq `{Packaging} `{Git} head_out sr refs d_out :
  symbolic_ref = Ok head_out ->
  show_ref = Ok sr ->
  retained_refs sr = Ok refs ->
  describe (Z.of_nat (List.length refs)) refs = Ok d_out ->
  get_version_from_git = version_of_describe (PyStr.strip head_out) (PyStr.strip d_out).
Proof.
  intros E1 E2 E3 E4. unfold get_version_from_git.
  rewrite E1. cbn [bind]. rewrite E2. cbn [bind]. rewrite E3. cbn [bind].
  rewrite E4. reflexivity.
Qed.

(** C6.  When the patterns given to [describe] are the refs retained and
    it answers [<bucket>/<ref>-<count>-g<hash>] for one of them, a tag or a
    branch, followed by [-dirty] for a tree with uncommitted changes: the
    last path segment of the ref is a version, and the version returned is
    its base version and pre-release marker, then [.postN] exactly when the
    count is not zero, the tree is dirty or the matched version has a post
    number, [N] being that post number (or 0) plus the count, then the dev
    marker, then [+] and the local segments joined by dots: the branch unless
    it is a trunk branch, the path segments of the ref before the version,
    the local part of the matched version, [g<hash>] when the count is not
    zero or the tree is dirty, and [dirty] for a dirty tree. *)
Theorem version_with_drift `{Packaging} `{Git}
    head_out sr refs d_out bucket dirs vs cnt n hash (dirty : bool) :
  symbolic_ref = Ok head_out ->
  show_ref = Ok sr ->
  retained_refs sr = Ok refs ->
  describe (Z.of_nat (List.length refs)) refs = Ok d_out ->
  In (join "/" (dirs ++ [vs])) refs ->
  PyStr.strip d_out =
    join "/" (bucket :: dirs ++ [vs +++ "-" +++ cnt +++ "-g" +++ hash])
    +++ (if dirty then "-dirty" else "") ->
  bucket = "tags" \/ bucket = "heads" ->
  Forall (fun x => PyStr.has_char "/" x = false) dirs ->
  PyStr.has_char "/" vs = false ->
  PyStr.has_char "-" cnt = false -> PyStr.has_char "/" cnt = false ->
  PyStr.has_char "-" hash = false -> PyStr.has_char "/" hash = false ->
  PyStr.int cnt = Ok n ->
  let head := PyStr.strip head_out in
  let v := parse_version vs in
  let segments :=
    (if String.eqb head "main" || String.eqb head "master"
        || String.eqb head "develop"
     then [] else [head])
    ++ dirs
    ++ match local v with Some l => [l] | None => [] end
    ++ (if negb (n =? 0) || dirty then ["g" +++ hash] else [])
    ++ (if dirty then ["dirty"] else []) in
  is_version vs = true
  /\ get_version_from_git =
     Ok (Ver.base_version v
         +++ match pre v with Some (l, k) => l +++ str_of_int k | None => "" end
         +++ (if negb (n =? 0) || dirty
                 || match post v with Some _ => true | None => false end
              then ".post"
                   +++ str_of_int (match post v with Some k => k | None => 0 end + n)
              else "")
         +++ match dev v with Some k => ".dev" +++ str_of_int k | None => "" end
         +++ match segments with [] => "" | _ => "+" +++ join "." segments end).
Proof.
  intros E1 E2 E3 E4 Hin Ed Hb Hds Hn Hc1 Hc2 Hh1 Hh2 Hint head v segments.
  pose proof (retained_is_version sr refs _ E3 Hin) as Hv.
  rewrite (last_segment dirs vs Hn) in Hv.
  split; [exact Hv|].
  rewrite (get_version_from_git_eq _ _ _ _ E1 E2 E3 E4), Ed.
  pose proof (version_of_describe_long head bucket dirs vs cnt n hash dirty
                Hb Hds Hn Hc1 Hc2 Hh1 Hh2 Hint) as L.
  cbv zeta in L. rewrite Hv in L. exact L.
Qed.

(** The statement at the repository three commits past [v1.2.3], on
    [feature-x], with uncommitted changes. *)
Lemma version_with_drift_witness :
  @get_version_from_git Env.release_only Env.drifted
  = Ok "1.2.3.post3+feature-x.g3333333.dirty".
Proof.
  exact (proj2 (@version_with_drift Env.release_only Env.drifted
           ("feature-x" +++ newline) _ ["v1.2.3"] _ "tags" [] "v1.2.3" "3" 3
           "3333333" true
           eq_refl eq_refl eq_refl eq_refl (or_introl eq_refl) eq_refl
           (or_introl eq_refl) (Forall_nil _)
           eq_refl eq_refl eq_refl eq_refl eq_refl eq_refl)).
Defined.

(** C5.  At a clean checkout on a trunk branch for which [describe], given
    the refs retained as patterns, answers [tags/<tag>-0-g<hash>] for one of
    them: the version returned is the normalized form of the version the tag
    ends in, its local part included, after the path segments of the tag
    that come before the version.  For a tag that is a version this is the
    normalized form of the tag, and it has no [+] part when the tag has no
    local part. *)
Theorem version_at_clean_tag `{Packaging} `{Git}
    head_out sr refs d_out dirs vs hash :
  symbolic_ref = Ok head_out ->
  PyStr.strip head_out = "main" \/ PyStr.strip head_out = "master"
  \/ PyStr.strip head_out = "develop" ->
  show_ref = Ok sr ->
  retained_refs sr = Ok refs ->
  describe (Z.of_nat (List.length refs)) refs = Ok d_out ->
  In (join "/" (dirs ++ [vs])) refs ->
  PyStr.strip d_out = join "/" ("tags" :: dirs ++ [vs +++ "-0-g" +++ hash]) ->
  Forall (fun x => PyStr.has_char "/" x = false) dirs ->
  PyStr.has_char "/" vs = false ->
  PyStr.has_char "-" hash = false -> PyStr.has_char "/" hash = false ->
  let v := parse_version vs in
  let public :=
    Ver.base_version v
    +++ match pre v with Some (l, k) => l +++ str_of_int k | None => "" end
    +++ match post v with Some k => ".post" +++ str_of_int k | None => "" end
    +++ match dev v with Some k => ".dev" +++ str_of_int k | None => "" end in
  let segments := dirs ++ match local v with Some l => [l] | None => [] end in
  is_version vs = true
  /\ get_version_from_git =
     Ok (public +++ match segments with [] => "" | _ => "+" +++ join "." segments end)
  /\ (dirs = [] -> get_version_from_git = Ok (Ver.str v))
  /\ (dirs = [] -> local v = None -> get_version_from_git = Ok public).
Proof.
  intros E1 Ht' E2 E3 E4 Hin Ed Hds Hn Hh1 Hh2 v public segments.
  assert (Ht : trunk (PyStr.strip head_out) = true)
    by (destruct Ht' as [-> | [-> | ->]]; reflexivity).
  pose proof (retained_is_version sr refs _ E3 Hin) as Hv.
  rewrite (last_segment dirs vs Hn) in Hv.
  assert (G : get_version_from_git =
              Ok (public +++ match segments with
                             | [] => ""
                             | _ => "+" +++ join "." segments
                             end)).
  { rewrite (get_version_from_git_eq _ _ _ _ E1 E2 E3 E4), Ed.
    pose proof (version_of_describe_long (PyStr.strip head_out) "tags" dirs vs "0" 0
                  hash false (or_introl eq_refl) Hds Hn eq_refl eq_refl Hh1 Hh2
                  eq_refl) as L.
    cbv zeta in L. rewrite Hv, Ht in L. cbn [app negb orb Z.eqb] in L.
    rewrite !append_nil_r, app_nil_r in L.
    change (vs +++ "-" +++ "0" +++ "-g" +++ hash) with (vs +++ "-0-g" +++ hash) in L.
    rewrite L. subst public segments v.
    destruct (post (parse_version vs)) as [k|]; [|now rewrite !append_assoc].
    cbn [orb]. rewrite Z.add_0_r. now rewrite !append_assoc. }
  split; [exact Hv|]. split; [exact G|]. split.
  - intros ->. rewrite G. subst public segments. unfold Ver.str. fold v.
    cbn [app]. rewrite !append_assoc.
    destruct (local v); reflexivity.
  - intros -> Hl. rewrite G. subst segments. rewrite Hl. cbn [app].
    now rewrite append_nil_r.
Qed.

(** The statement at the repository whose [HEAD] is the tag [v1.2.3], clean,
    on [main]. *)
Lemma version_at_clean_tag_witness :
  @get_version_from_git Env.release_only Env.at_tag = Ok "1.2.3".
Proof.
  exact (proj1 (proj2 (@version_at_clean_tag Env.release_only Env.at_tag
                  ("main" +++ newline) _ ["v1.2.3"] _ [] "v1.2.3" "2222222"
                  eq_refl (or_introl eq_refl) eq_refl eq_refl eq_refl
                  (or_introl eq_refl)
                  eq_refl (Forall_nil _) eq_refl eq_refl eq_refl))).
Defined.

(** C5, as stated, fails for a tag with a local part: at the repository
    whose [HEAD] is the tag [1.2.3+abc], a version, clean, on [main], the
    version returned is [1.2.3+abc], which has a [+] part. *)
Lemma version_at_clean_tag_counterexample :
  @is_version Env.release_only "1.2.3+abc" = true
  /\ @symbolic_ref Env.at_local_tag = Ok ("main" +++ newline)
  /\ trunk "main" = true
  /\ @get_version_from_git Env.release_only Env.at_local_tag = Ok "1.2.3+abc"
  /\ PyStr.has_char "+" "1.2.3+abc" = true.
Proof. repeat split; vm_compute; reflexivity. Qed.

Lemma no_sep_not_dirty (commit : string) :
  PyStr.has_char "-" commit = false -> endswith commit "-dirty" = false.
Proof.
  intros Hc. destruct (endswith commit "-dirty") eqn:E; [|reflexivity].
  apply endswith_split in E as (x & ->).
  rewrite has_char_app in Hc. simpl in Hc. rewrite orb_true_r in Hc. discriminate.
Qed.

(** [version_of_describe] on the bare abbreviated commit id, with or without
    the dirty marker. *)
Lemma version_of_describe_bare `{Packaging} head commit (dirty : bool) :
  PyStr.has_char "-" commit = false ->
  PyStr.has_char "/" commit = false ->
  version_of_describe head (commit +++ (if dirty then "-dirty" else ""))
  = Ok ("0.0" +++ (if dirty then ".post0" else "")
        +++ "+g" +++ commit +++ (if dirty then ".dirty" else "")).
Proof.
  intros Hd Hs.
  assert (Edirty : endswith (commit +++ (if dirty then "-dirty" else "")) "-dirty"
                   = dirty).
  { destruct dirty; [apply endswith_app|]. rewrite append_nil_r.
    now apply no_sep_not_dirty. }
  assert (Estrip : removesuffix (commit +++ (if dirty then "-dirty" else "")) "-dirty"
                   = commit).
  { destruct dirty; [apply removesuffix_app|]. rewrite append_nil_r.
    unfold removesuffix. now rewrite (no_sep_not_dirty _ Hd). }
  unfold version_of_describe. rewrite Edirty, Estrip.
  rewrite (split_no_sep "/" commit Hs). cbn [removelast last].
  rewrite (rsplit_max_no_sep "-" 2 commit Hd).
  destruct (trunk head), dirty; cbn; rewrite ?append_nil_r; reflexivity.
Qed.

Lemma int_result s : (exists n, PyStr.int s = Ok n) \/ (exists m, PyStr.int s = Raise (ValueError m)).
Proof.
  unfold PyStr.int.
  destruct (PyStr.strip s) as [|c r].
  - destruct (PyStr.literal_value _ _ _); eauto.
  - destruct c as [[] [] [] [] [] [] [] []];
      destruct (PyStr.literal_value _ _ _); eauto.
Qed.

(** The branch that raises [NotImplementedError] is never taken: [rsplit]
    returns at least one part. *)
Lemma never_not_implemented `{Packaging} head d :
  version_of_describe head d <> Raise NotImplementedError.
Proof.
  unfold version_of_describe.
  set (l0 := if negb (trunk head) then _ else _).
  set (dirty := endswith d "-dirty").
  set (parts := PyStr.rsplit_max "-" 2 _).
  assert (Hp : parts <> []).
  { unfold parts, PyStr.rsplit_max.
    set (s := string_rev _).
    assert (Hs : PyStr.split_max "-" 2 s <> []).
    { destruct s as [|c s]; simpl; [discriminate|].
      destruct (Ascii.eqb c "-"); [discriminate|].
      destruct (PyStr.split_max "-" 2 s); discriminate. }
    destruct (PyStr.split_max "-" 2 s) as [|x xs]; [congruence|].
    simpl. intros E. apply app_eq_nil in E as (_ & E). discriminate. }
  destruct parts as [|a [|b [|c [|e r]]]]; [congruence | | | |]; cbn [bind];
    try discriminate.
  destruct (is_version a); [destruct (local (parse_version a))|];
    destruct (int_result b) as [(k & ->) | (m & ->)]; cbn [bind]; discriminate.
Qed.

(** C7.  When [describe], given the refs retained as patterns, yields only
    the abbreviated commit id, none of them being reachable, version
    derivation has a result: whatever the branch, the version [0.0] with the
    one local segment [g<id>], that is [0.0+g<id>], and for a dirty tree
    [0.0.post0+g<id>.dirty].  The branch of the code that raises
    [NotImplementedError] is not reachable. *)
Theorem version_of_bare_commit `{Packaging} `{Git}
    head_out sr refs d_out commit (dirty : bool) :
  symbolic_ref = Ok head_out ->
  show_ref = Ok sr ->
  retained_refs sr = Ok refs ->
  refs <> [] ->
  describe (Z.of_nat (List.length refs)) refs = Ok d_out ->
  PyStr.strip d_out = commit +++ (if dirty then "-dirty" else "") ->
  PyStr.has_char "-" commit = false ->
  PyStr.has_char "/" commit = false ->
  get_version_from_git =
    Ok ("0.0" +++ (if dirty then ".post0" else "")
        +++ "+g" +++ commit +++ (if dirty then ".dirty" else ""))
  /\ forall head d, version_of_describe head d <> Raise NotImplementedError.
Proof.
  intros E1 E2 E3 _ E4 Ed Hd Hs. split.
  - rewrite (get_version_from_git_eq _ _ _ _ E1 E2 E3 E4), Ed.
    now apply version_of_describe_bare.
  - intros head d. apply never_not_implemented.
Qed.

(** The statement at a checkout on [main] from which the only tag named like
    a version cannot be reached. *)
Lemma version_of_bare_commit_witness :
  @get_version_from_git Env.release_only Env.off_history = Ok "0.0+gabcdef0".
Proof.
  exact (proj1 (@version_of_bare_commit Env.release_only Env.off_history
                  ("main" +++ newline) _ ["v0.9"] _ "abcdef0" false
                  eq_refl eq_refl eq_refl ltac:(discriminate)
                  eq_refl eq_refl eq_refl eq_refl)).
Defined.

(** C7, as stated, fails: at that checkout [describe] yields [abcdef0] and
    [get_version_from_git] returns a version instead of raising. *)
Lemma version_of_bare_commit_counterexample :
  @describe Env.off_history 1 ["v0.9"] = Ok ("abcdef0" +++ newline)
  /\ @get_version_from_git Env.release_only Env.off_history = Ok "0.0+gabcdef0"
  /\ forall e, @get_version_from_git Env.release_only Env.off_history <> Raise e.
Proof.
  assert (E : @get_version_from_git Env.release_only Env.off_history
              = Ok "0.0+gabcdef0")
    by (vm_compute; reflexivity).
  split; [reflexivity|]. split; [exact E|]. intros e. rewrite E. discriminate.
Qed.

(* ------------------------------------------------------------------ *)
(** ** The timezone resolver *)
(* ------------------------------------------------------------------ *)

Import Zone SystemTZ.

(** [days_from_civil] undoes [civil_from_days]. *)
Lemma civil_roundtrip n :
  let '(y, m, d) := Calendar.civil_from_days n in
  Calendar.days_from_civil y m d = n.
Proof.
  unfold Calendar.civil_from_days.
  set (z := n + 719468).
  set (era := z / 146097).
  set (doe := z - era * 146097).
  assert (Hdoe : 0 <= doe < 146097).
  { unfold doe, era. Z.div_mod_to_equations. lia. }
  set (yoe := (doe - doe / 1460 + doe / 36524 - doe / 146096) / 365).
  assert (Hyoe : 0 <= yoe < 400).
  { unfold yoe. Z.div_mod_to_equations. lia. }
  set (doy := doe - (365 * yoe + yoe / 4 - yoe / 100)).
  assert (Hdoy : 0 <= doy < 366).
  { unfold doy, yoe. Z.div_mod_to_equations. lia. }
  set (mp := (5 * doy + 2) / 153).
  assert (Hmp : 0 <= mp < 12).
  { unfold mp. Z.div_mod_to_equations. lia. }
  cbv zeta.
  set (m := if mp <? 10 then mp + 3 else mp - 9).
  unfold Calendar.days_from_civil.
  assert (Ey : (if m <=? 2
                then (if m <=? 2 then yoe + era * 400 + 1 else yoe + era * 400) - 1
                else (if m <=? 2 then yoe + era * 400 + 1 else yoe + era * 400))
               = yoe + era * 400).
  { destruct (m <=? 2); lia. }
  rewrite Ey.
  assert (Eera : (yoe + era * 400) / 400 = era).
  { rewrite Z.div_add by lia. rewrite Z.div_small by lia. lia. }
  rewrite Eera.
  assert (Emp : (m + 9) mod 12 = mp).
  { unfold m. destruct (mp <? 10) eqn:E.
    - apply Z.ltb_lt in E.
      replace (mp + 3 + 9) with (mp + 1 * 12) by lia.
      rewrite Z.mod_add by lia. apply Z.mod_small. lia.
    - apply Z.ltb_ge in E. replace (mp - 9 + 9) with mp by lia.
      apply Z.mod_small. lia. }
  rewrite Emp. cbv zeta.
  replace (yoe + era * 400 - era * 400) with yoe by lia.
  unfold doy at 1. unfold doe at 1. unfold z. lia.
Qed.

Lemma gmtime_length x : exists y m d h mi s, Calendar.gmtime x = [y; m; d; h; mi; s].
Proof.
  unfold Calendar.gmtime. destruct (Calendar.civil_from_days (x / 86400)) as [[y m] d].
  now eexists _, _, _, _, _, _.
Qed.

(** [calendar.timegm(time.gmtime(x))] is [x]. *)
Lemma timegm_gmtime x : Calendar.timegm (Calendar.gmtime x) = x.
Proof.
  unfold Calendar.gmtime.
  pose proof (civil_roundtrip (x / 86400)) as R.
  destruct (Calendar.civil_from_days (x / 86400)) as [[y m] d].
  unfold Calendar.timegm. rewrite R.
  Z.div_mod_to_equations. lia.
Qed.

Lemma time_mktime_toggle (libc : LibC) t x :
  time_mktime (tm8 t ++ [x]) = mktime (tm6 t) x.
Proof. reflexivity. Qed.

Lemma mktime_of_make (libc : LibC) (has_fold : bool) t us f :
  _mktime has_fold (make (tm6 t) us f) =
  let secs := mktime (tm6 t) (-1) in
  let t1 := localtime secs in
  if negb has_fold then (t1, (secs, us))
  else if tm_isdst t1 <? 0 then (t1, (secs, us))
  else
    let secs0 := mktime (tm6 t1) (not_int (tm_isdst t1)) in
    if secs0 =? secs then (t1, (secs, us))
    else
      let t0 := localtime secs0 in
      if tm_gmtoff t1 =? tm_gmtoff t0 then (t1, (secs, us))
      else if xorb (tm_gmtoff t0 <? tm_gmtoff t1) (negb (f =? 0))
      then (t1, (secs, us))
      else (t0, (secs0, us)).
Proof. reflexivity. Qed.

Lemma fromutc_make (libc : LibC) dt :
  fromutc true dt =
  let secs := Calendar.timegm (DT.timetuple6 dt) in
  let t := localtime secs in
  let secs0 := mktime (tm6 t) (not_int (tm_isdst t)) in
  make (tm6 t) (microsecond dt)
    (if tm_isdst t <? 0 then 0
     else if secs0 >=? secs then 0
     else if tm_gmtoff t <? tm_gmtoff (localtime secs0) then 1 else 0).
Proof.
  unfold fromutc. cbv zeta. rewrite time_mktime_toggle.
  change [year dt; month dt; day dt; hour dt; minute dt; second dt]
    with (DT.timetuple6 dt).
  cbn [negb].
  destruct (tm_isdst _ <? 0); [reflexivity|].
  destruct (_ >=? _); [reflexivity|]. reflexivity.
Qed.

Section Regular.
Context (libc : LibC).

Lemma same_fields_offsets s1 s2 :
  Zone.regular_at libc s1 -> Zone.regular_at libc s2 ->
  tm6 (localtime s1) = tm6 (localtime s2) ->
  s1 + tm_gmtoff (localtime s1) = s2 + tm_gmtoff (localtime s2).
Proof.
  intros R1 R2 E. rewrite <- (gmtoff_fields _ _ R1), <- (gmtoff_fields _ _ R2).
  now rewrite E.
Qed.

Lemma same_flag_same_instant s1 s2 :
  Zone.regular_at libc s1 -> Zone.regular_at libc s2 ->
  tm6 (localtime s1) = tm6 (localtime s2) ->
  tm_isdst (localtime s1) = tm_isdst (localtime s2) -> s1 = s2.
Proof.
  intros R1 R2 E D.
  rewrite <- (mktime_flag _ _ R1), <- (mktime_flag _ _ R2), E, D. reflexivity.
Qed.

Lemma other_flag s1 s2 :
  Zone.regular_at libc s1 -> Zone.regular_at libc s2 ->
  tm_isdst (localtime s1) <> tm_isdst (localtime s2) ->
  tm_isdst (localtime s2) = not_int (tm_isdst (localtime s1)).
Proof.
  intros R1 R2.
  destruct (isdst_flag _ _ R1) as [-> | ->], (isdst_flag _ _ R2) as [-> | ->];
    intros N; try reflexivity; now elim N.
Qed.

Lemma flag_not_negative s :
  Zone.regular_at libc s -> (tm_isdst (localtime s) <? 0) = false.
Proof.
  intros R. apply Z.ltb_ge. destruct (isdst_flag _ _ R) as [-> | ->]; lia.
Qed.

(** The other occurrence of a repeated local time is what [mktime] returns
    for the toggled flag. *)
Lemma mktime_toggle s1 s2 :
  Zone.regular_at libc s1 -> Zone.regular_at libc s2 ->
  tm6 (localtime s1) = tm6 (localtime s2) -> s1 <> s2 ->
  mktime (tm6 (localtime s1)) (not_int (tm_isdst (localtime s1))) = s2.
Proof.
  intros R1 R2 E N.
  assert (D : tm_isdst (localtime s1) <> tm_isdst (localtime s2)).
  { intros D. apply N. now apply same_flag_same_instant. }
  rewrite <- (other_flag _ _ R1 R2 D), E. apply (mktime_flag _ _ R2).
Qed.

(** For the local value [fromutc] made of an instant, [_mktime] finds the
    broken-down time and the seconds of that instant, when the C library is
    regular at the instant and at the one [mktime] chooses for its local
    time. *)
Lemma mktime_fromutc dt :
  let s := Calendar.timegm (DT.timetuple6 dt) in
  Zone.regular_at libc s ->
  tm6 (localtime (Zone.chosen s)) = tm6 (localtime s) ->
  Zone.regular_at libc (Zone.chosen s) ->
  _mktime true (fromutc true dt) =
  (localtime (Calendar.timegm (DT.timetuple6 dt)),
   (Calendar.timegm (DT.timetuple6 dt), microsecond dt)).
Proof.
  intros s0 R F1 R1. subst s0. unfold Zone.chosen in F1, R1.
  rewrite fromutc_make. cbv zeta.
  set (secs := Calendar.timegm (DT.timetuple6 dt)) in *.
  set (t := localtime secs) in *.
  set (secs0 := mktime (tm6 t) (not_int (tm_isdst t))).
  rewrite mktime_of_make. cbv zeta. cbn [negb].
  set (secs1 := mktime (tm6 t) (-1)) in *.
  set (t1 := localtime secs1) in *.
  unfold t at 1. rewrite (flag_not_negative _ R).
  unfold t1 at 1. rewrite (flag_not_negative _ R1).
  pose proof (same_fields_offsets secs1 secs R1 R F1) as Off1. fold t1 t in Off1.
  destruct (Z.eq_dec secs1 secs) as [E1 | N1].
  - (* [mktime] found the instant itself *)
    assert (Et : t1 = t) by (unfold t1, t; now rewrite E1).
    rewrite Et, E1. fold secs0.
    destruct (secs0 =? secs) eqn:E0; [reflexivity|].
    apply Z.eqb_neq in E0.
    destruct (tm_gmtoff t =? tm_gmtoff (localtime secs0)) eqn:Eg; [reflexivity|].
    apply Z.eqb_neq in Eg.
    destruct (secs0 >=? secs) eqn:Ege.
    + assert (L : secs < secs0) by (apply Z.geb_le in Ege; lia).
      pose proof (mktime_other _ _ R L) as Le. fold t secs0 in Le.
      replace (tm_gmtoff (localtime secs0) <? tm_gmtoff t) with true
        by (symmetry; apply Z.ltb_lt; lia).
      reflexivity.
    + destruct (tm_gmtoff t <? tm_gmtoff (localtime secs0)) eqn:Elt.
      * apply Z.ltb_lt in Elt.
        replace (tm_gmtoff (localtime secs0) <? tm_gmtoff t) with false
          by (symmetry; apply Z.ltb_ge; lia).
        reflexivity.
      * apply Z.ltb_ge in Elt.
        replace (tm_gmtoff (localtime secs0) <? tm_gmtoff t) with true
          by (symmetry; apply Z.ltb_lt; lia).
        reflexivity.
  - (* [mktime] found the other occurrence of a repeated local time *)
    assert (T1 : mktime (tm6 t1) (not_int (tm_isdst t1)) = secs)
      by (apply mktime_toggle; assumption).
    assert (T0 : secs0 = secs1).
    { unfold secs0, t. apply mktime_toggle; [assumption.. | now symmetry | congruence]. }
    rewrite T1, T0. fold t t1.
    replace (secs =? secs1) with false by (symmetry; apply Z.eqb_neq; congruence).
    replace (tm_gmtoff t1 =? tm_gmtoff t) with false
      by (symmetry; apply Z.eqb_neq; lia).
    destruct (secs1 >=? secs) eqn:Ege.
    + apply Z.geb_le in Ege.
      replace (tm_gmtoff t <? tm_gmtoff t1) with false
        by (symmetry; apply Z.ltb_ge; lia).
      reflexivity.
    + rewrite Z.geb_leb in Ege. apply Z.leb_gt in Ege.
      replace (tm_gmtoff t <? tm_gmtoff t1) with true
        by (symmetry; apply Z.ltb_lt; lia).
      reflexivity.
Qed.

(** The round trip at one instant. *)
Lemma round_trip_at dt :
  let s := Calendar.timegm (DT.timetuple6 dt) in
  Zone.regular_at libc s ->
  tm6 (localtime (Zone.chosen s)) = tm6 (localtime s) ->
  Zone.regular_at libc (Zone.chosen s) ->
  to_utc true (fromutc true dt) = instant dt.
Proof.
  intros s R F1 R1. subst s. unfold to_utc, utcoffset, instant.
  rewrite (mktime_fromutc dt R F1 R1). cbn [fst].
  rewrite fromutc_make. cbv zeta.
  change (DT.timetuple6 (make ?a ?u ?f)) with a.
  change (microsecond (make ?a ?u ?f)) with u.
  rewrite (gmtoff_fields _ _ R). f_equal. lia.
Qed.

End Regular.

Lemma tm6_tm_at s off d : tm6 (Env.tm_at s off d) = Calendar.gmtime (s + off).
Proof.
  unfold Env.tm_at.
  destruct (gmtime_length (s + off)) as (y & m & dd & h & mi & se & ->).
  reflexivity.
Qed.

Lemma gmtoff_tm_at s off d : tm_gmtoff (Env.tm_at s off d) = off.
Proof.
  unfold Env.tm_at.
  destruct (gmtime_length (s + off)) as (y & m & dd & h & mi & se & ->).
  reflexivity.
Qed.

Lemma isdst_tm_at s off d : tm_isdst (Env.tm_at s off d) = d.
Proof.
  unfold Env.tm_at.
  destruct (gmtime_length (s + off)) as (y & m & dd & h & mi & se & ->).
  reflexivity.
Qed.

(** The zone [Env.warsaw] is regular at every instant, and [mktime] finds
    an instant that shows the fields it is given. *)
Lemma warsaw_regular s :
  Zone.regular_at Env.warsaw s
  /\ tm6 (@localtime Env.warsaw (@Zone.chosen Env.warsaw s))
     = tm6 (@localtime Env.warsaw s).
Proof.
  assert (G : forall s, Calendar.timegm (tm6 (@localtime Env.warsaw s))
                        = s + tm_gmtoff (@localtime Env.warsaw s)).
  { intros x. cbn [localtime Env.warsaw].
    destruct (x <? Env.summer_end);
      now rewrite tm6_tm_at, gmtoff_tm_at, timegm_gmtime. }
  assert (O : forall s, tm_gmtoff (@localtime Env.warsaw s)
                        = if s <? Env.summer_end then 7200 else 3600).
  { intros x. cbn [localtime Env.warsaw].
    destruct (x <? Env.summer_end); now rewrite gmtoff_tm_at. }
  assert (D : forall s, tm_isdst (@localtime Env.warsaw s)
                        = if s <? Env.summer_end then 1 else 0).
  { intros x. cbn [localtime Env.warsaw].
    destruct (x <? Env.summer_end); now rewrite isdst_tm_at. }
  assert (F : forall s, tm6 (@localtime Env.warsaw s)
                        = Calendar.gmtime (s + tm_gmtoff (@localtime Env.warsaw s))).
  { intros x. rewrite O. cbn [localtime Env.warsaw].
    destruct (x <? Env.summer_end); now rewrite tm6_tm_at. }
  assert (M : forall s h, @mktime Env.warsaw (tm6 (@localtime Env.warsaw s)) h
                          = let g := s + tm_gmtoff (@localtime Env.warsaw s) in
                            if h =? 0 then g - 3600
                            else if 0 <? h then g - 7200
                            else if g - 7200 <? Env.summer_end
                                 then g - 7200 else g - 3600).
  { intros x h. cbn [mktime Env.warsaw]. cbv zeta. now rewrite G. }
  split; [constructor|].
  - apply G.
  - rewrite D. destruct (s <? Env.summer_end); auto.
  - rewrite M, D, O. cbv zeta. unfold Env.summer_end.
    destruct (Z.ltb_spec s 1635642000); cbn; lia.
  - rewrite !M, !D, !O. cbv zeta. unfold Env.summer_end.
    destruct (Z.ltb_spec s 1635642000); cbn [not_int Z.eqb Z.ltb Z.compare];
      cbv iota; intros L;
      repeat match goal with
             | |- context [?a <? ?b] => destruct (Z.ltb_spec a b)
             end; lia.
  - unfold Zone.chosen. rewrite M. cbv zeta. rewrite !F. f_equal.
    change (-1 =? 0) with false. change (0 <? -1) with false. cbv iota.
    rewrite !O. unfold Env.summer_end.
    repeat match goal with
           | |- context [?a <? ?b] => destruct (Z.ltb_spec a b)
           end; lia.
Qed.

(** C4.  At an instant where the C library is regular, that is where a
    repeated local time is told apart by [tm_isdst] ([Zone.regular_at], of
    the instant and of the one [mktime] chooses for its local time, which
    shows the same fields), converting the instant to local fields with
    [fromutc] and back reproduces it, microseconds included.  When a second,
    later instant of that kind shows the same local fields, the earlier one
    is given [fold = 0] and the later one [fold = 1], the two local values
    differ in nothing else, each maps back to its own instant, and the
    instants are as far apart as the two offsets: one hour when the clocks
    were set back by one hour. *)
Theorem fromutc_round_trip (libc : LibC) (dt : DateTime) :
  let s := fst (instant dt) in
  Zone.regular_at libc s ->
  tm6 (localtime (Zone.chosen s)) = tm6 (localtime s) ->
  Zone.regular_at libc (Zone.chosen s) ->
  to_utc true (fromutc true dt) = instant dt /\
  forall dt' : DateTime,
    Zone.regular_at libc (fst (instant dt')) ->
    DT.timetuple6 (fromutc true dt') = DT.timetuple6 (fromutc true dt) ->
    fst (instant dt) < fst (instant dt') ->
    fromutc true dt = make (DT.timetuple6 (fromutc true dt)) (microsecond dt) 0 /\
    fromutc true dt' = make (DT.timetuple6 (fromutc true dt)) (microsecond dt') 1 /\
    to_utc true (fromutc true dt') = instant dt' /\
    fst (instant dt') - fst (instant dt)
    = tm_gmtoff (localtime (fst (instant dt)))
      - tm_gmtoff (localtime (fst (instant dt'))).
Proof.
  intros s0 R F1 R1. subst s0. unfold instant in R, F1, R1. cbn [fst] in R, F1, R1.
  split; [now apply round_trip_at|].
  intros dt' R' E L. unfold instant in R', L |- *. cbn [fst] in R', L |- *.
  rewrite !fromutc_make in E |- *. cbv zeta in E |- *.
  change (DT.timetuple6 (make ?a ?u ?f)) with a in E |- *.
  assert (RT' : to_utc true (fromutc true dt')
                = (Calendar.timegm (DT.timetuple6 dt'), microsecond dt')).
  { apply round_trip_at; [exact R' | |]; unfold Zone.chosen in *; rewrite E;
      [exact F1 | exact R1]. }
  rewrite fromutc_make in RT'. cbv zeta in RT'.
  set (s := Calendar.timegm (DT.timetuple6 dt)) in *.
  set (s' := Calendar.timegm (DT.timetuple6 dt')) in *.
  pose proof (same_fields_offsets libc s' s R' R E) as Off.
  rewrite (flag_not_negative libc s R), (flag_not_negative libc s' R') in *.
  rewrite (mktime_toggle libc s s' R R') in * by (auto; lia).
  rewrite (mktime_toggle libc s' s R' R) in * by (auto; lia).
  replace (s' >=? s) with true in * by (symmetry; apply Z.geb_le; lia).
  replace (s >=? s') with false in *
    by (rewrite Z.geb_leb; symmetry; apply Z.leb_gt; lia).
  replace (tm_gmtoff (localtime s') <? tm_gmtoff (localtime s)) with true in *
    by (symmetry; apply Z.ltb_lt; lia).
  rewrite E in *.
  repeat split; try reflexivity.
  - exact RT'.
  - lia.
Qed.

(** The statement at the two instants shown as 02:30 on 31 October 2021 in
    [Env.warsaw]. *)
Lemma fromutc_round_trip_witness :
  @to_utc Env.warsaw true (@fromutc Env.warsaw true Env.utc_0030)
  = instant Env.utc_0030 /\
  @fromutc Env.warsaw true Env.utc_0030 = mkDateTime 2021 10 31 2 30 0 250000 0 /\
  @fromutc Env.warsaw true Env.utc_0130 = mkDateTime 2021 10 31 2 30 0 250000 1 /\
  @to_utc Env.warsaw true (@fromutc Env.warsaw true Env.utc_0130)
  = instant Env.utc_0130 /\
  fst (instant Env.utc_0130) - fst (instant Env.utc_0030) = 3600.
Proof.
  destruct (fromutc_round_trip Env.warsaw Env.utc_0030
              (proj1 (warsaw_regular _)) (proj2 (warsaw_regular _))
              (proj1 (warsaw_regular _)))
    as [RT F].
  destruct (F Env.utc_0130 (proj1 (warsaw_regular _)) eq_refl
              ltac:(vm_compute; reflexivity))
    as (F0 & F1 & RT' & Gap).
  exact (conj RT (conj F0 (conj F1 (conj RT' Gap)))).
Defined.

(** In [Env.moscow] the second instant shown as 01:30 on 26 October 2014 is
    given [fold = 1], and is taken back to the first, one hour earlier.
    There [mktime], given the flag the instant has, returns the first. *)
Lemma fromutc_round_trip_counterexample :
  @fromutc Env.moscow true Env.utc_2230 = mkDateTime 2014 10 26 1 30 0 0 1 /\
  @to_utc Env.moscow true (@fromutc Env.moscow true Env.utc_2230)
  = (fst (instant Env.utc_2230) - 3600, 0) /\
  @to_utc Env.moscow true (@fromutc Env.moscow true Env.utc_2230)
  <> instant Env.utc_2230 /\
  ~ Zone.regular_at Env.moscow (fst (instant Env.utc_2230)).
Proof.
  split; [vm_compute; reflexivity|].
  split; [vm_compute; reflexivity|].
  split; [vm_compute; discriminate|].
  intros R. pose proof (Zone.mktime_flag _ _ R) as M.
  vm_compute in M. discriminate M.
Qed.

(* ------------------------------------------------------------------ *)
(** ** The command line *)
(* ------------------------------------------------------------------ *)

Import Cli.

Lemma rounds_app l1 l2 : rounds (l1 ++ l2) = (rounds l1 + rounds l2)%nat.
Proof. induction l1 as [|a l1 IH]; simpl; [reflexivity|]. rewrite IH. lia. Qed.

(** [s.split(sep, maxsplit=1)] of a string that holds [sep]. *)
Lemma split_max_1 sep (s : string) :
  PyStr.has_char sep s = true ->
  exists k v, PyStr.split_max sep 1 s = [k; v]
              /\ (String.length s = String.length k + 1 + String.length v)%nat.
Proof.
  induction s as [|c s IH]; simpl; [discriminate|].
  destruct (Ascii.eqb c sep) eqn:E; simpl.
  - intros _. exists EmptyString, s. split; [|simpl; lia].
    destruct s; reflexivity.
  - intros Hs. destruct (IH Hs) as (k & v & E1 & E2).
    rewrite E1. exists (String c k), v. split; [reflexivity|]. simpl. lia.
Qed.

Lemma expand_cases `{Interp} a :
  expand a = Ok [a]
  \/ exists c1 c2 r,
       a = String "-" (String c1 (String c2 r))
       /\ expand a =
          if negb (Ascii.eqb c1 "-")
          then Ok [String "-" (String c1 EmptyString); String "-" (String c2 r)]
          else if PyStr.has_char "=" r
          then _ <- assert (isidentifier c2) ;; Ok (PyStr.split_max "=" 1 a)
          else Ok [a].
Proof.
  destruct a as [|c0 [|c1 [|c2 r]]]; try (left; reflexivity).
  - left. unfold expand. destruct c0 as [[] [] [] [] [] [] [] []]; reflexivity.
  - left. unfold expand. destruct c0 as [[] [] [] [] [] [] [] []]; reflexivity.
  - destruct (Ascii.ascii_dec c0 "-") as [-> | N].
    + right. exists c1, c2, r. split; reflexivity.
    + left. unfold expand.
      destruct c0 as [[] [] [] [] [] [] [] []]; try reflexivity. now elim N.
Qed.

(** What [expand] puts in the place of a word is a first word, and behind
    it nothing as long as the word. *)
Lemma expand_shape `{Interp} a head :
  expand a = Ok head ->
  exists b more, head = b :: more /\ (rounds more <= String.length a)%nat.
Proof.
  destruct (expand_cases a) as [E | (c1 & c2 & r & -> & E)]; rewrite E.
  - intros E'; injection E' as <-. exists a, []. split; [reflexivity | simpl; lia].
  - destruct (Ascii.eqb c1 "-") eqn:E1c; cbn [negb].
    + apply Ascii.eqb_eq in E1c. subst c1.
      destruct (PyStr.has_char "=" r) eqn:Er.
      * destruct (split_max_1 "=" (String "-" (String "-" (String c2 r))))
          as (k & v & E1 & E2).
        { simpl. rewrite Er. now rewrite !orb_true_r. }
        rewrite E1.
        destruct (isidentifier c2); cbn [assert bind]; [|discriminate].
        intros E'; injection E' as <-.
        exists k, [v]. split; [reflexivity|].
        simpl in *. lia.
      * intros E'; injection E' as <-. eexists _, []. split; [reflexivity | simpl; lia].
    + intros E'; injection E' as <-. eexists _, _. split; [reflexivity|]. simpl. lia.
Qed.

Lemma parse_S `{Interp} fuel help a rest r v :
  parse (S fuel) help (a :: rest) r v = round help a rest r v (parse fuel help).
Proof. reflexivity. Qed.

(** Where [continue] is applied in a round, there are fewer rounds to go. *)
Lemma round_ext `{Interp} help a rest r v k1 k2 :
  (forall args r' v', (rounds args < rounds (a :: rest))%nat ->
                      k1 args r' v' = k2 args r' v') ->
  round help a rest r v k1 = round help a rest r v k2.
Proof.
  intros K. unfold round.
  destruct (expand a) as [head|e] eqn:E; [|reflexivity].
  destruct (expand_shape _ _ E) as (b & more & -> & L).
  cbn [app].
  assert (R : (rounds (more ++ rest) < rounds (a :: rest))%nat).
  { rewrite rounds_app. simpl. lia. }
  rewrite !(K _ _ _ R). reflexivity.
Qed.

Lemma parse_enough `{Interp} help n :
  forall f1 f2 args r v,
    (rounds args <= n)%nat -> (n <= f1)%nat -> (n <= f2)%nat ->
    parse f1 help args r v = parse f2 help args r v.
Proof.
  induction n as [|n IH]; intros f1 f2 [|a rest] r v L L1 L2;
    try (destruct f1, f2; reflexivity); try (simpl in L; lia).
  destruct f1 as [|f1]; [lia|]. destruct f2 as [|f2]; [lia|].
  rewrite !parse_S. apply round_ext. intros args r' v' R.
  apply IH; lia.
Qed.

(** The loop from a state, round by round. *)
Lemma run_step `{Interp} help a rest r v :
  run help (a :: rest) r v = round help a rest r v (run help).
Proof.
  unfold run at 1. cbn [rounds fold_right]. rewrite parse_S.
  apply round_ext. intros args r' v' R. unfold run.
  apply (parse_enough help (rounds args)); unfold rounds in *;
    cbn [fold_right] in *; lia.
Qed.

Lemma run_nil `{Interp} help r v : run help [] r v = Some (finish help r v).
Proof. reflexivity. Qed.

Lemma parse_ends `{Interp} help n :
  forall args r v, (rounds args <= n)%nat -> parse n help args r v <> None.
Proof.
  induction n as [|n IH]; intros [|a rest] r v L; try discriminate;
    try (simpl in L; lia).
  rewrite parse_S. unfold round.
  destruct (expand a) as [head|e] eqn:E; [|discriminate].
  destruct (expand_shape _ _ E) as (b & more & -> & Lm).
  cbn [app].
  assert (R : (rounds (more ++ rest) <= n)%nat).
  { rewrite rounds_app. simpl in L. fold (rounds rest) in L. lia. }
  repeat match goal with
         | |- (if ?c then _ else _) <> None => destruct c
         end; try discriminate; apply IH; exact R.
Qed.

Lemma plain_expand `{Interp} a : plain a = true -> expand a = Ok [a].
Proof.
  unfold plain, startswith. destruct a as [|c a]; [reflexivity|]. intros P.
  unfold expand.
  destruct c as [[] [] [] [] [] [] [] []]; try reflexivity.
  simpl in P. destruct a; discriminate P.
Qed.

Lemma plain_not_option a o :
  plain a = true -> startswith o "-" = true -> String.eqb a o = false.
Proof.
  intros P S. apply String.eqb_neq. intros ->. unfold plain in P.
  rewrite S in P. discriminate.
Qed.

Lemma run_plain `{Interp} help a rest r v :
  plain a = true -> run help (a :: rest) r v = run help rest (r ++ [a]) v.
Proof.
  intros P. rewrite run_step. unfold round. rewrite (plain_expand a P).
  cbn [app].
  rewrite !(plain_not_option a _ P) by reflexivity. cbn [orb].
  unfold plain in P. apply negb_true_iff in P. rewrite P. reflexivity.
Qed.

Lemma step_cases a :
  step a <> 0 ->
  (a = "--verbose" \/ a = "-v") /\ step a = 1
  \/ (a = "--quiet" \/ a = "-q") /\ step a = -1.
Proof.
  unfold step.
  destruct (String.eqb a "--verbose") eqn:E1;
    [apply String.eqb_eq in E1; auto|].
  destruct (String.eqb a "-v") eqn:E2; [apply String.eqb_eq in E2; auto|].
  destruct (String.eqb a "--quiet") eqn:E3; [apply String.eqb_eq in E3; auto|].
  destruct (String.eqb a "-q") eqn:E4; [apply String.eqb_eq in E4; auto|].
  intros N. now elim N.
Qed.

Lemma run_flag `{Interp} help a rest r v :
  step a <> 0 -> run help (a :: rest) r v = run help rest r (v + step a).
Proof.
  intros N. rewrite run_step.
  destruct (step_cases a N) as [[[-> | ->] ->] | [[-> | ->] ->]]; reflexivity.
Qed.

(** Plain words and verbosity options, in any order, are taken in. *)
Lemma run_passes `{Interp} help pre :
  forall rest r v,
    forallb passes pre = true ->
    run help (pre ++ rest) r v
    = run help rest (r ++ filter plain pre) (v + level pre).
Proof.
  induction pre as [|a pre IH]; intros rest r v P.
  - simpl. rewrite app_nil_r, Z.add_0_r. reflexivity.
  - simpl in P. apply andb_prop in P as [Pa P]. cbn [app filter level fold_right].
    fold (level pre).
    destruct (plain a) eqn:Ep.
    + rewrite (run_plain _ _ _ _ _ Ep), (IH _ _ _ P).
      assert (S0 : step a = 0).
      { unfold step. rewrite !(plain_not_option a _ Ep) by reflexivity. reflexivity. }
      rewrite S0, <- app_assoc. reflexivity.
    + unfold passes in Pa. rewrite Ep in Pa. cbn [orb] in Pa.
      apply negb_true_iff, Z.eqb_neq in Pa.
      rewrite (run_flag _ _ _ _ _ Pa), (IH _ _ _ P).
      f_equal. lia.
Qed.

(** A cluster of one-letter options is read letter by letter. *)
Lemma run_cluster `{Interp} help cs :
  forall rest r v,
    cs <> EmptyString -> PyStr.has_char "-" cs = false ->
    run help (String "-" cs :: rest) r v = run help (letters cs ++ rest) r v.
Proof.
  induction cs as [|c cs IH]; intros rest r v N D; [now elim N|].
  destruct cs as [|c' cs]; [reflexivity|].
  simpl in D. apply orb_false_elim in D as [Dc D].
  cbn [letters app]. fold (letters (String c' cs)).
  rewrite !run_step.
  assert (E1 : expand (String "-" (String c (String c' cs)))
               = Ok [String "-" (String c EmptyString); String "-" (String c' cs)]).
  { unfold expand. rewrite Dc. reflexivity. }
  assert (E2 : expand (String "-" (String c EmptyString))
               = Ok [String "-" (String c EmptyString)]) by reflexivity.
  unfold round. rewrite E1, E2. cbn [app].
  assert (I : forall r' v',
             run help (String "-" (String c' cs) :: rest) r' v'
             = run help (letters (String c' cs) ++ rest) r' v').
  { intros r' v'. apply IH; [discriminate|]. simpl. exact D. }
  assert (Edd : String.eqb (String "-" (String c EmptyString)) "--" = false).
  { simpl. rewrite Dc. reflexivity. }
  rewrite !I, !Edd. reflexivity.
Qed.

Lemma digest_args_eq `{Interp} args progname :
  digest_args (Some args) progname = run (help_text progname) args [] 0.
Proof. reflexivity. Qed.

(** The option loop ends on every argument list: each round takes a word off
    the list or leaves a shorter word in the place of the first. *)
Theorem digest_args_terminates `{Interp} args progname :
  exists o, digest_args args progname = Some o.
Proof.
  unfold digest_args, run.
  set (l := match args with Some l => l | None => argv_rest end).
  destruct (parse (rounds l) (help_text progname) l [] 0) as [o|] eqn:E.
  - now exists o.
  - exfalso. revert E. apply parse_ends. lia.
Qed.

(** Plain words and verbosity options may come in any order: the first plain
    word is the command, the other plain words are its arguments, in their
    order, and the verbosity is the number of [-v]/[--verbose] less the
    number of [-q]/[--quiet], wherever they stand.  Without a plain word the
    wrapper exits with status 2. *)
Theorem digest_args_words_and_options `{Interp} args progname :
  forallb passes args = true ->
  digest_args (Some args) progname
  = Some (match filter plain args with
          | cmd :: rest => Call cmd rest (level args)
          | [] => Exit 2 [] ["ERROR: missing command"; help_text progname]
          end).
Proof.
  intros P. rewrite digest_args_eq.
  rewrite <- (app_nil_r args) at 1.
  rewrite (run_passes _ _ _ _ _ P), run_nil. cbn [app]. unfold finish.
  destruct (filter plain args); reflexivity.
Qed.

Lemma digest_args_words_and_options_witness :
  @digest_args Env.interp (Some ["-v"; "wheel"; "-q"; "--verbose"; "dist"]) None
  = Some (Call "wheel" ["dist"] 1).
Proof.
  exact (@digest_args_words_and_options Env.interp
           ["-v"; "wheel"; "-q"; "--verbose"; "dist"] None eq_refl).
Defined.

(** What follows [--] is taken as it stands, option or not. *)
Theorem digest_args_after_dashes `{Interp} pre post progname :
  forallb passes pre = true ->
  digest_args (Some (pre ++ "--" :: post)) progname
  = Some (match filter plain pre ++ post with
          | cmd :: rest => Call cmd rest (level pre)
          | [] => Exit 2 [] ["ERROR: missing command"; help_text progname]
          end).
Proof.
  intros P. rewrite digest_args_eq, (run_passes _ _ _ _ _ P). cbn [app].
  rewrite run_step. unfold round, finish. cbn.
  destruct (filter plain pre ++ post); reflexivity.
Qed.

Lemma digest_args_after_dashes_witness :
  @digest_args Env.interp (Some (["wheel"; "-v"] ++ "--" :: ["-h"; "--x=1"])) None
  = Some (Call "wheel" ["-h"; "--x=1"] 1).
Proof.
  exact (@digest_args_after_dashes Env.interp ["wheel"; "-v"] ["-h"; "--x=1"] None
           eq_refl).
Defined.

(** [-h], [--help], [-V] and [--version] end the run with status 0 where
    they stand, after the command as well; what follows them is not looked
    at. *)
Theorem digest_args_help_and_version `{Interp} pre a rest progname :
  forallb passes pre = true ->
  (a = "-h" \/ a = "--help" ->
   digest_args (Some (pre ++ a :: rest)) progname
   = Some (Exit 0 [help_text progname] []))
  /\ (a = "-V" \/ a = "--version" ->
      digest_args (Some (pre ++ a :: rest)) progname
      = Some (Exit 0 [PROJECT_NAME +++ " " +++ PROJECT_VERSION] [])).
Proof.
  intros P. rewrite digest_args_eq, (run_passes _ _ _ _ _ P), run_step.
  split; intros [-> | ->]; reflexivity.
Qed.

Lemma digest_args_help_and_version_witness :
  @digest_args Env.interp (Some (["wheel"] ++ "-h" :: ["--nonsense"])) (Some "do")
  = Some (Exit 0 ["do [-h|--help] [-V|--version] <command> [args...]"] []).
Proof.
  exact (proj1 (@digest_args_help_and_version Env.interp ["wheel"] "-h"
                  ["--nonsense"] (Some "do") eq_refl) (or_introl eq_refl)).
Defined.

(** A cluster of one-letter options, [-abc], is read as [-a -b -c]. *)
Theorem digest_args_cluster `{Interp} pre cs rest progname :
  forallb passes pre = true ->
  cs <> "" -> PyStr.has_char "-" cs = false ->
  digest_args (Some (pre ++ ("-" +++ cs) :: rest)) progname
  = digest_args (Some (pre ++ letters cs ++ rest)) progname.
Proof.
  intros P N D. rewrite !digest_args_eq, !(run_passes _ _ _ _ _ P).
  apply run_cluster; assumption.
Qed.

Lemma digest_args_cluster_witness :
  @digest_args Env.interp (Some ([] ++ ("-" +++ "vvq") :: ["wheel"])) None
  = @digest_args Env.interp (Some ([] ++ letters "vvq" ++ ["wheel"])) None.
Proof.
  exact (@digest_args_cluster Env.interp [] "vvq" ["wheel"] None eq_refl
           ltac:(discriminate) eq_refl).
Defined.

(** An option that is not known ends the run with status 2; the command is
    not called. *)
Theorem digest_args_unknown_option `{Interp} pre a rest progname :
  forallb passes pre = true ->
  single a = true -> known a = false -> PyStr.has_char "=" a = false ->
  digest_args (Some (pre ++ a :: rest)) progname
  = Some (Exit 2 [] ["ERROR: unrecognized option " +++ repr a]).
Proof.
  intros P S K Q. rewrite digest_args_eq, (run_passes _ _ _ _ _ P), run_step.
  unfold known in K. cbn [existsb] in K.
  repeat (apply orb_false_elim in K as [?E K]).
  assert (Ex : expand a = Ok [a]).
  { destruct (expand_cases a) as [Ex | (c1 & c2 & r & -> & Ex)]; [exact Ex|].
    rewrite Ex. simpl in S, Q.
    repeat (apply orb_false_elim in Q as [_ Q]).
    rewrite Q. destruct (Ascii.eqb c1 "-"); [reflexivity | discriminate S]. }
  unfold round. rewrite Ex. cbn [app].
  rewrite E, E0, E1, E2, E3, E4, E5, E6, E7. cbn [orb].
  assert (St : startswith a "-" = true).
  { clear - S. unfold single in S. destruct a as [|c a']; [discriminate S|].
    destruct (Ascii.ascii_dec c "-") as [-> | Nc]; [destruct a'; reflexivity|].
    exfalso.
    destruct c as [[] [] [] [] [] [] [] []];
      try (destruct a'; discriminate S).
    apply Nc. reflexivity. }
  rewrite St. reflexivity.
Qed.

Lemma digest_args_unknown_option_witness :
  @digest_args Env.interp (Some (["wheel"] ++ "--force" :: ["x"])) None
  = Some (Exit 2 [] ["ERROR: unrecognized option '--force'"]).
Proof.
  exact (@digest_args_unknown_option Env.interp ["wheel"] "--force" ["x"] None
           eq_refl eq_refl eq_refl eq_refl).
Defined.

(** An option written [--name=value] is read as the two words [--name] and
    [value] when [name] begins like an identifier; when it does not, the
    wrapper fails an assertion. *)
Theorem digest_args_assignment `{Interp} pre c name value rest progname :
  forallb passes pre = true ->
  PyStr.has_char "=" (String c name) = false ->
  digest_args
    (Some (pre ++ ("--" +++ String c name +++ "=" +++ value) :: rest)) progname
  = if isidentifier c
    then digest_args
           (Some (pre ++ ("--" +++ String c name) :: value :: rest)) progname
    else Some (Fail AssertionError).
Proof.
  intros P Qc. rewrite !digest_args_eq, !(run_passes _ _ _ _ _ P), !run_step.
  unfold round.
  assert (Q : PyStr.has_char "=" name = false).
  { simpl in Qc. now apply orb_false_elim in Qc. }
  assert (Hs : PyStr.has_char "=" (name +++ String "=" value) = true).
  { rewrite has_char_app. simpl. now rewrite orb_true_r. }
  assert (E1 : expand ("--" +++ String c name +++ "=" +++ value)
               = _ <- assert (isidentifier c) ;;
                 Ok (PyStr.split_max "=" 1 ("--" +++ String c name +++ "=" +++ value))).
  { cbn [String.append]. unfold expand. cbn [Ascii.eqb Bool.eqb negb].
    now rewrite Hs. }
  rewrite E1.
  destruct (isidentifier c) eqn:Ei; cbn [assert bind]; [|reflexivity].
  assert (E2 : expand ("--" +++ String c name) = Ok ["--" +++ String c name]).
  { cbn [String.append]. unfold expand. cbn [Ascii.eqb Bool.eqb negb].
    now rewrite Q. }
  rewrite E2.
  assert (E3 : PyStr.split_max "=" 1 ("--" +++ String c name +++ "=" +++ value)
               = ["--" +++ String c name; value]).
  { assert (Qd : PyStr.has_char "=" ("--" +++ String c name) = false)
      by exact Qc.
    replace ("--" +++ String c name +++ "=" +++ value)
      with (("--" +++ String c name) +++ String "=" value)
      by reflexivity.
    rewrite (split_max_app_sep "=" 0 _ value Qd), split_max_0. reflexivity. }
  rewrite E3. reflexivity.
Qed.

Lemma digest_args_assignment_witness :
  @digest_args Env.interp (Some ([] ++ ("--" +++ String "1" "" +++ "=" +++ "2") :: [])) None
  = Some (Fail AssertionError).
Proof.
  exact (@digest_args_assignment Env.interp [] "1" "" "2" [] None eq_refl eq_refl).
Defined.

(* ------------------------------------------------------------------ *)
(** ** The archive builder after [close] *)
(* ------------------------------------------------------------------ *)

(** What [close] leaves of an open builder: no file object, no buffer and no
    dict of staged metadata. *)
Lemma close_state `{Runtime} self self' :
  fp self = true -> close self = Ok self' ->
  fp self' = false /\ __buf self' = None /\ __dist_info self' = None.
Proof.
  intros Hfp C. unfold close in C. rewrite Hfp in C. cbn [negb] in C.
  inv_bind C. inv_bind C. inv_bind C. inv_bind C. inv_bind C. inv_bind C.
  destruct a4 as [w z]. injection C as <-.
  unfold write_member in E4. destruct (negb (fp _)); [discriminate|].
  injection E4 as <- <-. repeat split.
Qed.

(** Closing a second time does nothing: [close] leaves the builder closed,
    and on a closed builder it returns at once. *)
Theorem close_twice `{Runtime} self self' :
  close self = Ok self' -> fp self' = false /\ close self' = Ok self'.
Proof.
  intros C.
  assert (F : fp self' = false).
  { destruct (fp self) eqn:Fp.
    - apply (close_state self self' Fp C).
    - unfold close in C. rewrite Fp in C. injection C as <-. exact Fp. }
  split; [exact F|]. unfold close. rewrite F. reflexivity.
Qed.

Lemma archive_closes :
  is_ok (@close Env.utc_runtime Env.archive) = true.
Proof. vm_compute. reflexivity. Qed.

Lemma close_twice_witness :
  exists w',
    @close Env.utc_runtime Env.archive = Ok w'
    /\ fp w' = false /\ @close Env.utc_runtime w' = Ok w'.
Proof.
  pose proof archive_closes as A.
  destruct (@close Env.utc_runtime Env.archive) as [w'|e] eqn:C; [|discriminate A].
  exists w'. split; [reflexivity|].
  exact (@close_twice Env.utc_runtime Env.archive w' C).
Defined.

(** A traversal that succeeds lists the directory it was called on. *)
Lemma collect_nonempty `{Runtime} self rel t dt seg :
  _collect_tree_info self rel t [] = Ok (dt, seg) -> seg <> [].
Proof.
  destruct t as [ | a b c d e | m es | ]; try discriminate.
  rewrite collect_Dir_nil. intros E. inv_bind E. inv_bind E. inv_bind E.
  injection E as _ <-. discriminate.
Qed.

(** A builder sealed by [close] takes no more trees: [add_tree] raises,
    whatever it is given. *)
Theorem add_tree_after_close `{Runtime} self self' root tree :
  fp self = true -> close self = Ok self' ->
  exists e, add_tree self' root tree = Raise e.
Proof.
  intros Hfp C. destruct (close_state self self' Hfp C) as (_ & Hb & Hd).
  unfold add_tree. cbv zeta.
  destruct (_collect_tree_info self' _ tree []) as [[dt seg]|e] eqn:E;
    [|cbn [bind]; eauto].
  cbn [bind]. pose proof (collect_nonempty _ _ _ _ _ E) as Hn.
  set (w := if tuple_ltb (__modified self') dt then _ else _).
  assert (Wb : __buf w = None) by (unfold w; destruct (tuple_ltb _ _); exact Hb).
  assert (Wd : __dist_info w = None) by (unfold w; destruct (tuple_ltb _ _); exact Hd).
  destruct seg as [|[[dir|dir] files] seg]; [congruence | |]; cbn [add_dirs].
  - unfold _add_dir. rewrite Wb. cbn [memoryview bind]. eauto.
  - unfold _add_dist_info.
    destruct (match __dist_info_prefix w with
              | Some p => Ok p
              | None => match Path.parts dir with
                        | p0 :: _ => Ok (Path.of_str p0)
                        | [] => Raise IndexError
                        end
              end) as [prefix|e]; [|cbn [bind]; eauto].
    cbn [bind]. destruct (Path.relative_to dir prefix) as [r|e]; [|cbn [bind]; eauto].
    cbn [bind]. rewrite Wd. cbn [the_dict bind]. eauto.
Qed.

Lemma add_tree_after_close_witness :
  exists w' e,
    @close Env.utc_runtime Env.archive = Ok w'
    /\ @add_tree Env.utc_runtime w' (PStr ".") Env.listing1 = Raise e.
Proof.
  pose proof archive_closes as A.
  destruct (@close Env.utc_runtime Env.archive) as [w'|e] eqn:C; [|discriminate A].
  destruct (@add_tree_after_close Env.utc_runtime Env.archive w' (PStr ".")
              Env.listing1 (proj1 archive_ok) C) as (e & E).
  exists w', e. split; [reflexivity | exact E].
Defined.
